(** * VulkanQueueRunner: the deferred command-graph optimizer and executor

    A shallow embedding of [ext/native/thin3d/VulkanQueueRunner.{h,cpp}]:
    the step records, the small insert-only set attached to every step, the
    render-pass cache, the peephole passes run by [RunSteps] (dead-clear
    folding, the MGS and Sonic fusions, the generic render-pass merge), the
    barrier logic of the step executor and the readback staging buffer.

    Conventions.
    - A C++ pointer is a natural number ([ptr]); [nullptr] is [0].  The step
      vector [std::vector<VKRStep *>] is a list of pointers into a heap of
      step objects, so that two vector slots holding the same pointer alias.
    - C integers are [Z]; where the source computes in a fixed width the
      wrap-around is written out.  A [float] is carried as its bit pattern.
    - Vulkan entry points and helpers of other translation units are fields
      of the [Env] record; every call that reaches the device or the command
      buffer is appended to a trace. *)

From Stdlib Require Import ZArith Lia.
From stdpp Require Import base decidable option list numbers countable gmap strings.

Open Scope Z_scope.

(** ** Pointers and handles *)

Abbreviation ptr := N.
Definition nullptr : ptr := 0%N.
Abbreviation handle := N.
Definition VK_NULL_HANDLE : handle := 0%N.

(** ** Vulkan API constants (from the Vulkan headers) *)

Module Vk.
Definition IMAGE_LAYOUT_UNDEFINED : Z := 0.
Definition IMAGE_LAYOUT_GENERAL : Z := 1.
Definition IMAGE_LAYOUT_COLOR_ATTACHMENT_OPTIMAL : Z := 2.
Definition IMAGE_LAYOUT_DEPTH_STENCIL_ATTACHMENT_OPTIMAL : Z := 3.
Definition IMAGE_LAYOUT_SHADER_READ_ONLY_OPTIMAL : Z := 5.
Definition IMAGE_LAYOUT_TRANSFER_SRC_OPTIMAL : Z := 6.
Definition IMAGE_LAYOUT_TRANSFER_DST_OPTIMAL : Z := 7.
Definition IMAGE_LAYOUT_PRESENT_SRC_KHR : Z := 1000001002.

Definition ATTACHMENT_LOAD_OP_LOAD : Z := 0.
Definition ATTACHMENT_LOAD_OP_CLEAR : Z := 1.
Definition ATTACHMENT_LOAD_OP_DONT_CARE : Z := 2.
Definition ATTACHMENT_STORE_OP_STORE : Z := 0.
Definition ATTACHMENT_STORE_OP_DONT_CARE : Z := 1.

Definition ACCESS_SHADER_READ_BIT : Z := 0x20.
Definition ACCESS_COLOR_ATTACHMENT_READ_BIT : Z := 0x80.
Definition ACCESS_COLOR_ATTACHMENT_WRITE_BIT : Z := 0x100.
Definition ACCESS_DEPTH_STENCIL_ATTACHMENT_READ_BIT : Z := 0x200.
Definition ACCESS_DEPTH_STENCIL_ATTACHMENT_WRITE_BIT : Z := 0x400.
Definition ACCESS_TRANSFER_READ_BIT : Z := 0x800.
Definition ACCESS_TRANSFER_WRITE_BIT : Z := 0x1000.

Definition PIPELINE_STAGE_FRAGMENT_SHADER_BIT : Z := 0x80.
Definition PIPELINE_STAGE_EARLY_FRAGMENT_TESTS_BIT : Z := 0x100.
Definition PIPELINE_STAGE_LATE_FRAGMENT_TESTS_BIT : Z := 0x200.
Definition PIPELINE_STAGE_COLOR_ATTACHMENT_OUTPUT_BIT : Z := 0x400.
Definition PIPELINE_STAGE_TRANSFER_BIT : Z := 0x1000.
Definition PIPELINE_STAGE_BOTTOM_OF_PIPE_BIT : Z := 0x2000.
Definition PIPELINE_STAGE_ALL_COMMANDS_BIT : Z := 0x10000.

Definition IMAGE_ASPECT_COLOR_BIT : Z := 1.
Definition IMAGE_ASPECT_DEPTH_BIT : Z := 2.
Definition IMAGE_ASPECT_STENCIL_BIT : Z := 4.

Definition MEMORY_PROPERTY_HOST_VISIBLE_BIT : Z := 2.
Definition MEMORY_PROPERTY_HOST_COHERENT_BIT : Z := 4.
Definition MEMORY_PROPERTY_HOST_CACHED_BIT : Z := 8.

Definition BUFFER_USAGE_TRANSFER_DST_BIT : Z := 2.

Definition FORMAT_R8G8B8A8_UNORM : Z := 37.
Definition FORMAT_D16_UNORM_S8_UINT : Z := 128.
Definition FORMAT_D24_UNORM_S8_UINT : Z := 129.
Definition FORMAT_D32_SFLOAT_S8_UINT : Z := 130.

Definition SUBPASS_EXTERNAL : Z := 0xFFFFFFFF.
Definition QUEUE_FAMILY_IGNORED : Z := 0xFFFFFFFF.
Definition SUCCESS : Z := 0.
End Vk.

(** The hack bits of [VulkanQueueRunner.h]. *)
Definition QUEUE_HACK_MGS2_ACID : Z := 1.
Definition QUEUE_HACK_SONIC : Z := 2.
Definition QUEUE_HACK_RENDERPASS_MERGE : Z := 8.

(** [a & b] used as a C condition. *)
Definition has_bits (a b : Z) : bool := negb (Z.land a b =? 0).

(** ** Outcomes: a call either returns or the process stops in an assertion *)

Inductive Abort :=
  | AssertFailed (what : string)
  | OutOfMemory
  | DoubleDelete.

Inductive Outcome (A : Type) :=
  | Done (a : A)
  | Stop (why : Abort).
Arguments Done {A} a.
Arguments Stop {A} why.

Definition obind {A B} (m : Outcome A) (k : A → Outcome B) : Outcome B :=
  match m with
  | Done a => k a
  | Stop w => Stop w
  end.

Notation "x ←! m ; k" := (obind m (λ x, k))
  (at level 20, m at level 100, k at level 200, right associativity,
   format "x  ←!  m ;  '/' k").

(** A check that stops the process when [cond] is false and the check is
    compiled in. *)
Definition check (enabled cond : bool) (what : string) : Outcome unit :=
  if enabled && negb cond then Stop (AssertFailed what) else Done tt.

(** ** TinySet: the insert-only small set of [VulkanQueueRunner.h]

    [fastLookup_] holds the first [fastCount] slots of the inline array (so
    [fastCount] is its length); [slowLookup_] is the lazily allocated
    overflow vector, [None] while it is the null pointer. *)

Record TinySet (T : Type) := mkTinySet {
  fastLookup_ : list T;
  slowLookup_ : option (list T);
}.
Arguments mkTinySet {T} _ _.
Arguments fastLookup_ {T} _.
Arguments slowLookup_ {T} _.

Module TinySet.
Section ops.
Context {T : Type} `{EqDecision T}.
Variable MaxFastSize : nat.

Definition empty : TinySet T := mkTinySet [] None.

Definition mem (t : T) (l : list T) : bool := existsb (λ x, bool_decide (x = t)) l.

Definition insertSlow (s : TinySet T) (t : T) : TinySet T :=
  match slowLookup_ s with
  | None => mkTinySet (fastLookup_ s) (Some [t])
  | Some v =>
      if mem t v then s
      else mkTinySet (fastLookup_ s) (Some (v ++ [t]))
  end.

Definition insert (s : TinySet T) (t : T) : TinySet T :=
  if mem t (fastLookup_ s) then s
  else if (length (fastLookup_ s) <? MaxFastSize)%nat
       then mkTinySet (fastLookup_ s ++ [t]) (slowLookup_ s)
       else insertSlow s t.

Definition contains (s : TinySet T) (t : T) : bool :=
  mem t (fastLookup_ s) ||
  match slowLookup_ s with
  | Some v => mem t v
  | None => false
  end.

(** [contains(const TinySet &otherSet)]: does some element of this set
    belong to [otherSet]? *)
Definition containsSet (s otherSet : TinySet T) : bool :=
  existsb (contains otherSet) (fastLookup_ s) ||
  match slowLookup_ s with
  | Some v => existsb (contains otherSet) v
  | None => false
  end.
End ops.
End TinySet.

(** ** Enumerations *)

Module VKRStepType.
Inductive t := RENDER | RENDER_SKIP | COPY | BLIT | READBACK | READBACK_IMAGE.
#[global] Instance eq_dec : EqDecision t.
Proof. solve_decision. Defined.
End VKRStepType.

Module VKRRenderPassAction.
Inductive t := DONT_CARE | CLEAR | KEEP.
#[global] Instance eq_dec : EqDecision t.
Proof. solve_decision. Defined.
Definition to_nat (a : t) : nat :=
  match a with DONT_CARE => 0 | CLEAR => 1 | KEEP => 2 end.
Definition of_nat (n : nat) : t :=
  match n with O => DONT_CARE | S O => CLEAR | _ => KEEP end.
End VKRRenderPassAction.

Module VKRRenderCommand.
Inductive t :=
  | REMOVED | BIND_PIPELINE | STENCIL | BLEND | VIEWPORT | SCISSOR
  | CLEAR | DRAW | DRAW_INDEXED | PUSH_CONSTANTS | NUM_RENDER_COMMANDS.
#[global] Instance eq_dec : EqDecision t.
Proof. solve_decision. Defined.
End VKRRenderCommand.

(** ** Recorded render commands ([VkRenderData])

    The C++ struct is a tag followed by a union; here every tag carries the
    union member that the recorder fills for it. *)

Abbreviation float := Z.   (* the IEEE-754 binary32 bit pattern *)

Record VkOffset2D := mkOffset2D { off_x : Z; off_y : Z }.
Record VkExtent2D := mkExtent2D { ext_width : Z; ext_height : Z }.
Record VkRect2D := mkRect2D { offset : VkOffset2D; extent : VkExtent2D }.
Record VkViewport := mkViewport {
  vp_x : float; vp_y : float; vp_width : float; vp_height : float;
  vp_minDepth : float; vp_maxDepth : float;
}.

Record DrawArgs := mkDrawArgs {
  draw_pipelineLayout : handle;
  draw_ds : handle;
  draw_numUboOffsets : Z;
  draw_uboOffsets : list Z;
  draw_vbuffer : handle;
  draw_voffset : Z;
  draw_count : Z;
}.

Record DrawIndexedArgs := mkDrawIndexedArgs {
  di_pipelineLayout : handle;
  di_ds : handle;
  di_numUboOffsets : Z;
  di_uboOffsets : list Z;
  di_vbuffer : handle;
  di_voffset : Z;
  di_ibuffer : handle;
  di_ioffset : Z;
  di_count : Z;
  di_instances : Z;
  di_indexType : Z;
}.

Record ClearArgs := mkClearArgs {
  clr_clearColor : Z;
  clr_clearZ : float;
  clr_clearStencil : Z;
  clr_clearMask : Z;
}.

Record StencilArgs := mkStencilArgs {
  stencilWriteMask : Z;
  stencilCompareMask : Z;
  stencilRef : Z;
}.

Record PushArgs := mkPushArgs {
  push_pipelineLayout : handle;
  push_stages : Z;
  push_offset : Z;
  push_size : Z;
  push_data : list Z;
}.

Inductive VkRenderData :=
  | RdRemoved
  | RdBindPipeline (pipeline : handle)
  | RdStencil (a : StencilArgs)
  | RdBlend (color : Z)
  | RdViewport (vp : VkViewport)
  | RdScissor (scissor : VkRect2D)
  | RdClear (a : ClearArgs)
  | RdDraw (a : DrawArgs)
  | RdDrawIndexed (a : DrawIndexedArgs)
  | RdPushConstants (a : PushArgs)
  | RdNumRenderCommands.

Definition cmd (c : VkRenderData) : VKRRenderCommand.t :=
  match c with
  | RdRemoved => VKRRenderCommand.REMOVED
  | RdBindPipeline _ => VKRRenderCommand.BIND_PIPELINE
  | RdStencil _ => VKRRenderCommand.STENCIL
  | RdBlend _ => VKRRenderCommand.BLEND
  | RdViewport _ => VKRRenderCommand.VIEWPORT
  | RdScissor _ => VKRRenderCommand.SCISSOR
  | RdClear _ => VKRRenderCommand.CLEAR
  | RdDraw _ => VKRRenderCommand.DRAW
  | RdDrawIndexed _ => VKRRenderCommand.DRAW_INDEXED
  | RdPushConstants _ => VKRRenderCommand.PUSH_CONSTANTS
  | RdNumRenderCommands => VKRRenderCommand.NUM_RENDER_COMMANDS
  end.

(** ** Steps ([VKRStep])

    [stepType] and the union are stored separately, as in the struct: a
    pass marks a step [RENDER_SKIP] by overwriting the tag only.  [StepUnion]
    names the union member that was last written. *)

Record TransitionRequest := mkTransitionRequest {
  tr_fb : ptr;
  tr_targetLayout : Z;
}.

Module Render.
Record t := mk {
  framebuffer : ptr;
  color : VKRRenderPassAction.t;
  depth : VKRRenderPassAction.t;
  stencil : VKRRenderPassAction.t;
  clearColor : Z;
  clearDepth : float;
  clearStencil : Z;
  numDraws : Z;
  numReads : Z;
  finalColorLayout : Z;
}.
End Render.

Module Copy.
Record t := mk {
  src : ptr; dst : ptr; srcRect : VkRect2D; dstPos : VkOffset2D; aspectMask : Z;
}.
End Copy.

Module Blit.
Record t := mk {
  src : ptr; dst : ptr; srcRect : VkRect2D; dstRect : VkRect2D;
  aspectMask : Z; filter : Z;
}.
End Blit.

Module Readback.
Record t := mk { aspectMask : Z; src : ptr; srcRect : VkRect2D }.
End Readback.

Module ReadbackImage.
Record t := mk { image : handle; srcRect : VkRect2D; mipLevel : Z }.
End ReadbackImage.

Inductive StepUnion :=
  | U_render (r : Render.t)
  | U_copy (c : Copy.t)
  | U_blit (b : Blit.t)
  | U_readback (r : Readback.t)
  | U_readback_image (r : ReadbackImage.t).

Record VKRStep := mkStep {
  stepType : VKRStepType.t;
  commands : list VkRenderData;
  preTransitions : list TransitionRequest;
  dependencies : TinySet ptr;
  u : StepUnion;
}.

(** Field writes. *)
Definition set_stepType (t : VKRStepType.t) (s : VKRStep) : VKRStep :=
  mkStep t (commands s) (preTransitions s) (dependencies s) (u s).
Definition set_commands (c : list VkRenderData) (s : VKRStep) : VKRStep :=
  mkStep (stepType s) c (preTransitions s) (dependencies s) (u s).
Definition set_preTransitions (p : list TransitionRequest) (s : VKRStep) : VKRStep :=
  mkStep (stepType s) (commands s) p (dependencies s) (u s).
Definition set_u (x : StepUnion) (s : VKRStep) : VKRStep :=
  mkStep (stepType s) (commands s) (preTransitions s) (dependencies s) x.

#[global] Instance VKRStep_inhabited : Inhabited VKRStep :=
  populate (mkStep VKRStepType.RENDER_SKIP [] [] TinySet.empty
              (U_readback_image (ReadbackImage.mk 0%N
                 (mkRect2D (mkOffset2D 0 0) (mkExtent2D 0 0)) 0))).

(** Reading a union member other than the one last written reinterprets
    the bytes of the union; what comes out depends on the ABI and is left
    to these functions.  [pun_draw_count] is [cmd.draw.count] read on a
    command that is not a [DRAW]. *)
Record Punning := mkPunning {
  pun_render : StepUnion → Render.t;
  pun_copy : StepUnion → Copy.t;
  pun_blit : StepUnion → Blit.t;
  pun_readback : StepUnion → Readback.t;
  pun_readback_image : StepUnion → ReadbackImage.t;
  pun_draw_count : VkRenderData → Z;
}.

(** ** Framebuffers ([VKRFramebuffer], [VKRImage])

    Both are declared in [VulkanRenderManager.h]; the fields below are the
    ones this translation unit reads or writes. *)

Record VKRImage := mkImage {
  image : handle;
  layout : Z;
  format : Z;
}.

Record VKRFramebuffer := mkFramebuffer {
  framebuf : handle;
  width : Z;
  height : Z;
  fb_color : VKRImage;
  fb_depth : VKRImage;
}.

Definition set_layout (l : Z) (img : VKRImage) : VKRImage :=
  mkImage (image img) l (format img).
Definition set_fb_color (c : VKRImage) (fb : VKRFramebuffer) : VKRFramebuffer :=
  mkFramebuffer (framebuf fb) (width fb) (height fb) c (fb_depth fb).
Definition set_fb_depth (d : VKRImage) (fb : VKRFramebuffer) : VKRFramebuffer :=
  mkFramebuffer (framebuf fb) (width fb) (height fb) (fb_color fb) d.

#[global] Instance VKRFramebuffer_inhabited : Inhabited VKRFramebuffer :=
  populate (mkFramebuffer 0%N 0 0 (mkImage 0%N 0 0) (mkImage 0%N 0 0)).

(** ** Render-pass cache key ([RPKey]) *)

Record RPKey := mkRPKey {
  colorLoadAction : VKRRenderPassAction.t;
  depthLoadAction : VKRRenderPassAction.t;
  stencilLoadAction : VKRRenderPassAction.t;
  prevColorLayout : Z;
  prevDepthLayout : Z;
  finalColorLayout : Z;
}.

#[global] Instance RPKey_eq_dec : EqDecision RPKey.
Proof. solve_decision. Defined.

#[global] Instance RPKey_countable : Countable RPKey.
Proof.
  refine (inj_countable'
    (λ k, (VKRRenderPassAction.to_nat (colorLoadAction k),
           VKRRenderPassAction.to_nat (depthLoadAction k),
           VKRRenderPassAction.to_nat (stencilLoadAction k),
           prevColorLayout k, prevDepthLayout k, finalColorLayout k))
    (λ '(c, d, s, pc, pd, fc),
       mkRPKey (VKRRenderPassAction.of_nat c) (VKRRenderPassAction.of_nat d)
               (VKRRenderPassAction.of_nat s) pc pd fc) _).
  by intros [[] [] [] ? ? ?].
Defined.

(** ** What reaches the device and the command buffer *)

Record VkAttachmentDescription := mkAttachment {
  att_format : Z;
  att_loadOp : Z;
  att_storeOp : Z;
  att_stencilLoadOp : Z;
  att_stencilStoreOp : Z;
  att_initialLayout : Z;
  att_finalLayout : Z;
}.

Record VkSubpassDependency := mkDep {
  dep_srcSubpass : Z;
  dep_dstSubpass : Z;
  dep_srcStageMask : Z;
  dep_dstStageMask : Z;
  dep_srcAccessMask : Z;
  dep_dstAccessMask : Z;
}.

Definition zeroDep : VkSubpassDependency := mkDep 0 0 0 0 0 0.

Record VkRenderPassCreateInfo := mkRenderPassCreateInfo {
  rp_attachments : list VkAttachmentDescription;
  rp_colorReferenceLayout : Z;
  rp_depthReferenceLayout : Z;
  rp_dependencies : list VkSubpassDependency;
}.

Record VkImageMemoryBarrier := mkBarrier {
  b_image : handle;
  b_oldLayout : Z;
  b_newLayout : Z;
  b_srcAccessMask : Z;
  b_dstAccessMask : Z;
  b_aspectMask : Z;
}.

Inductive VkClearValue :=
  | ClearColorValue (float32 : list float)
  | ClearDepthStencilValue (depth : float) (stencil : Z).

(** One entry of the [VkClearAttachment] array of a [CLEAR] command; the
    depth and stencil values are only written for the aspects present. *)
Inductive VkClearAttachment :=
  | ClearColorAttachment (float32 : list float)
  | ClearDepthStencilAttachment (aspectMask : Z) (depth : option float) (stencil : option Z).

Inductive Call :=
  (* device objects *)
  | vkCreateRenderPass_call (info : VkRenderPassCreateInfo) (res : Z) (pass : handle)
  | vkCreateBuffer_call (size usage : Z) (buf : handle)
  | vkAllocateMemory_call (size typeIndex res : Z) (mem : handle)
  | vkDestroyBuffer_call (buf : handle)
  | vkBindBufferMemory_call (buf mem : handle)
  | QueueDeleteDeviceMemory (mem : handle)
  | QueueDeleteBuffer (buf : handle)
  | delete_step (p : ptr)
  (* logging *)
  | ELOG (msg : string)
  (* command buffer *)
  | vkCmdPipelineBarrier (srcStage dstStage : Z) (barriers : list VkImageMemoryBarrier)
  | TransitionImageLayout2 (img : handle) (aspect oldLayout newLayout
                            srcStage dstStage srcAccess dstAccess : Z)
  | vkCmdCopyImage (srcImage : handle) (srcLayout : Z) (dstImage : handle) (dstLayout : Z)
                   (aspect : Z) (srcOffset dstOffset : VkOffset2D) (ext : VkExtent2D)
  | vkCmdBlitImage (srcImage : handle) (srcLayout : Z) (dstImage : handle) (dstLayout : Z)
                   (aspect : Z) (srcRect dstRect : VkRect2D) (filter : Z)
  | vkCmdCopyImageToBuffer (img : handle) (imgLayout : Z) (buf : handle)
                           (aspect mipLevel : Z) (region : VkRect2D)
  | vkCmdBeginRenderPass (renderPass framebuffer : handle) (w h : Z)
                         (clearValues : list VkClearValue)
  | vkCmdEndRenderPass
  | vkCmdBindPipeline (pipeline : handle)
  | vkCmdSetViewport (vp : VkViewport)
  | vkCmdSetScissor (rc : VkRect2D)
  | vkCmdSetBlendConstants (bc : list float)
  | vkCmdPushConstants (a : PushArgs)
  | vkCmdSetStencilWriteMask (m : Z)
  | vkCmdSetStencilCompareMask (m : Z)
  | vkCmdSetStencilReference (r : Z)
  | vkCmdBindDescriptorSets (pipelineLayout ds : handle) (dynamicOffsetCount : Z)
                            (pDynamicOffsets : list Z)
  | vkCmdBindIndexBuffer (ibuffer : handle) (ioffset indexType : Z)
  | vkCmdBindVertexBuffers (vbuffer : handle) (voffset : Z)
  | vkCmdDrawIndexed (count instances : Z)
  | vkCmdDraw (count : Z)
  | vkCmdClearAttachments (attachments : list VkClearAttachment) (w h : Z)
  (* host access to the readback memory *)
  | vkMapMemory_call (mem : handle) (size res : Z)
  | vkInvalidateMappedMemoryRanges (mem : handle) (size : Z)
  | vkUnmapMemory (mem : handle).

(** ** The environment: build configuration, the device, foreign helpers

    [G] is the state of the Vulkan implementation.  The flags stand for the
    preprocessor configuration: [NDEBUG] compiles C [assert] out,
    [dbg_asserts] compiles [_dbg_assert_] and [_dbg_assert_msg_] in, and the
    two [USE_GENERAL_LAYOUT] flags are the [#ifdef]s of the same names.
    [_assert_] and [_assert_msg_] always stop the process.  Host memory is
    a map from byte offsets to bytes; [R8G8B8A8_UNORM], [B8G8R8A8_UNORM] and
    [D32F] are the values of these [Draw::DataFormat] enumerators, and
    [indeterminate] is what reading an uninitialized [VkFormat] yields. *)

Record Env {G : Type} := mkEnv {
  NDEBUG : bool;
  dbg_asserts : bool;
  USE_GENERAL_LAYOUT_FOR_COLOR : bool;
  USE_GENERAL_LAYOUT_FOR_DEPTH_STENCIL : bool;
  pun : Punning;
  vkCreateRenderPass : G → VkRenderPassCreateInfo → G * (Z * handle);
  vkCreateBuffer : G → Z → Z → G * handle;
  vkGetBufferMemoryRequirements : G → handle → Z * Z;
  MemoryTypeFromProperties : Z → Z → option Z;
  vkAllocateMemory : G → Z → Z → G * (Z * handle);
  vkMapMemory : G → handle → Z → Z * (Z → Z);
  driverVersion : Z;
  preferredDepthStencilFormat : Z;
  GetBackbufferWidth : Z;
  GetBackbufferHeight : Z;
  RotateViewportToDisplay : VkViewport → VkViewport;
  RotateRectToDisplay : VkRect2D → VkRect2D;
  Uint8x4ToFloat4 : Z → list float;
  DataFormatSizeInBytes : Z → Z;
  R8G8B8A8_UNORM : Z;
  B8G8R8A8_UNORM : Z;
  D32F : Z;
  ConvertFromRGBA8888 : (Z → Z) → (Z → Z) → Z → Z → Z → Z → Z → (Z → Z);
  ConvertFromBGRA8888 : (Z → Z) → (Z → Z) → Z → Z → Z → Z → Z → (Z → Z);
  ConvertToD32F : (Z → Z) → (Z → Z) → Z → Z → Z → Z → Z → (Z → Z);
  indeterminate : Z;
}.
Arguments Env : clear implicits.
Existing Class Env.

(** ** The queue runner and the world it runs in *)

Record QueueRunner := mkRunner {
  renderPasses_ : gmap RPKey handle;
  readbackMemory_ : handle;
  readbackBuffer_ : handle;
  readbackBufferSize_ : Z;
  readbackBufferIsCoherent_ : bool;
  hacksEnabled_ : Z;
  backbuffer_ : handle;
  backbufferImage_ : handle;
  backbufferRenderPass_ : handle;
}.

Record World (G : Type) := mkWorld {
  qr : QueueRunner;
  fbs : gmap ptr VKRFramebuffer;
  gpu : G;
  trace : list Call;
}.
Arguments mkWorld {G} _ _ _ _.
Arguments qr {G} _.
Arguments fbs {G} _.
Arguments gpu {G} _.
Arguments trace {G} _.

Definition emit {G} (c : Call) (w : World G) : World G :=
  mkWorld (qr w) (fbs w) (gpu w) (trace w ++ [c]).
Definition set_qr {G} (q : QueueRunner) (w : World G) : World G :=
  mkWorld q (fbs w) (gpu w) (trace w).
Definition set_gpu {G} (g : G) (w : World G) : World G :=
  mkWorld (qr w) (fbs w) g (trace w).
Definition set_fb {G} (p : ptr) (fb : VKRFramebuffer) (w : World G) : World G :=
  mkWorld (qr w) (<[p := fb]> (fbs w)) (gpu w) (trace w).

(** Writes to the members of [step.render]. *)
Definition Render_set_color (a : VKRRenderPassAction.t) (r : Render.t) : Render.t :=
  Render.mk (Render.framebuffer r) a (Render.depth r) (Render.stencil r)
            (Render.clearColor r) (Render.clearDepth r) (Render.clearStencil r)
            (Render.numDraws r) (Render.numReads r) (Render.finalColorLayout r).
Definition Render_set_depth (a : VKRRenderPassAction.t) (r : Render.t) : Render.t :=
  Render.mk (Render.framebuffer r) (Render.color r) a (Render.stencil r)
            (Render.clearColor r) (Render.clearDepth r) (Render.clearStencil r)
            (Render.numDraws r) (Render.numReads r) (Render.finalColorLayout r).
Definition Render_set_stencil (a : VKRRenderPassAction.t) (r : Render.t) : Render.t :=
  Render.mk (Render.framebuffer r) (Render.color r) (Render.depth r) a
            (Render.clearColor r) (Render.clearDepth r) (Render.clearStencil r)
            (Render.numDraws r) (Render.numReads r) (Render.finalColorLayout r).
Definition Render_set_clearColor (v : Z) (r : Render.t) : Render.t :=
  Render.mk (Render.framebuffer r) (Render.color r) (Render.depth r) (Render.stencil r)
            v (Render.clearDepth r) (Render.clearStencil r)
            (Render.numDraws r) (Render.numReads r) (Render.finalColorLayout r).
Definition Render_set_clearDepth (v : float) (r : Render.t) : Render.t :=
  Render.mk (Render.framebuffer r) (Render.color r) (Render.depth r) (Render.stencil r)
            (Render.clearColor r) v (Render.clearStencil r)
            (Render.numDraws r) (Render.numReads r) (Render.finalColorLayout r).
Definition Render_set_clearStencil (v : Z) (r : Render.t) : Render.t :=
  Render.mk (Render.framebuffer r) (Render.color r) (Render.depth r) (Render.stencil r)
            (Render.clearColor r) (Render.clearDepth r) v
            (Render.numDraws r) (Render.numReads r) (Render.finalColorLayout r).
Definition Render_set_finalColorLayout (v : Z) (r : Render.t) : Render.t :=
  Render.mk (Render.framebuffer r) (Render.color r) (Render.depth r) (Render.stencil r)
            (Render.clearColor r) (Render.clearDepth r) (Render.clearStencil r)
            (Render.numDraws r) (Render.numReads r) v.

Section QueueRunner.
Context {G : Type} {env : Env G}.

Import VKRStepType.

(** *** Reading the union of a step *)

Definition render (s : VKRStep) : Render.t :=
  match u s with U_render r => r | x => pun_render (pun env) x end.
Definition copy (s : VKRStep) : Copy.t :=
  match u s with U_copy c => c | x => pun_copy (pun env) x end.
Definition blit (s : VKRStep) : Blit.t :=
  match u s with U_blit b => b | x => pun_blit (pun env) x end.
Definition readback (s : VKRStep) : Readback.t :=
  match u s with U_readback r => r | x => pun_readback (pun env) x end.
Definition readback_image (s : VKRStep) : ReadbackImage.t :=
  match u s with U_readback_image r => r | x => pun_readback_image (pun env) x end.

(** [step.render.field = v]. *)
Definition set_render (f : Render.t → Render.t) (s : VKRStep) : VKRStep :=
  set_u (U_render (f (render s))) s.

(** [cmd.draw.count]. *)
Definition draw_count_of (c : VkRenderData) : Z :=
  match c with RdDraw a => draw_count a | x => pun_draw_count (pun env) x end.

(** *** The heap of step objects

    [steps[i]->f = v] becomes [upd (vec !!! i) (set_f v) h]. *)

Definition upd (p : ptr) (f : VKRStep → VKRStep) (h : gmap ptr VKRStep) : gmap ptr VKRStep :=
  <[p := f (h !!! p)]> h.

Definition is_type (t : VKRStepType.t) (s : VKRStep) : bool :=
  bool_decide (stepType s = t).

(** *** [RunSteps], lines 388-395: default the final color layout *)

Definition defaultFinalLayout (s : VKRStep) : VKRStep :=
  if is_type RENDER s
     && negb (Render.framebuffer (render s) =? nullptr)%N
     && (Render.finalColorLayout (render s) =? Vk.IMAGE_LAYOUT_UNDEFINED)
  then set_render (Render_set_finalColorLayout Vk.IMAGE_LAYOUT_COLOR_ATTACHMENT_OPTIMAL) s
  else s.

Definition defaultFinalLayouts (h : gmap ptr VKRStep) (vec : list ptr) : gmap ptr VKRStep :=
  foldl (λ h p, upd p defaultFinalLayout h) h vec.

(** *** [RunSteps], lines 397-434: push down empty clear passes *)

Definition isEmptyClear (s : VKRStep) : bool :=
  is_type RENDER s
  && (Render.numDraws (render s) =? 0)
  && (Render.numReads (render s) =? 0)
  && bool_decide (Render.color (render s) = VKRRenderPassAction.CLEAR)
  && bool_decide (Render.stencil (render s) = VKRRenderPassAction.CLEAR)
  && bool_decide (Render.depth (render s) = VKRRenderPassAction.CLEAR).

(** The body of the [if] at line 409: [pj] is [steps[j]], [pi] is [steps[i]]. *)
Definition foldClear (pj pi : ptr) (h : gmap ptr VKRStep) : gmap ptr VKRStep :=
  let h1 :=
    if bool_decide (Render.color (render (h !!! pi)) ≠ VKRRenderPassAction.CLEAR)
    then let h' := upd pi (set_render (Render_set_color VKRRenderPassAction.CLEAR)) h in
         upd pi (set_render (Render_set_clearColor (Render.clearColor (render (h' !!! pj))))) h'
    else h in
  let h2 :=
    if bool_decide (Render.depth (render (h1 !!! pi)) ≠ VKRRenderPassAction.CLEAR)
    then let h' := upd pi (set_render (Render_set_depth VKRRenderPassAction.CLEAR)) h1 in
         upd pi (set_render (Render_set_clearDepth (Render.clearDepth (render (h' !!! pj))))) h'
    else h1 in
  let h3 :=
    if bool_decide (Render.stencil (render (h2 !!! pi)) ≠ VKRRenderPassAction.CLEAR)
    then let h' := upd pi (set_render (Render_set_stencil VKRRenderPassAction.CLEAR)) h2 in
         upd pi (set_render (Render_set_clearStencil (Render.clearStencil (render (h' !!! pj))))) h'
    else h2 in
  upd pj (set_stepType RENDER_SKIP) h3.

(** The inner loop, [i] running over the steps after [steps[j]]. *)
Fixpoint clearScan (pj : ptr) (h : gmap ptr VKRStep) (rest : list ptr) : gmap ptr VKRStep :=
  match rest with
  | [] => h
  | pi :: rest' =>
      if is_type RENDER (h !!! pi)
         && (Render.framebuffer (render (h !!! pi)) =? Render.framebuffer (render (h !!! pj)))%N
      then foldClear pj pi h
      else if is_type COPY (h !!! pi)
              && (Copy.src (copy (h !!! pi)) =? Render.framebuffer (render (h !!! pj)))%N
      then h
      else clearScan pj h rest'
  end.

(** The outer loop: [j] stops one short of the end of the vector. *)
Fixpoint clearPass (h : gmap ptr VKRStep) (vec : list ptr) : gmap ptr VKRStep :=
  match vec with
  | [] => h
  | pj :: rest =>
      match rest with
      | [] => h
      | _ :: _ =>
          clearPass (if isEmptyClear (h !!! pj) then clearScan pj h rest else h) rest
      end
  end.

(** *** [ApplyRenderPassMerge] *)

Definition MaxFastSize : nat := 8.

(** [counts[steps[i]->render.framebuffer]++] over the render steps. *)
Definition countRenders (h : gmap ptr VKRStep) (vec : list ptr) : gmap ptr Z :=
  foldl (λ (counts : gmap ptr Z) p,
           if is_type RENDER (h !!! p)
           then let fb := Render.framebuffer (render (h !!! p)) in
                <[fb := default 0 (counts !! fb) + 1]> counts
           else counts) ∅ vec.

(** Lines 779-781: [steps[i]] slurps the pretransitions and commands of
    [steps[j]], which is marked skipped. *)
Definition absorb (pi pj : ptr) (h : gmap ptr VKRStep) : gmap ptr VKRStep :=
  let h1 := upd pi (λ s, set_preTransitions
                           (preTransitions s ++ preTransitions (h !!! pj)) s) h in
  let h2 := upd pi (λ s, set_commands (commands s ++ commands (h1 !!! pj)) s) h1 in
  upd pj (set_stepType RENDER_SKIP) h2.

(** The inner loop from [j = i + 1]; returning the heap is [goto done_fb]. *)
Fixpoint mergeScan (fb pi : ptr) (touchedFramebuffers : TinySet ptr)
    (h : gmap ptr VKRStep) (js : list ptr) : gmap ptr VKRStep :=
  match js with
  | [] => h
  | pj :: js' =>
      match stepType (h !!! pj) with
      | RENDER =>
          if TinySet.contains (dependencies (h !!! pj)) fb then h
          else if TinySet.containsSet (dependencies (h !!! pj)) touchedFramebuffers then h
          else
            let h1 :=
              if (Render.framebuffer (render (h !!! pj)) =? fb)%N
              then absorb pi pj h else h in
            let touched1 :=
              if negb (Render.framebuffer (render (h1 !!! pj)) =? fb)%N
              then TinySet.insert MaxFastSize touchedFramebuffers
                     (Render.framebuffer (render (h1 !!! pj)))
              else touchedFramebuffers in
            mergeScan fb pi touched1 h1 js'
      | COPY =>
          if (Copy.src (copy (h !!! pj)) =? fb)%N || (Copy.dst (copy (h !!! pj)) =? fb)%N
          then h
          else mergeScan fb pi
                 (TinySet.insert MaxFastSize touchedFramebuffers (Copy.dst (copy (h !!! pj))))
                 h js'
      | BLIT =>
          if (Blit.src (blit (h !!! pj)) =? fb)%N || (Blit.dst (blit (h !!! pj)) =? fb)%N
          then h
          else mergeScan fb pi
                 (TinySet.insert MaxFastSize touchedFramebuffers (Blit.dst (blit (h !!! pj))))
                 h js'
      | READBACK =>
          if (Readback.src (readback (h !!! pj)) =? fb)%N then h
          else mergeScan fb pi touchedFramebuffers h js'
      | _ => mergeScan fb pi touchedFramebuffers h js'
      end
  end.

Fixpoint mergeLoop (counts : gmap ptr Z) (h : gmap ptr VKRStep) (vec : list ptr)
    : gmap ptr VKRStep :=
  match vec with
  | [] => h
  | pi :: rest =>
      let fb := Render.framebuffer (render (h !!! pi)) in
      mergeLoop counts
        (if is_type RENDER (h !!! pi) && (1 <? default 0 (counts !! fb))
         then mergeScan fb pi TinySet.empty h rest
         else h)
        rest
  end.

Definition ApplyRenderPassMerge (h : gmap ptr VKRStep) (vec : list ptr) : gmap ptr VKRStep :=
  mergeLoop (countRenders h vec) h vec.

(** *** Helpers shared by the two workload-specific fusions *)

Definition stepAt (h : gmap ptr VKRStep) (vec : list ptr) (i : nat) : VKRStep :=
  h !!! (vec !!! i).

(** [for (k = 0; k < src->commands.size(); k++) if (keep) dst->commands.push_back(src->commands[k])].
    When [dst] and [src] are the same object and some command is kept, the
    vector grows as fast as it is read and the loop ends in [std::bad_alloc]. *)
Definition pushCommands (keep : VkRenderData → bool) (pdst psrc : ptr)
    (h : gmap ptr VKRStep) : Outcome (gmap ptr VKRStep) :=
  if bool_decide (pdst = psrc) && existsb keep (commands (h !!! psrc))
  then Stop OutOfMemory
  else Done (upd pdst (λ s, set_commands
                              (commands s ++ List.filter keep (commands (h !!! psrc))) s) h).

Fixpoint ofoldl {A B} (f : A → B → Outcome A) (a : A) (l : list B) : Outcome A :=
  match l with
  | [] => Done a
  | b :: l' => a' ←! f a b; ofoldl f a' l'
  end.

(** The steps [steps[i] .. steps[last]]. *)
Definition window (vec : list ptr) (i : nat) (last : Z) : list ptr :=
  take (Z.to_nat (last - Z.of_nat i + 1)) (drop i vec).

(** [for (j = 1; j < group.size(); j++)]: append the commands of
    [group[j]] to [steps[base]] and mark [steps[base + j]] skipped. *)
Definition combineGroup (vec group : list ptr) (base : nat) (h : gmap ptr VKRStep)
    : Outcome (gmap ptr VKRStep) :=
  ofoldl (λ h j,
            h1 ←! pushCommands (λ _, true) (vec !!! base) (group !!! j) h;
            Done (upd (vec !!! (base + j)%nat) (set_stepType RENDER_SKIP) h1))
         h (seq 1 (length group - 1)).

(** *** [ApplyMGSHack], first loop: copy,render(1),copy,render(1),... *)

Definition mgsCopyHead (h : gmap ptr VKRStep) (vec : list ptr) (i : nat) : bool :=
  is_type COPY (stepAt h vec i)
  && is_type RENDER (stepAt h vec (i + 1))
  && is_type COPY (stepAt h vec (i + 2))
  && (Render.numDraws (render (stepAt h vec (i + 1))) =? 1)
  && (Copy.dst (copy (stepAt h vec i)) =? Copy.dst (copy (stepAt h vec (i + 2))))%N.

(** The value of [last] that one iteration of the scan at index [j] sets
    ([-1] when it leaves it alone). *)
Definition mgsCopyStop (h : gmap ptr VKRStep) (vec : list ptr) (i : nat) (j : Z) (s : VKRStep) : Z :=
  match stepType s with
  | RENDER =>
      let last1 := if 1 <? Render.numDraws (render s) then j - 1 else -1 in
      match last (commands s) with
      | Some c =>
          if bool_decide (cmd c = VKRRenderCommand.DRAW_INDEXED)
             && negb (draw_count_of c =? 6)
          then j - 1 else last1
      | None => last1
      end
  | COPY =>
      if negb (Copy.dst (copy s) =? Copy.dst (copy (stepAt h vec i)))%N then j - 1 else -1
  | _ => -1
  end.

Fixpoint mgsCopyFindLast (h : gmap ptr VKRStep) (vec : list ptr) (i : nat) (j : Z)
    (rest : list ptr) : Z :=
  match rest with
  | [] => -1
  | pj :: rest' =>
      let l := mgsCopyStop h vec i j (h !!! pj) in
      if negb (l =? -1) then l else mgsCopyFindLast h vec i (j + 1) rest'
  end.

Definition mgsCopyRewrite (h : gmap ptr VKRStep) (vec : list ptr) (i : nat) (last : Z)
    : Outcome (list ptr * gmap ptr VKRStep) :=
  let copies := List.filter (λ p, is_type COPY (h !!! p)) (window vec i last) in
  let renders := List.filter (λ p, is_type RENDER (h !!! p)) (window vec i last) in
  let vec1 := list_inserts i copies vec in
  let vec2 := list_inserts (i + length copies) renders vec1 in
  _ ←! check (negb (NDEBUG env))
         (is_type RENDER (stepAt h vec2 (i + length copies)))
         "steps[i + copies.size()]->stepType == VKRStepType::RENDER";
  h' ←! combineGroup vec2 renders (i + length copies) h;
  Done (vec2, h').

Fixpoint mgsCopyLoop (n i : nat) (vec : list ptr) (h : gmap ptr VKRStep)
    : Outcome (list ptr * gmap ptr VKRStep) :=
  match n with
  | O => Done (vec, h)
  | S n' =>
      if mgsCopyHead h vec i then
        let last := mgsCopyFindLast h vec i (Z.of_nat i) (drop i vec) in
        if negb (last =? -1) then mgsCopyRewrite h vec i last
        else mgsCopyLoop n' (S i) vec h
      else mgsCopyLoop n' (S i) vec h
  end.

(** *** [ApplyMGSHack], second loop: the depal post-processing chain *)

Definition mgsDepalHead (h : gmap ptr VKRStep) (vec : list ptr) (i : nat) : bool :=
  is_type RENDER (stepAt h vec i)
  && is_type RENDER (stepAt h vec (i + 1))
  && is_type RENDER (stepAt h vec (i + 2))
  && (Render.numDraws (render (stepAt h vec i)) =? 1)
  && (Render.numDraws (render (stepAt h vec (i + 1))) =? 1)
  && (Render.numDraws (render (stepAt h vec (i + 2))) =? 1)
  && bool_decide (Render.color (render (stepAt h vec i)) = VKRRenderPassAction.DONT_CARE)
  && bool_decide (Render.color (render (stepAt h vec (i + 1))) = VKRRenderPassAction.KEEP)
  && bool_decide (Render.color (render (stepAt h vec (i + 2))) = VKRRenderPassAction.DONT_CARE).

(** [size_t] is 64 bits wide. *)
Definition size_t_wrap (z : Z) : Z := z mod 2 ^ 64.

(** [int] is 32 bits wide: the [int] that a conversion of [z] yields, and
    the value of an [int] expression whose mathematical value is [z] (signed
    overflow is taken to wrap, as it does on the two's-complement targets). *)
Definition int_wrap (z : Z) : Z := (z + 2 ^ 31) mod 2 ^ 32 - 2 ^ 31.

(** Conversion to [uint32_t]. *)
Definition uint32_wrap (z : Z) : Z := z mod 2 ^ 32.

(** [for (int j = i; j < steps.size() - 3; j++)], [n] iterations left. *)
Fixpoint mgsDepalScan (h : gmap ptr VKRStep) (vec : list ptr) (i : nat)
    (depalFramebuffer targetFramebuffer : ptr) (n : nat) (j : nat) (last : Z) : Z :=
  match n with
  | O => last
  | S n' =>
      let r := render (stepAt h vec j) in
      if Z.land (Z.of_nat j - Z.of_nat i) 1 =? 0 then
        if negb (Render.numDraws r =? 1) then last
        else if bool_decide (Render.color r ≠ VKRRenderPassAction.DONT_CARE) then last
        else if negb (Render.framebuffer r =? depalFramebuffer)%N then last
        else mgsDepalScan h vec i depalFramebuffer targetFramebuffer n' (S j) (Z.of_nat j)
      else
        if negb (Render.numDraws r =? 1) then last
        else if bool_decide (Render.color r ≠ VKRRenderPassAction.KEEP) then last
        else if negb (Render.framebuffer r =? targetFramebuffer)%N then last
        else mgsDepalScan h vec i depalFramebuffer targetFramebuffer n' (S j) (Z.of_nat j)
  end.

Definition isDraw (c : VkRenderData) : bool :=
  match cmd c with
  | VKRRenderCommand.DRAW | VKRRenderCommand.DRAW_INDEXED => true
  | _ => false
  end.

(** The indices [start, start + 2, ...] that are [<= limit]. *)
Definition everyOther (start : nat) (limit : Z) : list nat :=
  if limit <? Z.of_nat start then []
  else map (λ k, (start + 2 * k)%nat) (seq 0 (Z.to_nat ((limit - Z.of_nat start) / 2 + 1))).

(** [for (j = start; j <= limit; j += 2)]: the draws of [steps[j]] go to
    [steps[into]] and [steps[j]] is marked skipped. *)
Definition mgsDepalCombine (vec : list ptr) (into start : nat) (limit : Z)
    (h : gmap ptr VKRStep) : Outcome (gmap ptr VKRStep) :=
  ofoldl (λ h j,
            h1 ←! pushCommands isDraw (vec !!! into) (vec !!! j) h;
            Done (upd (vec !!! j) (set_stepType RENDER_SKIP) h1))
         h (everyOther start limit).

Fixpoint mgsDepalLoop (n i : nat) (vec : list ptr) (h : gmap ptr VKRStep)
    : Outcome (gmap ptr VKRStep) :=
  match n with
  | O => Done h
  | S n' =>
      if mgsDepalHead h vec i then
        let depalFramebuffer := Render.framebuffer (render (stepAt h vec i)) in
        let targetFramebuffer := Render.framebuffer (render (stepAt h vec (i + 1))) in
        let bound := size_t_wrap (Z.of_nat (length vec) - 3) in
        let last := mgsDepalScan h vec i depalFramebuffer targetFramebuffer
                      (Z.to_nat (bound - Z.of_nat i)) i (-1) in
        if last =? -1 then mgsDepalLoop n' (S i) vec h
        else
          h1 ←! mgsDepalCombine vec i (i + 2) (last + 1) h;
          mgsDepalCombine vec (i + 1) (i + 3) last h1
      else mgsDepalLoop n' (S i) vec h
  end.

Definition ApplyMGSHack (vec : list ptr) (h : gmap ptr VKRStep)
    : Outcome (list ptr * gmap ptr VKRStep) :=
  st ←! mgsCopyLoop (Z.to_nat (Z.of_nat (length vec) - 3)) 0 vec h;
  h' ←! mgsDepalLoop (Z.to_nat (Z.of_nat (length st.1) - 3)) 0 st.1 st.2;
  Done (st.1, h').

(** *** [ApplySonicHack] *)

Definition sonicHead (h : gmap ptr VKRStep) (vec : list ptr) (i : nat) : bool :=
  is_type RENDER (stepAt h vec i)
  && is_type RENDER (stepAt h vec (i + 1))
  && is_type RENDER (stepAt h vec (i + 2))
  && is_type RENDER (stepAt h vec (i + 3))
  && (Render.numDraws (render (stepAt h vec i)) =? 3)
  && (Render.numDraws (render (stepAt h vec (i + 1))) =? 1)
  && (Render.numDraws (render (stepAt h vec (i + 2))) =? 6)
  && (Render.numDraws (render (stepAt h vec (i + 3))) =? 1)
  && (Render.framebuffer (render (stepAt h vec i))
      =? Render.framebuffer (render (stepAt h vec (i + 2))))%N
  && (Render.framebuffer (render (stepAt h vec (i + 1)))
      =? Render.framebuffer (render (stepAt h vec (i + 3))))%N.

Definition sonicStop (h : gmap ptr VKRStep) (vec : list ptr) (i : nat) (j : Z) (s : VKRStep) : Z :=
  match stepType s with
  | RENDER =>
      if negb (Z.land (j - Z.of_nat i) 1 =? 0) then
        let last1 :=
          if negb (Render.framebuffer (render s)
                   =? Render.framebuffer (render (stepAt h vec (i + 1))))%N
          then j - 1 else -1 in
        if negb (Render.numDraws (render s) =? 1) then j - 1 else last1
      else
        let last1 :=
          if negb (Render.framebuffer (render s)
                   =? Render.framebuffer (render (stepAt h vec i)))%N
          then j - 1 else -1 in
        if negb (Render.numDraws (render s) =? 3) && negb (Render.numDraws (render s) =? 6)
        then j - 1 else last1
  | _ => -1
  end.

Fixpoint sonicFindLast (h : gmap ptr VKRStep) (vec : list ptr) (i : nat) (j : Z)
    (rest : list ptr) : Z :=
  match rest with
  | [] => -1
  | pj :: rest' =>
      let l := sonicStop h vec i j (h !!! pj) in
      if negb (l =? -1) then l else sonicFindLast h vec i (j + 1) rest'
  end.

Definition sonicRewrite (h : gmap ptr VKRStep) (vec : list ptr) (i : nat) (last : Z)
    : Outcome (list ptr * gmap ptr VKRStep) :=
  let same p := (Render.framebuffer (render (h !!! p))
                 =? Render.framebuffer (render (stepAt h vec i)))%N in
  let type1 := List.filter same (window vec i last) in
  let type2 := List.filter (λ p, negb (same p)) (window vec i last) in
  let vec1 := list_inserts i type1 vec in
  let vec2 := list_inserts (i + length type1) type2 vec1 in
  h1 ←! combineGroup vec2 type1 i h;
  h2 ←! combineGroup vec2 type2 (i + length type1) h1;
  Done (vec2, h2).

Fixpoint sonicLoop (n i : nat) (vec : list ptr) (h : gmap ptr VKRStep)
    : Outcome (list ptr * gmap ptr VKRStep) :=
  match n with
  | O => Done (vec, h)
  | S n' =>
      if sonicHead h vec i then
        let last := sonicFindLast h vec i (Z.of_nat i) (drop i vec) in
        if negb (last =? -1) then sonicRewrite h vec i last
        else sonicLoop n' (S i) vec h
      else sonicLoop n' (S i) vec h
  end.

Definition ApplySonicHack (vec : list ptr) (h : gmap ptr VKRStep)
    : Outcome (list ptr * gmap ptr VKRStep) :=
  sonicLoop (Z.to_nat (Z.of_nat (length vec) - 4)) 0 vec h.

(** *** [RunSteps], lines 436-448: the queue hacks *)

Definition applyQueueHacks (hacksEnabled : Z) (vec : list ptr) (h : gmap ptr VKRStep)
    : Outcome (list ptr * gmap ptr VKRStep) :=
  if negb (hacksEnabled =? 0) then
    st1 ←! (if has_bits hacksEnabled QUEUE_HACK_MGS2_ACID
            then ApplyMGSHack vec h else Done (vec, h));
    st2 ←! (if has_bits hacksEnabled QUEUE_HACK_SONIC
            then ApplySonicHack st1.1 st1.2 else Done st1);
    Done (if has_bits hacksEnabled QUEUE_HACK_RENDERPASS_MERGE
          then (st2.1, ApplyRenderPassMerge st2.2 st2.1) else st2)
  else Done (vec, h).

(** *** [GetRenderPass]

    [renderPasses_] is a [DenseHashMap<RPKey, VkRenderPass, VK_NULL_HANDLE>]
    of [Common/Hashmaps.h]. *)

(** Modelled from the spec: [DenseHashMap::Get] and [DenseHashMap::Insert]
    ([Common/Hashmaps.h] is not part of the sources at hand).  The cache
    "memoizes hardware render pass objects by a key"; [Get] yields the null
    value for a key that was never inserted. *)
Definition DenseHashMap_Get (m : gmap RPKey handle) (key : RPKey) : handle :=
  default VK_NULL_HANDLE (m !! key).
Definition DenseHashMap_Insert (m : gmap RPKey handle) (key : RPKey) (v : handle)
    : gmap RPKey handle :=
  <[key := v]> m.

Definition set_renderPasses (m : gmap RPKey handle) (q : QueueRunner) : QueueRunner :=
  mkRunner m (readbackMemory_ q) (readbackBuffer_ q) (readbackBufferSize_ q)
           (readbackBufferIsCoherent_ q) (hacksEnabled_ q) (backbuffer_ q)
           (backbufferImage_ q) (backbufferRenderPass_ q).

Definition loadOp (a : VKRRenderPassAction.t) : Z :=
  match a with
  | VKRRenderPassAction.CLEAR => Vk.ATTACHMENT_LOAD_OP_CLEAR
  | VKRRenderPassAction.KEEP => Vk.ATTACHMENT_LOAD_OP_LOAD
  | VKRRenderPassAction.DONT_CARE => Vk.ATTACHMENT_LOAD_OP_DONT_CARE
  end.

(** The two [switch]es on the previous layouts: the source access and
    stage bits or-ed into [deps[numDeps]]; [None] is the [default:] case. *)
Definition prevColorBits (l : Z) : option (Z * Z) :=
  if l =? Vk.IMAGE_LAYOUT_UNDEFINED then Some (0, 0)
  else if l =? Vk.IMAGE_LAYOUT_COLOR_ATTACHMENT_OPTIMAL then Some (0, 0)
  else if l =? Vk.IMAGE_LAYOUT_GENERAL
  then Some (Vk.ACCESS_COLOR_ATTACHMENT_WRITE_BIT, Vk.PIPELINE_STAGE_COLOR_ATTACHMENT_OUTPUT_BIT)
  else if l =? Vk.IMAGE_LAYOUT_SHADER_READ_ONLY_OPTIMAL
  then Some (Vk.ACCESS_SHADER_READ_BIT, Vk.PIPELINE_STAGE_FRAGMENT_SHADER_BIT)
  else if l =? Vk.IMAGE_LAYOUT_TRANSFER_DST_OPTIMAL
  then Some (Vk.ACCESS_TRANSFER_WRITE_BIT, Vk.PIPELINE_STAGE_TRANSFER_BIT)
  else if l =? Vk.IMAGE_LAYOUT_TRANSFER_SRC_OPTIMAL
  then Some (Vk.ACCESS_TRANSFER_READ_BIT, Vk.PIPELINE_STAGE_TRANSFER_BIT)
  else None.

Definition prevDepthBits (l : Z) : option (Z * Z) :=
  if l =? Vk.IMAGE_LAYOUT_UNDEFINED then Some (0, 0)
  else if l =? Vk.IMAGE_LAYOUT_DEPTH_STENCIL_ATTACHMENT_OPTIMAL then Some (0, 0)
  else if l =? Vk.IMAGE_LAYOUT_SHADER_READ_ONLY_OPTIMAL
  then Some (Vk.ACCESS_SHADER_READ_BIT, Vk.PIPELINE_STAGE_FRAGMENT_SHADER_BIT)
  else if l =? Vk.IMAGE_LAYOUT_TRANSFER_SRC_OPTIMAL
  then Some (Vk.ACCESS_TRANSFER_READ_BIT, Vk.PIPELINE_STAGE_TRANSFER_BIT)
  else if l =? Vk.IMAGE_LAYOUT_TRANSFER_DST_OPTIMAL
  then Some (Vk.ACCESS_TRANSFER_WRITE_BIT, Vk.PIPELINE_STAGE_TRANSFER_BIT)
  else None.

(** The [switch] on the final color layout: destination access and stage. *)
Definition finalColorBits (l : Z) : option (Z * Z) :=
  if l =? Vk.IMAGE_LAYOUT_SHADER_READ_ONLY_OPTIMAL
  then Some (Vk.ACCESS_SHADER_READ_BIT, Vk.PIPELINE_STAGE_FRAGMENT_SHADER_BIT)
  else if l =? Vk.IMAGE_LAYOUT_TRANSFER_SRC_OPTIMAL
  then Some (Vk.ACCESS_TRANSFER_READ_BIT, Vk.PIPELINE_STAGE_TRANSFER_BIT)
  else if l =? Vk.IMAGE_LAYOUT_TRANSFER_DST_OPTIMAL
  then Some (Vk.ACCESS_TRANSFER_READ_BIT, Vk.PIPELINE_STAGE_TRANSFER_BIT)
  else if l =? Vk.IMAGE_LAYOUT_UNDEFINED then Some (0, 0)
  else if l =? Vk.IMAGE_LAYOUT_COLOR_ATTACHMENT_OPTIMAL then Some (0, 0)
  else None.

(** [_dbg_assert_msg_(G3D, false, ...)] in a [default:] case. *)
Definition switchBits (bits : option (Z * Z)) (what : string) : Outcome (Z * Z) :=
  match bits with
  | Some b => Done b
  | None => _ ←! check (dbg_asserts env) false what; Done (0, 0)
  end.

Definition renderPassCreateInfo (key : RPKey) : Outcome VkRenderPassCreateInfo :=
  let att0 :=
    mkAttachment Vk.FORMAT_R8G8B8A8_UNORM (loadOp (colorLoadAction key))
      Vk.ATTACHMENT_STORE_OP_STORE
      Vk.ATTACHMENT_LOAD_OP_DONT_CARE Vk.ATTACHMENT_STORE_OP_DONT_CARE
      (if USE_GENERAL_LAYOUT_FOR_COLOR env then Vk.IMAGE_LAYOUT_GENERAL
       else prevColorLayout key)
      (if USE_GENERAL_LAYOUT_FOR_COLOR env then Vk.IMAGE_LAYOUT_GENERAL
       else finalColorLayout key) in
  let att1 :=
    mkAttachment (preferredDepthStencilFormat env) (loadOp (depthLoadAction key))
      Vk.ATTACHMENT_STORE_OP_STORE
      (loadOp (stencilLoadAction key)) Vk.ATTACHMENT_STORE_OP_STORE
      (if USE_GENERAL_LAYOUT_FOR_DEPTH_STENCIL env then Vk.IMAGE_LAYOUT_GENERAL
       else prevDepthLayout key)
      (if USE_GENERAL_LAYOUT_FOR_DEPTH_STENCIL env then Vk.IMAGE_LAYOUT_GENERAL
       else Vk.IMAGE_LAYOUT_DEPTH_STENCIL_ATTACHMENT_OPTIMAL) in
  c ←! switchBits (prevColorBits (prevColorLayout key))
         "GetRenderPass: Unexpected color layout";
  d ←! switchBits (prevDepthBits (prevDepthLayout key))
         "PerformBindRT: Unexpected depth layout";
  let srcAccessMask := Z.lor (Z.lor 0 c.1) d.1 in
  let srcStageMask := Z.lor (Z.lor 0 c.2) d.2 in
  let deps1 :=
    if negb (srcAccessMask =? 0)
    then [mkDep Vk.SUBPASS_EXTERNAL 0 srcStageMask
            (Z.lor (Z.lor Vk.PIPELINE_STAGE_COLOR_ATTACHMENT_OUTPUT_BIT
                          Vk.PIPELINE_STAGE_EARLY_FRAGMENT_TESTS_BIT)
                   Vk.PIPELINE_STAGE_LATE_FRAGMENT_TESTS_BIT)
            srcAccessMask
            (Z.lor (Z.lor (Z.lor Vk.ACCESS_DEPTH_STENCIL_ATTACHMENT_WRITE_BIT
                                 Vk.ACCESS_DEPTH_STENCIL_ATTACHMENT_READ_BIT)
                          Vk.ACCESS_COLOR_ATTACHMENT_READ_BIT)
                   Vk.ACCESS_COLOR_ATTACHMENT_WRITE_BIT)]
    else [] in
  (* When the first dependency was not committed, [deps[numDeps]] still
     carries the stage bits or-ed in above (none, as the access bits are 0). *)
  f ←! switchBits (finalColorBits (finalColorLayout key))
         "GetRenderPass: Unexpected final color layout";
  let deps2 :=
    if negb (f.1 =? 0)
    then [mkDep 0 Vk.SUBPASS_EXTERNAL Vk.PIPELINE_STAGE_COLOR_ATTACHMENT_OUTPUT_BIT f.2
            Vk.ACCESS_COLOR_ATTACHMENT_WRITE_BIT f.1]
    else [] in
  Done (mkRenderPassCreateInfo [att0; att1]
          Vk.IMAGE_LAYOUT_COLOR_ATTACHMENT_OPTIMAL
          Vk.IMAGE_LAYOUT_DEPTH_STENCIL_ATTACHMENT_OPTIMAL
          (deps1 ++ deps2)).

Definition GetRenderPass (key : RPKey) (w : World G) : Outcome (handle * World G) :=
  let pass := DenseHashMap_Get (renderPasses_ (qr w)) key in
  if negb (pass =? VK_NULL_HANDLE)%N then Done (pass, w)
  else
    rp ←! renderPassCreateInfo key;
    let r := vkCreateRenderPass env (gpu w) rp in
    let w1 := emit (vkCreateRenderPass_call rp r.2.1 r.2.2) (set_gpu r.1 w) in
    _ ←! check true (r.2.1 =? Vk.SUCCESS) "res == VK_SUCCESS";
    _ ←! check true (negb (r.2.2 =? VK_NULL_HANDLE)%N) "pass != VK_NULL_HANDLE";
    Done (r.2.2,
          set_qr (set_renderPasses (DenseHashMap_Insert (renderPasses_ (qr w1)) key r.2.2)
                    (qr w1)) w1).

(** *** Framebuffer objects behind pointers *)

Definition fbAt (w : World G) (p : ptr) : VKRFramebuffer := fbs w !!! p.

Inductive Attachment := ColorImage | DepthImage.

Definition imageOf (a : Attachment) (fb : VKRFramebuffer) : VKRImage :=
  match a with ColorImage => fb_color fb | DepthImage => fb_depth fb end.
Definition set_imageOf (a : Attachment) (img : VKRImage) (fb : VKRFramebuffer) : VKRFramebuffer :=
  match a with ColorImage => set_fb_color img fb | DepthImage => set_fb_depth img fb end.

(** [fb->color.layout = l] and [fb->depth.layout = l]. *)
Definition set_imageLayout (p : ptr) (a : Attachment) (l : Z) (w : World G) : World G :=
  set_fb p (set_imageOf a (set_layout l (imageOf a (fbAt w p))) (fbAt w p)) w.

(** *** [PerformBindFramebufferAsRenderTarget] *)

(** The condition of the [_dbg_assert_] at line 1142. *)
Definition finalLayoutAssertion : string :=
  "step.render.finalColorLayout != VK_IMAGE_LAYOUT_UNDEFINED".

Definition PerformBindFramebufferAsRenderTarget (step : VKRStep) (w : World G)
    : Outcome (World G) :=
  let r := render step in
  if negb (Render.framebuffer r =? nullptr)%N then
    _ ←! check (dbg_asserts env)
           (negb (Render.finalColorLayout r =? Vk.IMAGE_LAYOUT_UNDEFINED))
           finalLayoutAssertion;
    let fb := Render.framebuffer r in
    let maliBugWorkaround :=
      (Render.numDraws r =? 0)
      && bool_decide (Render.color r = VKRRenderPassAction.CLEAR)
      && (driverVersion env =? 0xaa9c4b29) in
    let w1 :=
      if maliBugWorkaround then
        set_imageLayout fb ColorImage Vk.IMAGE_LAYOUT_GENERAL
          (emit (TransitionImageLayout2 (image (fb_color (fbAt w fb)))
                   Vk.IMAGE_ASPECT_COLOR_BIT
                   (layout (fb_color (fbAt w fb))) Vk.IMAGE_LAYOUT_GENERAL
                   Vk.PIPELINE_STAGE_COLOR_ATTACHMENT_OUTPUT_BIT
                   Vk.PIPELINE_STAGE_COLOR_ATTACHMENT_OUTPUT_BIT
                   (Z.lor Vk.ACCESS_COLOR_ATTACHMENT_READ_BIT Vk.ACCESS_COLOR_ATTACHMENT_WRITE_BIT)
                   (Z.lor Vk.ACCESS_COLOR_ATTACHMENT_READ_BIT Vk.ACCESS_COLOR_ATTACHMENT_WRITE_BIT))
             w)
      else w in
    rp ←! GetRenderPass
            (mkRPKey (Render.color r) (Render.depth r) (Render.stencil r)
                     (layout (fb_color (fbAt w1 fb))) (layout (fb_depth (fbAt w1 fb)))
                     (Render.finalColorLayout r)) w1;
    let w2 := set_imageLayout fb ColorImage Vk.IMAGE_LAYOUT_COLOR_ATTACHMENT_OPTIMAL rp.2 in
    let w3 := set_imageLayout fb DepthImage Vk.IMAGE_LAYOUT_DEPTH_STENCIL_ATTACHMENT_OPTIMAL w2 in
    let clearVal0 :=
      if bool_decide (Render.color r = VKRRenderPassAction.CLEAR)
      then ClearColorValue (Uint8x4ToFloat4 env (Render.clearColor r))
      else ClearColorValue [0; 0; 0; 0] in
    let clearVals :=
      if bool_decide (Render.depth r = VKRRenderPassAction.CLEAR)
         || bool_decide (Render.stencil r = VKRRenderPassAction.CLEAR)
      then [clearVal0;
            ClearDepthStencilValue (Render.clearDepth r) (uint32_wrap (Render.clearStencil r))]
      else if bool_decide (Render.color r = VKRRenderPassAction.CLEAR) then [clearVal0]
      else [] in
    Done (emit (vkCmdBeginRenderPass rp.1 (framebuf (fbAt w3 fb))
                  (uint32_wrap (width (fbAt w3 fb))) (uint32_wrap (height (fbAt w3 fb)))
                  clearVals) w3)
  else
    Done (emit (vkCmdBeginRenderPass (backbufferRenderPass_ (qr w)) (backbuffer_ (qr w))
                  (uint32_wrap (GetBackbufferWidth env)) (uint32_wrap (GetBackbufferHeight env))
                  [ClearColorValue (Uint8x4ToFloat4 env (Render.clearColor r));
                   ClearDepthStencilValue 0 0]) w).

(** *** [PerformRenderPass] *)

(** The source access mask and stage of a pretransition; [None] is the
    [default:] case with its [_assert_msg_]. *)
Definition preTransitionSrc (oldLayout : Z) : option (Z * Z) :=
  if oldLayout =? Vk.IMAGE_LAYOUT_COLOR_ATTACHMENT_OPTIMAL
  then Some (Z.lor Vk.ACCESS_COLOR_ATTACHMENT_WRITE_BIT Vk.ACCESS_COLOR_ATTACHMENT_READ_BIT,
             Vk.PIPELINE_STAGE_COLOR_ATTACHMENT_OUTPUT_BIT)
  else if oldLayout =? Vk.IMAGE_LAYOUT_UNDEFINED
  then Some (Z.lor Vk.ACCESS_COLOR_ATTACHMENT_WRITE_BIT Vk.ACCESS_COLOR_ATTACHMENT_READ_BIT,
             Vk.PIPELINE_STAGE_COLOR_ATTACHMENT_OUTPUT_BIT)
  else if oldLayout =? Vk.IMAGE_LAYOUT_TRANSFER_DST_OPTIMAL
  then Some (Vk.ACCESS_TRANSFER_WRITE_BIT, Vk.PIPELINE_STAGE_TRANSFER_BIT)
  else if oldLayout =? Vk.IMAGE_LAYOUT_TRANSFER_SRC_OPTIMAL
  then Some (Vk.ACCESS_TRANSFER_READ_BIT, Vk.PIPELINE_STAGE_TRANSFER_BIT)
  else None.

Definition preTransitionDst (newLayout : Z) : option (Z * Z) :=
  if newLayout =? Vk.IMAGE_LAYOUT_SHADER_READ_ONLY_OPTIMAL
  then Some (Vk.ACCESS_SHADER_READ_BIT, Vk.PIPELINE_STAGE_FRAGMENT_SHADER_BIT)
  else None.

Definition assertBits (bits : option (Z * Z)) (what : string) : Outcome (Z * Z) :=
  match bits with
  | Some b => Done b
  | None => Stop (AssertFailed what)
  end.

(** One round of the loop over [step.preTransitions]. *)
Definition preTransition (w : World G) (iter : TransitionRequest) : Outcome (World G) :=
  let img := fb_color (fbAt w (tr_fb iter)) in
  if negb (layout img =? tr_targetLayout iter) then
    s ←! assertBits (preTransitionSrc (layout img)) "PerformRenderPass: Unexpected oldLayout";
    d ←! assertBits (preTransitionDst (tr_targetLayout iter))
           "PerformRenderPass: Unexpected newLayout";
    Done (set_imageLayout (tr_fb iter) ColorImage (tr_targetLayout iter)
            (emit (vkCmdPipelineBarrier s.2 d.2
                     [mkBarrier (image img) (layout img) (tr_targetLayout iter)
                        s.1 d.1 Vk.IMAGE_ASPECT_COLOR_BIT]) w))
  else Done w.

(** The redundant-state tracking of the command replay. *)
Record ReplayState := mkReplay {
  lastPipeline : handle;
  lastStencilWriteMask : Z;
  lastStencilCompareMask : Z;
  lastStencilReference : Z;
}.

Definition emits (cs : list Call) (w : World G) : World G :=
  mkWorld (qr w) (fbs w) (gpu w) (trace w ++ cs).

(** The condition of the [_dbg_assert_]s at lines 1038 and 1039. *)
Definition rotatedXAssertion : string := "rotated_rc.x >= 0".
Definition rotatedYAssertion : string := "rotated_rc.y >= 0".

(** One round of the loop over [step.commands].  [RotateRectToDisplay] is
    applied to the [DisplayRect<int>] built from the scissor rectangle, held
    here as offset and extent. *)
Definition replayCommand (fb : ptr) (curWidth curHeight : Z)
    (st : ReplayState * World G) (c : VkRenderData) : Outcome (ReplayState * World G) :=
  let rs := st.1 in
  let w := st.2 in
  match c with
  | RdRemoved => Done st
  | RdBindPipeline p =>
      if negb (p =? lastPipeline rs)%N
      then Done (mkReplay p (-1) (-1) (-1), emit (vkCmdBindPipeline p) w)
      else Done st
  | RdViewport vp =>
      if negb (fb =? nullptr)%N then Done (rs, emit (vkCmdSetViewport vp) w)
      else Done (rs, emit (vkCmdSetViewport (RotateViewportToDisplay env vp)) w)
  | RdScissor rc =>
      if negb (fb =? nullptr)%N then Done (rs, emit (vkCmdSetScissor rc) w)
      else
        let rotated_rc :=
          RotateRectToDisplay env
            (mkRect2D (offset rc)
               (mkExtent2D (int_wrap (ext_width (extent rc)))
                           (int_wrap (ext_height (extent rc))))) in
        _ ←! check (dbg_asserts env) (0 <=? off_x (offset rotated_rc)) rotatedXAssertion;
        _ ←! check (dbg_asserts env) (0 <=? off_y (offset rotated_rc)) rotatedYAssertion;
        Done (rs, emit (vkCmdSetScissor
                          (mkRect2D (offset rotated_rc)
                             (mkExtent2D (uint32_wrap (ext_width (extent rotated_rc)))
                                         (uint32_wrap (ext_height (extent rotated_rc)))))) w)
  | RdBlend color =>
      Done (rs, emit (vkCmdSetBlendConstants (Uint8x4ToFloat4 env color)) w)
  | RdPushConstants a => Done (rs, emit (vkCmdPushConstants a) w)
  | RdStencil a =>
      let wm := negb (lastStencilWriteMask rs =? stencilWriteMask a) in
      let cm := negb (lastStencilCompareMask rs =? stencilCompareMask a) in
      let rf := negb (lastStencilReference rs =? stencilRef a) in
      Done (mkReplay (lastPipeline rs)
              (if wm then stencilWriteMask a else lastStencilWriteMask rs)
              (if cm then stencilCompareMask a else lastStencilCompareMask rs)
              (if rf then stencilRef a else lastStencilReference rs),
            emits ((if wm then [vkCmdSetStencilWriteMask (stencilWriteMask a)] else [])
                   ++ (if cm then [vkCmdSetStencilCompareMask (stencilCompareMask a)] else [])
                   ++ (if rf then [vkCmdSetStencilReference (stencilRef a)] else [])) w)
  | RdDrawIndexed a =>
      Done (rs, emits [vkCmdBindDescriptorSets (di_pipelineLayout a) (di_ds a)
                         (uint32_wrap (di_numUboOffsets a)) (di_uboOffsets a);
                       vkCmdBindIndexBuffer (di_ibuffer a) (di_ioffset a) (di_indexType a);
                       vkCmdBindVertexBuffers (di_vbuffer a) (di_voffset a);
                       vkCmdDrawIndexed (di_count a) (uint32_wrap (di_instances a))] w)
  | RdDraw a =>
      Done (rs, emits ([vkCmdBindDescriptorSets (draw_pipelineLayout a) (draw_ds a)
                          (uint32_wrap (draw_numUboOffsets a)) (draw_uboOffsets a)]
                       ++ (if negb (draw_vbuffer a =? VK_NULL_HANDLE)%N
                           then [vkCmdBindVertexBuffers (draw_vbuffer a) (draw_voffset a)]
                           else [])
                       ++ [vkCmdDraw (draw_count a)]) w)
  | RdClear a =>
      let attachments :=
        (if has_bits (clr_clearMask a) Vk.IMAGE_ASPECT_COLOR_BIT
         then [ClearColorAttachment (Uint8x4ToFloat4 env (clr_clearColor a))] else [])
        ++ (if has_bits (clr_clearMask a)
                 (Z.lor Vk.IMAGE_ASPECT_DEPTH_BIT Vk.IMAGE_ASPECT_STENCIL_BIT)
            then [ClearDepthStencilAttachment
                    (Z.lor (if has_bits (clr_clearMask a) Vk.IMAGE_ASPECT_DEPTH_BIT
                            then Vk.IMAGE_ASPECT_DEPTH_BIT else 0)
                           (if has_bits (clr_clearMask a) Vk.IMAGE_ASPECT_STENCIL_BIT
                            then Vk.IMAGE_ASPECT_STENCIL_BIT else 0))
                    (if has_bits (clr_clearMask a) Vk.IMAGE_ASPECT_DEPTH_BIT
                     then Some (clr_clearZ a) else None)
                    (if has_bits (clr_clearMask a) Vk.IMAGE_ASPECT_STENCIL_BIT
                     then Some (uint32_wrap (clr_clearStencil a)) else None)]
            else []) in
      match attachments with
      | [] => Done st
      | _ => Done (rs, emit (vkCmdClearAttachments attachments
                               (uint32_wrap curWidth) (uint32_wrap curHeight)) w)
      end
  | RdNumRenderCommands => Done (rs, emit (ELOG "Unimpl queue command") w)
  end.

(** Lines 955-959: an empty render pass that keeps everything. *)
Definition emptyKeepPass (step : VKRStep) : bool :=
  bool_decide (commands step = [])
  && bool_decide (Render.color (render step) = VKRRenderPassAction.KEEP)
  && bool_decide (Render.depth (render step) = VKRRenderPassAction.KEEP)
  && bool_decide (Render.stencil (render step) = VKRRenderPassAction.KEEP).

Definition PerformRenderPass (step : VKRStep) (w : World G) : Outcome (World G) :=
  w1 ←! ofoldl preTransition w (preTransitions step);
  if emptyKeepPass step then Done w1
  else
    let fb := Render.framebuffer (render step) in
    let w2 :=
      if negb (fb =? nullptr)%N
         && (layout (fb_color (fbAt w1 fb)) =? Vk.IMAGE_LAYOUT_COLOR_ATTACHMENT_OPTIMAL)
      then emit (vkCmdPipelineBarrier
                   Vk.PIPELINE_STAGE_COLOR_ATTACHMENT_OUTPUT_BIT
                   Vk.PIPELINE_STAGE_COLOR_ATTACHMENT_OUTPUT_BIT
                   [mkBarrier (image (fb_color (fbAt w1 fb)))
                      Vk.IMAGE_LAYOUT_COLOR_ATTACHMENT_OPTIMAL
                      Vk.IMAGE_LAYOUT_COLOR_ATTACHMENT_OPTIMAL
                      Vk.ACCESS_COLOR_ATTACHMENT_WRITE_BIT
                      (Z.lor Vk.ACCESS_COLOR_ATTACHMENT_WRITE_BIT
                             Vk.ACCESS_COLOR_ATTACHMENT_READ_BIT)
                      Vk.IMAGE_ASPECT_COLOR_BIT]) w1
      else w1 in
    w3 ←! PerformBindFramebufferAsRenderTarget step w2;
    let curWidth := if negb (fb =? nullptr)%N then width (fbAt w3 fb)
                    else GetBackbufferWidth env in
    let curHeight := if negb (fb =? nullptr)%N then height (fbAt w3 fb)
                     else GetBackbufferHeight env in
    st ←! ofoldl (replayCommand fb curWidth curHeight)
            (mkReplay VK_NULL_HANDLE (-1) (-1) (-1), w3) (commands step);
    let w4 := emit vkCmdEndRenderPass st.2 in
    Done (if negb (fb =? nullptr)%N
          then set_imageLayout fb ColorImage (Render.finalColorLayout (render step)) w4
          else w4).

(** *** [SetupTransitionToTransferSrc] and [SetupTransitionToTransferDst] *)

Definition transferSrcFrom (l : Z) : option (Z * Z) :=
  if l =? Vk.IMAGE_LAYOUT_COLOR_ATTACHMENT_OPTIMAL
  then Some (Z.lor Vk.ACCESS_COLOR_ATTACHMENT_WRITE_BIT Vk.ACCESS_COLOR_ATTACHMENT_READ_BIT,
             Vk.PIPELINE_STAGE_COLOR_ATTACHMENT_OUTPUT_BIT)
  else if l =? Vk.IMAGE_LAYOUT_DEPTH_STENCIL_ATTACHMENT_OPTIMAL
  then Some (Vk.ACCESS_DEPTH_STENCIL_ATTACHMENT_WRITE_BIT,
             Z.lor Vk.PIPELINE_STAGE_EARLY_FRAGMENT_TESTS_BIT
                   Vk.PIPELINE_STAGE_LATE_FRAGMENT_TESTS_BIT)
  else if l =? Vk.IMAGE_LAYOUT_TRANSFER_DST_OPTIMAL
  then Some (Vk.ACCESS_TRANSFER_WRITE_BIT, Vk.PIPELINE_STAGE_TRANSFER_BIT)
  else if l =? Vk.IMAGE_LAYOUT_SHADER_READ_ONLY_OPTIMAL
  then Some (Vk.ACCESS_SHADER_READ_BIT, Vk.PIPELINE_STAGE_FRAGMENT_SHADER_BIT)
  else None.

Definition transferDstFrom (l : Z) : option (Z * Z) :=
  if l =? Vk.IMAGE_LAYOUT_COLOR_ATTACHMENT_OPTIMAL
  then Some (Vk.ACCESS_COLOR_ATTACHMENT_WRITE_BIT,
             Vk.PIPELINE_STAGE_COLOR_ATTACHMENT_OUTPUT_BIT)
  else if l =? Vk.IMAGE_LAYOUT_TRANSFER_SRC_OPTIMAL
  then Some (Vk.ACCESS_TRANSFER_READ_BIT, Vk.PIPELINE_STAGE_TRANSFER_BIT)
  else if l =? Vk.IMAGE_LAYOUT_DEPTH_STENCIL_ATTACHMENT_OPTIMAL
  then Some (Vk.ACCESS_DEPTH_STENCIL_ATTACHMENT_WRITE_BIT,
             Z.lor Vk.PIPELINE_STAGE_EARLY_FRAGMENT_TESTS_BIT
                   Vk.PIPELINE_STAGE_LATE_FRAGMENT_TESTS_BIT)
  else if l =? Vk.IMAGE_LAYOUT_SHADER_READ_ONLY_OPTIMAL
  then Some (Vk.ACCESS_SHADER_READ_BIT, Vk.PIPELINE_STAGE_FRAGMENT_SHADER_BIT)
  else None.

Definition isCombinedDepthStencil (fmt : Z) : bool :=
  (fmt =? Vk.FORMAT_D16_UNORM_S8_UINT) || (fmt =? Vk.FORMAT_D24_UNORM_S8_UINT)
  || (fmt =? Vk.FORMAT_D32_SFLOAT_S8_UINT).

(** The two [#ifdef] tails: the layouts written into the barrier once
    [img.layout] has been updated. *)
Definition generalize (aspect l : Z) : Z :=
  let l1 :=
    if USE_GENERAL_LAYOUT_FOR_COLOR env && (aspect =? Vk.IMAGE_ASPECT_COLOR_BIT)
       && ((l =? Vk.IMAGE_LAYOUT_COLOR_ATTACHMENT_OPTIMAL)
           || (l =? Vk.IMAGE_LAYOUT_SHADER_READ_ONLY_OPTIMAL))
    then Vk.IMAGE_LAYOUT_GENERAL else l in
  if USE_GENERAL_LAYOUT_FOR_DEPTH_STENCIL env && negb (aspect =? Vk.IMAGE_ASPECT_COLOR_BIT)
     && ((l1 =? Vk.IMAGE_LAYOUT_DEPTH_STENCIL_ATTACHMENT_OPTIMAL)
         || (l1 =? Vk.IMAGE_LAYOUT_SHADER_READ_ONLY_OPTIMAL))
  then Vk.IMAGE_LAYOUT_GENERAL else l1.

(** The common shape of the two functions: the image with its new layout,
    the barrier that was filled in, and the updated [stage]. *)
Definition SetupTransition (from : Z → option (Z * Z)) (dstAccessMask newLayout : Z)
    (what : string) (img : VKRImage) (stage aspect : Z)
    : Outcome (VKRImage * VkImageMemoryBarrier * Z) :=
  s ←! switchBits (from (layout img)) what;
  Done (set_layout newLayout img,
        mkBarrier (image img)
          (generalize aspect (layout img)) (generalize aspect newLayout)
          s.1 dstAccessMask
          (if isCombinedDepthStencil (format img)
           then Z.lor Vk.IMAGE_ASPECT_DEPTH_BIT Vk.IMAGE_ASPECT_STENCIL_BIT
           else aspect),
        Z.lor stage s.2).

Definition SetupTransitionToTransferSrc :=
  SetupTransition transferSrcFrom Vk.ACCESS_TRANSFER_READ_BIT
    Vk.IMAGE_LAYOUT_TRANSFER_SRC_OPTIMAL
    "Transition from this layout to transfer src not supported".

Definition SetupTransitionToTransferDst :=
  SetupTransition transferDstFrom Vk.ACCESS_TRANSFER_WRITE_BIT
    Vk.IMAGE_LAYOUT_TRANSFER_DST_OPTIMAL
    "Transition from this layout to transfer dst not supported".

(** *** The guarded transition requests of the copy, blit and readback paths

    [if (fb->att.layout != L) SetupTransitionToL(fb->att, barriers[count++], stage, aspect);]
    The state threaded through is the world, the barrier array filled so
    far and the stage mask. *)

Definition transferRequest
    (setup : VKRImage → Z → Z → Outcome (VKRImage * VkImageMemoryBarrier * Z))
    (L : Z) (p : ptr) (a : Attachment) (aspect : Z)
    (st : World G * list VkImageMemoryBarrier * Z)
    : Outcome (World G * list VkImageMemoryBarrier * Z) :=
  let w := st.1.1 in
  let img := imageOf a (fbAt w p) in
  if negb (layout img =? L) then
    r ←! setup img st.2 aspect;
    Done (set_fb p (set_imageOf a r.1.1 (fbAt w p)) w, st.1.2 ++ [r.1.2], r.2)
  else Done st.

Definition requestTransferSrc :=
  transferRequest SetupTransitionToTransferSrc Vk.IMAGE_LAYOUT_TRANSFER_SRC_OPTIMAL.
Definition requestTransferDst :=
  transferRequest SetupTransitionToTransferDst Vk.IMAGE_LAYOUT_TRANSFER_DST_OPTIMAL.

Definition depthStencilBits : Z := Z.lor Vk.IMAGE_ASPECT_DEPTH_BIT Vk.IMAGE_ASPECT_STENCIL_BIT.

(** The barriers of [PerformCopy] and [PerformBlit] (lines 1232-1256 and
    1312-1336), which are the same text. *)
Definition transferBarriers (src dst : ptr) (aspectMask : Z) (w : World G)
    : Outcome (World G) :=
  s1 ←! (if has_bits aspectMask Vk.IMAGE_ASPECT_COLOR_BIT
         then requestTransferSrc src ColorImage Vk.IMAGE_ASPECT_COLOR_BIT (w, [], 0)
         else Done (w, [], 0));
  d1 ←! (if has_bits aspectMask Vk.IMAGE_ASPECT_COLOR_BIT
         then requestTransferDst dst ColorImage Vk.IMAGE_ASPECT_COLOR_BIT (s1.1.1, [], 0)
         else Done (s1.1.1, [], 0));
  s2 ←! (if has_bits aspectMask depthStencilBits
         then requestTransferSrc src DepthImage depthStencilBits (d1.1.1, s1.1.2, s1.2)
         else Done (d1.1.1, s1.1.2, s1.2));
  d2 ←! (if has_bits aspectMask depthStencilBits
         then requestTransferDst dst DepthImage depthStencilBits (s2.1.1, d1.1.2, d1.2)
         else Done (s2.1.1, d1.1.2, d1.2));
  let w1 := d2.1.1 in
  let w2 := match s2.1.2 with
            | [] => w1
            | bs => emit (vkCmdPipelineBarrier s2.2 Vk.PIPELINE_STAGE_TRANSFER_BIT bs) w1
            end in
  Done (match d2.1.2 with
        | [] => w2
        | bs => emit (vkCmdPipelineBarrier d2.2 Vk.PIPELINE_STAGE_TRANSFER_BIT bs) w2
        end).

Definition aspectOfDepthStencil (aspectMask : Z) : Z :=
  Z.lor (if has_bits aspectMask Vk.IMAGE_ASPECT_DEPTH_BIT then Vk.IMAGE_ASPECT_DEPTH_BIT else 0)
        (if has_bits aspectMask Vk.IMAGE_ASPECT_STENCIL_BIT then Vk.IMAGE_ASPECT_STENCIL_BIT else 0).

Definition PerformCopy (step : VKRStep) (w : World G) : Outcome (World G) :=
  let c := copy step in
  w1 ←! transferBarriers (Copy.src c) (Copy.dst c) (Copy.aspectMask c) w;
  let src := fbAt w1 (Copy.src c) in
  let dst := fbAt w1 (Copy.dst c) in
  let w2 :=
    if has_bits (Copy.aspectMask c) Vk.IMAGE_ASPECT_COLOR_BIT
    then emit (vkCmdCopyImage (image (fb_color src)) (layout (fb_color src))
                 (image (fb_color dst)) (layout (fb_color dst))
                 Vk.IMAGE_ASPECT_COLOR_BIT
                 (offset (Copy.srcRect c)) (Copy.dstPos c) (extent (Copy.srcRect c))) w1
    else w1 in
  Done (if has_bits (Copy.aspectMask c) depthStencilBits
        then emit (vkCmdCopyImage (image (fb_depth src)) (layout (fb_depth src))
                     (image (fb_depth dst)) (layout (fb_depth dst))
                     (aspectOfDepthStencil (Copy.aspectMask c))
                     (offset (Copy.srcRect c)) (Copy.dstPos c) (extent (Copy.srcRect c))) w2
        else w2).

Definition PerformBlit (step : VKRStep) (w : World G) : Outcome (World G) :=
  let b := blit step in
  w1 ←! transferBarriers (Blit.src b) (Blit.dst b) (Blit.aspectMask b) w;
  let src := fbAt w1 (Blit.src b) in
  let dst := fbAt w1 (Blit.dst b) in
  let w2 :=
    if has_bits (Blit.aspectMask b) Vk.IMAGE_ASPECT_COLOR_BIT
    then emit (vkCmdBlitImage (image (fb_color src)) (layout (fb_color src))
                 (image (fb_color dst)) (layout (fb_color dst))
                 Vk.IMAGE_ASPECT_COLOR_BIT (Blit.srcRect b) (Blit.dstRect b) (Blit.filter b)) w1
    else w1 in
  Done (if has_bits (Blit.aspectMask b) depthStencilBits
        then emit (vkCmdBlitImage (image (fb_depth src)) (layout (fb_depth src))
                     (image (fb_depth dst)) (layout (fb_depth dst))
                     (aspectOfDepthStencil (Blit.aspectMask b))
                     (Blit.srcRect b) (Blit.dstRect b) (Blit.filter b)) w2
        else w2).

(** *** [ResizeReadbackBuffer] *)

Definition set_readback (mem buf : handle) (size : Z) (coherent : bool)
    (q : QueueRunner) : QueueRunner :=
  mkRunner (renderPasses_ q) mem buf size coherent (hacksEnabled_ q) (backbuffer_ q)
           (backbufferImage_ q) (backbufferRenderPass_ q).

Definition desiredTypes : list Z :=
  [ Z.lor (Z.lor Vk.MEMORY_PROPERTY_HOST_VISIBLE_BIT Vk.MEMORY_PROPERTY_HOST_COHERENT_BIT)
          Vk.MEMORY_PROPERTY_HOST_CACHED_BIT;
    Z.lor Vk.MEMORY_PROPERTY_HOST_VISIBLE_BIT Vk.MEMORY_PROPERTY_HOST_CACHED_BIT;
    Z.lor Vk.MEMORY_PROPERTY_HOST_VISIBLE_BIT Vk.MEMORY_PROPERTY_HOST_COHERENT_BIT ].

(** The loop over [desiredTypes]: the first satisfiable requirement set
    and the memory type index found for it. *)
Fixpoint findMemoryType (memoryTypeBits : Z) (types : list Z) : option (Z * Z) :=
  match types with
  | [] => None
  | typeReqs :: rest =>
      match MemoryTypeFromProperties env memoryTypeBits typeReqs with
      | Some index => Some (typeReqs, index)
      | None => findMemoryType memoryTypeBits rest
      end
  end.

Definition ResizeReadbackBuffer (requiredSize : Z) (w : World G) : Outcome (World G) :=
  let q := qr w in
  if negb (readbackBuffer_ q =? VK_NULL_HANDLE)%N && (requiredSize <=? readbackBufferSize_ q)
  then Done w
  else
    let w1 := if negb (readbackMemory_ q =? VK_NULL_HANDLE)%N
              then emit (QueueDeleteDeviceMemory (readbackMemory_ q)) w else w in
    let w2 := if negb (readbackBuffer_ q =? VK_NULL_HANDLE)%N
              then emit (QueueDeleteBuffer (readbackBuffer_ q)) w1 else w1 in
    let b := vkCreateBuffer env (gpu w2) requiredSize Vk.BUFFER_USAGE_TRANSFER_DST_BIT in
    let w3 := emit (vkCreateBuffer_call requiredSize Vk.BUFFER_USAGE_TRANSFER_DST_BIT b.2)
                   (set_gpu b.1 w2) in
    let reqs := vkGetBufferMemoryRequirements env (gpu w3) b.2 in
    match findMemoryType reqs.2 desiredTypes with
    | None => Stop (AssertFailed "successTypeReqs != 0")
    | Some (successTypeReqs, memoryTypeIndex) =>
        let coherent := has_bits successTypeReqs Vk.MEMORY_PROPERTY_HOST_COHERENT_BIT in
        let m := vkAllocateMemory env (gpu w3) reqs.1 memoryTypeIndex in
        let w4 := emit (vkAllocateMemory_call reqs.1 memoryTypeIndex m.2.1 m.2.2)
                       (set_gpu m.1 w3) in
        if negb (m.2.1 =? Vk.SUCCESS) then
          Done (set_qr (set_readback VK_NULL_HANDLE VK_NULL_HANDLE requiredSize coherent q)
                  (emit (vkDestroyBuffer_call b.2) w4))
        else
          Done (set_qr (set_readback m.2.2 b.2 requiredSize coherent q)
                  (emit (vkBindBufferMemory_call b.2 m.2.2) w4))
    end.

(** *** [PerformReadback] and [PerformReadbackImage] *)

(** [sizeof(uint32_t) * width * height], computed in [size_t]. *)
Definition readbackBytes (ext : VkExtent2D) : Z :=
  size_t_wrap (size_t_wrap (4 * ext_width ext) * ext_height ext).

Definition PerformReadback (step : VKRStep) (w : World G) : Outcome (World G) :=
  let r := readback step in
  w1 ←! ResizeReadbackBuffer (readbackBytes (extent (Readback.srcRect r))) w;
  if (Readback.src r =? nullptr)%N then
    let w2 := emit (TransitionImageLayout2 (backbufferImage_ (qr w1)) Vk.IMAGE_ASPECT_COLOR_BIT
                      Vk.IMAGE_LAYOUT_PRESENT_SRC_KHR Vk.IMAGE_LAYOUT_TRANSFER_SRC_OPTIMAL
                      Vk.PIPELINE_STAGE_COLOR_ATTACHMENT_OUTPUT_BIT Vk.PIPELINE_STAGE_TRANSFER_BIT
                      0 Vk.ACCESS_TRANSFER_READ_BIT) w1 in
    let w3 := emit (vkCmdCopyImageToBuffer (backbufferImage_ (qr w2))
                      Vk.IMAGE_LAYOUT_TRANSFER_SRC_OPTIMAL (readbackBuffer_ (qr w2))
                      (Readback.aspectMask r) 0 (Readback.srcRect r)) w2 in
    Done (emit (TransitionImageLayout2 (backbufferImage_ (qr w3)) Vk.IMAGE_ASPECT_COLOR_BIT
                  Vk.IMAGE_LAYOUT_TRANSFER_SRC_OPTIMAL Vk.IMAGE_LAYOUT_PRESENT_SRC_KHR
                  Vk.PIPELINE_STAGE_TRANSFER_BIT Vk.PIPELINE_STAGE_ALL_COMMANDS_BIT
                  Vk.ACCESS_TRANSFER_READ_BIT 0) w3)
  else
    let pick :=
      if has_bits (Readback.aspectMask r) Vk.IMAGE_ASPECT_COLOR_BIT then Some ColorImage
      else if has_bits (Readback.aspectMask r) depthStencilBits then Some DepthImage
      else None in
    match pick with
    | None =>
        _ ←! check (dbg_asserts env) false "No image aspect to readback?";
        Done w1
    | Some a =>
        st ←! requestTransferSrc (Readback.src r) a (Readback.aspectMask r) (w1, [], 0);
        let w2 := match st.1.2 with
                  | [] => st.1.1
                  | bs => emit (vkCmdPipelineBarrier st.2 Vk.PIPELINE_STAGE_TRANSFER_BIT bs) st.1.1
                  end in
        let srcImage := imageOf a (fbAt w2 (Readback.src r)) in
        Done (emit (vkCmdCopyImageToBuffer (image srcImage) (layout srcImage)
                      (readbackBuffer_ (qr w2))
                      (Readback.aspectMask r) 0 (Readback.srcRect r)) w2)
    end.

Definition PerformReadbackImage (step : VKRStep) (w : World G) : Outcome (World G) :=
  let r := readback_image step in
  let srcImage := mkImage (ReadbackImage.image r) Vk.IMAGE_LAYOUT_SHADER_READ_ONLY_OPTIMAL
                          (indeterminate env) in
  t ←! SetupTransitionToTransferSrc srcImage 0 Vk.IMAGE_ASPECT_COLOR_BIT;
  let w1 := emit (vkCmdPipelineBarrier t.2 Vk.PIPELINE_STAGE_TRANSFER_BIT [t.1.2]) w in
  w2 ←! ResizeReadbackBuffer (readbackBytes (extent (ReadbackImage.srcRect r))) w1;
  let w3 := emit (vkCmdCopyImageToBuffer (ReadbackImage.image r)
                    Vk.IMAGE_LAYOUT_TRANSFER_SRC_OPTIMAL (readbackBuffer_ (qr w2))
                    Vk.IMAGE_ASPECT_COLOR_BIT (ReadbackImage.mipLevel r)
                    (ReadbackImage.srcRect r)) w2 in
  Done (emit (TransitionImageLayout2 (ReadbackImage.image r) Vk.IMAGE_ASPECT_COLOR_BIT
                Vk.IMAGE_LAYOUT_TRANSFER_SRC_OPTIMAL Vk.IMAGE_LAYOUT_SHADER_READ_ONLY_OPTIMAL
                Vk.PIPELINE_STAGE_TRANSFER_BIT Vk.PIPELINE_STAGE_FRAGMENT_SHADER_BIT
                Vk.ACCESS_TRANSFER_READ_BIT Vk.ACCESS_SHADER_READ_BIT) w3).

(** *** [RunSteps]

    The model covers calls with [profile == nullptr]. *)

Definition performStep (h : gmap ptr VKRStep) (w : World G) (p : ptr) : Outcome (World G) :=
  let step := h !!! p in
  match stepType step with
  | RENDER => PerformRenderPass step w
  | COPY => PerformCopy step w
  | BLIT => PerformBlit step w
  | READBACK => PerformReadback step w
  | READBACK_IMAGE => PerformReadbackImage step w
  | RENDER_SKIP => Done w
  end.

(** [delete steps[i]]: deleting an object a second time has no defined
    behaviour and is made a stop. *)
Definition deleteStep (h : gmap ptr VKRStep) (p : ptr) : Outcome (gmap ptr VKRStep) :=
  match h !! p with
  | Some _ => Done (delete p h)
  | None => Stop DoubleDelete
  end.

(** The optimizer half of [RunSteps] (lines 388-448). *)
Definition optimizeSteps (hacksEnabled : Z) (vec : list ptr) (h : gmap ptr VKRStep)
    : Outcome (list ptr * gmap ptr VKRStep) :=
  let h1 := defaultFinalLayouts h vec in
  let h2 := clearPass h1 vec in
  applyQueueHacks hacksEnabled vec h2.

Definition RunSteps (vec : list ptr) (h : gmap ptr VKRStep) (w : World G)
    : Outcome (World G * list ptr * gmap ptr VKRStep) :=
  st ←! optimizeSteps (hacksEnabled_ (qr w)) vec h;
  w1 ←! ofoldl (performStep st.2) w st.1;
  h1 ←! ofoldl deleteStep st.2 st.1;
  Done (w1, st.1, h1).

(** *** [CopyReadbackBuffer]

    [pixels] is the caller's memory as a map from byte offsets (relative to
    the pointer passed in) to bytes; the result is that memory afterwards. *)

(** [memcpy(dst + dstOff, src + srcOff, n)]. *)
Definition memcpy (dst src : Z → Z) (dstOff srcOff n : Z) : Z → Z :=
  λ a, if (dstOff <=? a) && (a <? dstOff + n) then src (srcOff + (a - dstOff)) else dst a.

(** The row loop of the same-format branch, [rows] rows left. *)
Fixpoint copyRows (rows : nat) (dst src : Z → Z) (dstOff srcOff rowBytes dstStep : Z)
    : Z → Z :=
  match rows with
  | O => dst
  | S rows' =>
      copyRows rows' (memcpy dst src dstOff srcOff rowBytes) src
               (dstOff + dstStep) (srcOff + rowBytes) rowBytes dstStep
  end.

(** [width * height * srcPixelSize] of lines 1583 and 1588: the product of
    the two [int]s is an [int], which is converted to [size_t] for the
    product with the pixel size. *)
Definition mappedSize (width height srcPixelSize : Z) : Z :=
  size_t_wrap (size_t_wrap (int_wrap (width * height)) * srcPixelSize).

Definition CopyReadbackBuffer (width height srcFormat destFormat pixelStride : Z)
    (pixels : Z → Z) (w : World G) : Outcome ((Z → Z) * World G) :=
  if (readbackMemory_ (qr w) =? VK_NULL_HANDLE)%N then Done (pixels, w)
  else
    let srcPixelSize := DataFormatSizeInBytes env srcFormat in
    let size := mappedSize width height srcPixelSize in
    let m := vkMapMemory env (gpu w) (readbackMemory_ (qr w)) size in
    let w1 := emit (vkMapMemory_call (readbackMemory_ (qr w)) size m.1) w in
    let w2 := if negb (readbackBufferIsCoherent_ (qr w1))
              then emit (vkInvalidateMappedMemoryRanges (readbackMemory_ (qr w1)) size) w1
              else w1 in
    if negb (m.1 =? Vk.SUCCESS) then
      Done (pixels, emit (ELOG "CopyReadbackBuffer: vkMapMemory failed!") w2)
    else
      r ←! (if srcFormat =? R8G8B8A8_UNORM env then
              Done (ConvertFromRGBA8888 env pixels m.2 pixelStride width width height destFormat, w2)
            else if srcFormat =? B8G8R8A8_UNORM env then
              Done (ConvertFromBGRA8888 env pixels m.2 pixelStride width width height destFormat, w2)
            else if srcFormat =? destFormat then
              Done (copyRows (Z.to_nat height) pixels m.2 0 0
                      (size_t_wrap (width * srcPixelSize))
                      (size_t_wrap (pixelStride * srcPixelSize)), w2)
            else if destFormat =? D32F env then
              Done (ConvertToD32F env pixels m.2 pixelStride width width height srcFormat, w2)
            else
              let w3 := emit (ELOG "CopyReadbackBuffer: Unknown format") w2 in
              _ ←! check (negb (NDEBUG env)) false "false";
              Done (pixels, w3));
      Done (r.1, emit (vkUnmapMemory (readbackMemory_ (qr r.2))) r.2).

(** ** Observations used in the statements *)

(** A step that is (still) a render pass onto framebuffer [fb]. *)
Definition rendersTo (fb : ptr) (s : VKRStep) : bool :=
  is_type RENDER s && (Render.framebuffer (render s) =? fb)%N.

(** The commands recorded for framebuffer [fb], in the order of the step
    vector: those of the render steps that target it. *)
Definition fbCommands (fb : ptr) (h : gmap ptr VKRStep) (vec : list ptr) : list VkRenderData :=
  concat (map (λ p, if rendersTo fb (h !!! p) then commands (h !!! p) else []) vec).




(** The hardware render-pass objects created so far. *)
Definition isCreateRenderPass (c : Call) : bool :=
  match c with vkCreateRenderPass_call _ _ _ => true | _ => false end.
Definition renderPassesCreated (w : World G) : nat :=
  length (List.filter isCreateRenderPass (trace w)).

(** The places where the executor asks for an image to be in a layout:
    the guarded requests of the copy, blit and readback paths, and a
    pretransition of a render step. *)
Inductive TransitionSite :=
  | ToTransferSrc (p : ptr) (a : Attachment) (aspect : Z)
  | ToTransferDst (p : ptr) (a : Attachment) (aspect : Z)
  | PreTransition (iter : TransitionRequest).

Definition siteImage (s : TransitionSite) (w : World G) : VKRImage :=
  match s with
  | ToTransferSrc p a _ | ToTransferDst p a _ => imageOf a (fbAt w p)
  | PreTransition iter => fb_color (fbAt w (tr_fb iter))
  end.

Definition siteTarget (s : TransitionSite) : Z :=
  match s with
  | ToTransferSrc _ _ _ => Vk.IMAGE_LAYOUT_TRANSFER_SRC_OPTIMAL
  | ToTransferDst _ _ _ => Vk.IMAGE_LAYOUT_TRANSFER_DST_OPTIMAL
  | PreTransition iter => tr_targetLayout iter
  end.

Definition flushBarriers (st : World G * list VkImageMemoryBarrier * Z) : World G :=
  match st.1.2 with
  | [] => st.1.1
  | bs => emit (vkCmdPipelineBarrier st.2 Vk.PIPELINE_STAGE_TRANSFER_BIT bs) st.1.1
  end.

(** One request as the executor issues it: the guard, the setup of the
    barrier, and the [vkCmdPipelineBarrier] for what was set up (as at lines
    1514-1519 for a single image). *)
Definition requestTransition (s : TransitionSite) (w : World G) : Outcome (World G) :=
  match s with
  | ToTransferSrc p a aspect =>
      st ←! requestTransferSrc p a aspect (w, [], 0); Done (flushBarriers st)
  | ToTransferDst p a aspect =>
      st ←! requestTransferDst p a aspect (w, [], 0); Done (flushBarriers st)
  | PreTransition iter => preTransition w iter
  end.

(** The image memory barriers recorded into the command buffer so far. *)
Definition barrierCount (c : Call) : nat :=
  match c with vkCmdPipelineBarrier _ _ bs => length bs | _ => O end.
Definition barriersEmitted (w : World G) : nat :=
  foldr (λ c n, (barrierCount c + n)%nat) O (trace w).

(** The sizes of the staging buffers created so far, oldest first. *)
Definition createdBufferSizes (w : World G) : list Z :=
  omap (λ c, match c with vkCreateBuffer_call size _ _ => Some size | _ => None end) (trace w).

(** The error messages logged so far. *)
Definition loggedErrors (w : World G) : list string :=
  omap (λ c, match c with ELOG msg => Some msg | _ => None end) (trace w).

(** The format pairs [CopyReadbackBuffer] converts. *)
Definition supportedConversion (srcFormat destFormat : Z) : bool :=
  (srcFormat =? R8G8B8A8_UNORM env) || (srcFormat =? B8G8R8A8_UNORM env)
  || (srcFormat =? destFormat) || (destFormat =? D32F env).

(** A render step onto an offscreen framebuffer declares a final color
    layout other than UNDEFINED. *)
Definition finalLayoutDefined (s : VKRStep) : Prop :=
  stepType s = RENDER →
  Render.framebuffer (render s) ≠ nullptr →
  Render.finalColorLayout (render s) ≠ Vk.IMAGE_LAYOUT_UNDEFINED.

(** What no pass changes on a step that is still a render step. *)
Definition keeps (s s' : VKRStep) : Prop :=
  stepType s' = RENDER →
  stepType s = RENDER
  ∧ Render.framebuffer (render s') = Render.framebuffer (render s)
  ∧ Render.finalColorLayout (render s') = Render.finalColorLayout (render s).

Definition hkeeps (h h' : gmap ptr VKRStep) : Prop := ∀ p, keeps (h !!! p) (h' !!! p).

Definition benign (f : VKRStep → VKRStep) : Prop := ∀ s, keeps s (f s).

(** The outcome is not a stop in the assertion on the final color layout. *)
Definition passesFinalLayoutAssertion {A} (o : Outcome A) : Prop :=
  o ≠ Stop (AssertFailed finalLayoutAssertion).

(** A copy step that reads framebuffer [fb]. *)
Definition copiesFrom (fb : ptr) (s : VKRStep) : bool :=
  is_type COPY s && (Copy.src (copy s) =? fb)%N.

(** The steps at which the dead-clear scan for [fb] ends: the next render
    step onto [fb], or a copy out of [fb]. *)
Definition clearHit (fb : ptr) (s : VKRStep) : bool :=
  rendersTo fb s || copiesFrom fb s.

(** The render data of step [si] once the clear values of the empty clear
    step [sj] have been folded into it: every load action is CLEAR, and each
    action that was not CLEAR takes the clear value of [sj]. *)
Definition foldedInto (sj si : VKRStep) : Render.t :=
  let rj := render sj in
  let ri := render si in
  Render.mk (Render.framebuffer ri)
    VKRRenderPassAction.CLEAR VKRRenderPassAction.CLEAR VKRRenderPassAction.CLEAR
    (if bool_decide (Render.color ri = VKRRenderPassAction.CLEAR)
     then Render.clearColor ri else Render.clearColor rj)
    (if bool_decide (Render.depth ri = VKRRenderPassAction.CLEAR)
     then Render.clearDepth ri else Render.clearDepth rj)
    (if bool_decide (Render.stencil ri = VKRRenderPassAction.CLEAR)
     then Render.clearStencil ri else Render.clearStencil rj)
    (Render.numDraws ri) (Render.numReads ri) (Render.finalColorLayout ri).

(** The three conditional writes of [foldClear] as a function on the
    target step. *)
Definition foldStep (sj si : VKRStep) : VKRStep :=
  let s1 :=
    if bool_decide (Render.color (render si) ≠ VKRRenderPassAction.CLEAR)
    then set_render (Render_set_clearColor (Render.clearColor (render sj)))
           (set_render (Render_set_color VKRRenderPassAction.CLEAR) si)
    else si in
  let s2 :=
    if bool_decide (Render.depth (render s1) ≠ VKRRenderPassAction.CLEAR)
    then set_render (Render_set_clearDepth (Render.clearDepth (render sj)))
           (set_render (Render_set_depth VKRRenderPassAction.CLEAR) s1)
    else s1 in
  if bool_decide (Render.stencil (render s2) ≠ VKRRenderPassAction.CLEAR)
  then set_render (Render_set_clearStencil (Render.clearStencil (render sj)))
         (set_render (Render_set_stencil VKRRenderPassAction.CLEAR) s2)
  else s2.

(** What the dead-clear pass never changes on a step it does not skip:
    its type, the framebuffer of a render step, and anything of a step that
    is no render step. *)
Definition stable (s s' : VKRStep) : Prop :=
  stepType s' = stepType s
  ∧ Render.framebuffer (render s') = Render.framebuffer (render s)
  ∧ (stepType s ≠ RENDER → s' = s).

(** *** Further observations *)

(** The elements a [TinySet] holds, the inline array first. *)
Definition TinySet_elements {T} (s : TinySet T) : list T :=
  fastLookup_ s ++ default [] (slowLookup_ s).

(** [RPIndex] of [VulkanQueueRunner.h]: [(int)depth * 3 + (int)color]. *)
Definition RPIndex (color depth : VKRRenderPassAction.t) : Z :=
  Z.of_nat (VKRRenderPassAction.to_nat depth) * 3
  + Z.of_nat (VKRRenderPassAction.to_nat color).

(** The shape every [TinySet] built by [insert] has: no value twice, at
    most [M] values inline, and an overflow vector only beside a full inline
    array. *)
Definition TinySet_wf {T} (M : nat) (s : TinySet T) : Prop :=
  NoDup (TinySet_elements s)
  ∧ (length (fastLookup_ s) ≤ M)%nat
  ∧ (slowLookup_ s ≠ None → length (fastLookup_ s) = M ∧ slowLookup_ s ≠ Some []).

(** [w1] is [w] with the calls [cs] recorded after those of [w]. *)
Definition appended (w w1 : World G) (cs : list Call) : Prop :=
  trace w1 = trace w ++ cs.

(** Where Vulkan lets a command stand with respect to the render passes of
    a command buffer: draws and attachment clears only inside one; image
    barriers and transfers (as this code uses them) only outside; state
    setting, and what is not a command-buffer command at all, anywhere. *)
Inductive CallPlace := BeginsPass | EndsPass | InsideOnly | OutsideOnly | Anywhere.

Definition callPlace (c : Call) : CallPlace :=
  match c with
  | vkCmdBeginRenderPass _ _ _ _ _ => BeginsPass
  | vkCmdEndRenderPass => EndsPass
  | vkCmdDrawIndexed _ _ | vkCmdDraw _ | vkCmdClearAttachments _ _ _ => InsideOnly
  | vkCmdPipelineBarrier _ _ _ | TransitionImageLayout2 _ _ _ _ _ _ _ _
  | vkCmdCopyImage _ _ _ _ _ _ _ _ | vkCmdBlitImage _ _ _ _ _ _ _ _
  | vkCmdCopyImageToBuffer _ _ _ _ _ _ => OutsideOnly
  | _ => Anywhere
  end.

(** One call seen by a reader of the command buffer who is inside a render
    pass or not: where the reader is afterwards, [None] for a call that may
    not stand there. *)
Definition recordCall (inside : bool) (c : Call) : option bool :=
  match callPlace c with
  | BeginsPass => if inside then None else Some true
  | EndsPass => if inside then Some false else None
  | InsideOnly => if inside then Some true else None
  | OutsideOnly => if inside then None else Some false
  | Anywhere => Some inside
  end.

Fixpoint passState (inside : bool) (cs : list Call) : option bool :=
  match cs with
  | [] => Some inside
  | c :: cs' =>
      match recordCall inside c with
      | Some inside' => passState inside' cs'
      | None => None
      end
  end.

Definition outsideCall (c : Call) : bool :=
  match callPlace c with OutsideOnly | Anywhere => true | _ => false end.
Definition insideCall (c : Call) : bool :=
  match callPlace c with InsideOnly | Anywhere => true | _ => false end.

(** The draw calls among recorded calls, and the draw call a recorded
    command stands for: [vkCmdDraw] with the count of a DRAW command,
    [vkCmdDrawIndexed] with the count of a DRAW_INDEXED command and its
    [int16_t] instance count converted to [uint32_t]. *)
Definition isDrawCall (c : Call) : bool :=
  match c with vkCmdDrawIndexed _ _ | vkCmdDraw _ => true | _ => false end.
Definition drawCalls (w : World G) : list Call := List.filter isDrawCall (trace w).
Definition drawCallOf (c : VkRenderData) : option Call :=
  match c with
  | RdDraw a => Some (vkCmdDraw (draw_count a))
  | RdDrawIndexed a => Some (vkCmdDrawIndexed (di_count a) (uint32_wrap (di_instances a)))
  | _ => None
  end.

(** The state the last of the calls [cs] that set it left in the command
    buffer: the pipeline bound, and the stencil write mask, compare mask and
    reference. *)
Definition boundPipeline (cs : list Call) : option handle :=
  last (omap (λ c, match c with vkCmdBindPipeline p => Some p | _ => None end) cs).
Definition stencilWriteMaskSet (cs : list Call) : option Z :=
  last (omap (λ c, match c with vkCmdSetStencilWriteMask m => Some m | _ => None end) cs).
Definition stencilCompareMaskSet (cs : list Call) : option Z :=
  last (omap (λ c, match c with vkCmdSetStencilCompareMask m => Some m | _ => None end) cs).
Definition stencilReferenceSet (cs : list Call) : option Z :=
  last (omap (λ c, match c with vkCmdSetStencilReference r => Some r | _ => None end) cs).

(** The state of the replay when [PerformRenderPass] starts it. *)
Definition replayStart (w : World G) : ReplayState * World G :=
  (mkReplay VK_NULL_HANDLE (-1) (-1) (-1), w).

(** What the state tracking of the replay knows is true of the command
    buffer: a pipeline it remembers is the one bound last, and a stencil
    value it remembers is the one set last; [VK_NULL_HANDLE] and [-1] stand
    for knowing nothing. *)
Definition replayTracks (rs : ReplayState) (cs : list Call) : Prop :=
  (lastPipeline rs = VK_NULL_HANDLE ∨ boundPipeline cs = Some (lastPipeline rs))
  ∧ (lastStencilWriteMask rs = -1
     ∨ stencilWriteMaskSet cs = Some (lastStencilWriteMask rs))
  ∧ (lastStencilCompareMask rs = -1
     ∨ stencilCompareMaskSet cs = Some (lastStencilCompareMask rs))
  ∧ (lastStencilReference rs = -1
     ∨ stencilReferenceSet cs = Some (lastStencilReference rs)).

(** The layouts a recorded image copy or blit names for its source and its
    destination image. *)
Definition copyLayouts (c : Call) : option (Z * Z) :=
  match c with
  | vkCmdCopyImage _ srcLayout _ dstLayout _ _ _ _
  | vkCmdBlitImage _ srcLayout _ dstLayout _ _ _ _ => Some (srcLayout, dstLayout)
  | _ => None
  end.


(** The copies into a buffer among recorded calls: image, the layout named
    for it, and buffer. *)
Definition bufferCopies (cs : list Call) : list (handle * Z * handle) :=
  omap (λ c, match c with
             | vkCmdCopyImageToBuffer img l buf _ _ _ => Some (img, l, buf)
             | _ => None
             end) cs.

Definition isBarrierCall (c : Call) : bool :=
  match c with vkCmdPipelineBarrier _ _ _ => true | _ => false end.

(** What a workload-specific fusion may do to one step object: append to
    its command list, and mark it skipped. *)
Definition fusedFrom (s s' : VKRStep) : Prop :=
  u s' = u s
  ∧ dependencies s' = dependencies s
  ∧ preTransitions s' = preTransitions s
  ∧ (∃ cs, commands s' = commands s ++ cs)
  ∧ (stepType s' = stepType s ∨ stepType s' = RENDER_SKIP).

Definition hfused (h h' : gmap ptr VKRStep) : Prop := ∀ p, fusedFrom (h !!! p) (h' !!! p).

(** Every step object that is in the heap [h] is in [h']. *)
Definition present (h h' : gmap ptr VKRStep) : Prop :=
  ∀ p, is_Some (h !! p) → is_Some (h' !! p).

(** The framebuffer the merge scan for [fb] notes as written when it
    passes the step [s]: the target of a render step onto another
    framebuffer, the destination of a copy or blit. *)
Definition writesOther (fb : ptr) (s : VKRStep) : option ptr :=
  match stepType s with
  | RENDER =>
      if (Render.framebuffer (render s) =? fb)%N then None
      else Some (Render.framebuffer (render s))
  | COPY => Some (Copy.dst (copy s))
  | BLIT => Some (Blit.dst (blit s))
  | _ => None
  end.

(** The target layout of the last pretransition request that names the
    framebuffer [p]. *)
Definition lastRequested (p : ptr) (reqs : list TransitionRequest) : option Z :=
  last (omap (λ r, if decide (tr_fb r = p) then Some (tr_targetLayout r) else None) reqs).

(** The framebuffer object [fb] with its color image tagged with layout [l]. *)
Definition withColorLayout (l : Z) (fb : VKRFramebuffer) : VKRFramebuffer :=
  set_fb_color (set_layout l (fb_color fb)) fb.

End QueueRunner.


(** ** Concrete data for the examples

    A device that hands out fresh handles and never fails, a release build
    without debug assertions, and a few recorded frames. *)

Definition zeroRect : VkRect2D := mkRect2D (mkOffset2D 0 0) (mkExtent2D 0 0).

Definition samplePunning : Punning :=
  mkPunning
    (λ _, Render.mk 0%N VKRRenderPassAction.DONT_CARE VKRRenderPassAction.DONT_CARE
            VKRRenderPassAction.DONT_CARE 0 0 0 0 0 0)
    (λ _, Copy.mk 0%N 0%N zeroRect (mkOffset2D 0 0) 0)
    (λ _, Blit.mk 0%N 0%N zeroRect zeroRect 0 0)
    (λ _, Readback.mk 0 0%N zeroRect)
    (λ _, ReadbackImage.mk 0%N zeroRect 0)
    (λ _, 0).

Definition sampleEnv (ndebug dbg : bool) : Env N :=
  {| NDEBUG := ndebug;
     dbg_asserts := dbg;
     USE_GENERAL_LAYOUT_FOR_COLOR := false;
     USE_GENERAL_LAYOUT_FOR_DEPTH_STENCIL := false;
     pun := samplePunning;
     vkCreateRenderPass := λ g _, ((g + 1)%N, (Vk.SUCCESS, (g + 1)%N));
     vkCreateBuffer := λ g _ _, ((g + 1)%N, (g + 1)%N);
     vkGetBufferMemoryRequirements := λ _ _, (0, 1);
     MemoryTypeFromProperties := λ _ _, Some 0;
     vkAllocateMemory := λ g _ _, ((g + 1)%N, (Vk.SUCCESS, (g + 1)%N));
     vkMapMemory := λ _ _ _, (Vk.SUCCESS, λ _, 0);
     driverVersion := 0;
     preferredDepthStencilFormat := Vk.FORMAT_D24_UNORM_S8_UINT;
     GetBackbufferWidth := 480;
     GetBackbufferHeight := 272;
     RotateViewportToDisplay := λ vp, vp;
     RotateRectToDisplay := λ rc, rc;
     Uint8x4ToFloat4 := λ _, [0; 0; 0; 0];
     DataFormatSizeInBytes := λ _, 4;
     R8G8B8A8_UNORM := 1;
     B8G8R8A8_UNORM := 2;
     D32F := 3;
     ConvertFromRGBA8888 := λ dst _ _ _ _ _ _, dst;
     ConvertFromBGRA8888 := λ dst _ _ _ _ _ _, dst;
     ConvertToD32F := λ dst _ _ _ _ _ _, dst;
     indeterminate := 0 |}.

(** A release build ([NDEBUG], no debug assertions). *)
Definition releaseEnv : Env N := sampleEnv true false.

(** A debug build. *)
Definition debugEnv : Env N := sampleEnv false true.

(** The same device, except that memory allocation fails. *)
Definition sampleEnvNoMemory : Env N :=
  {| NDEBUG := true;
     dbg_asserts := false;
     USE_GENERAL_LAYOUT_FOR_COLOR := false;
     USE_GENERAL_LAYOUT_FOR_DEPTH_STENCIL := false;
     pun := samplePunning;
     vkCreateRenderPass := λ g _, ((g + 1)%N, (Vk.SUCCESS, (g + 1)%N));
     vkCreateBuffer := λ g _ _, ((g + 1)%N, (g + 1)%N);
     vkGetBufferMemoryRequirements := λ _ _, (0, 1);
     MemoryTypeFromProperties := λ _ _, Some 0;
     vkAllocateMemory := λ g _ _, (g, (-1, 0%N));
     vkMapMemory := λ _ _ _, (Vk.SUCCESS, λ _, 0);
     driverVersion := 0;
     preferredDepthStencilFormat := Vk.FORMAT_D24_UNORM_S8_UINT;
     GetBackbufferWidth := 480;
     GetBackbufferHeight := 272;
     RotateViewportToDisplay := λ vp, vp;
     RotateRectToDisplay := λ rc, rc;
     Uint8x4ToFloat4 := λ _, [0; 0; 0; 0];
     DataFormatSizeInBytes := λ _, 4;
     R8G8B8A8_UNORM := 1;
     B8G8R8A8_UNORM := 2;
     D32F := 3;
     ConvertFromRGBA8888 := λ dst _ _ _ _ _ _, dst;
     ConvertFromBGRA8888 := λ dst _ _ _ _ _ _, dst;
     ConvertToD32F := λ dst _ _ _ _ _ _, dst;
     indeterminate := 0 |}.

Definition sampleDraw (n : Z) : VkRenderData :=
  RdDraw (mkDrawArgs 0%N 0%N 0 [] 0%N 0 n).

Definition depsOf (l : list ptr) : TinySet ptr :=
  foldl (TinySet.insert MaxFastSize) TinySet.empty l.

(** A render step with load actions [a], [numDraws] draws and the given
    commands and dependencies. *)
Definition sampleRender (fb : ptr) (a : VKRRenderPassAction.t) (numDraws : Z)
    (cmds : list VkRenderData) (deps : list ptr) (finalLayout : Z) : VKRStep :=
  mkStep VKRStepType.RENDER cmds [] (depsOf deps)
    (U_render (Render.mk fb a a a 0 0 0 numDraws 0 finalLayout)).

Definition sampleCopy (src dst : ptr) (deps : list ptr) : VKRStep :=
  mkStep VKRStepType.COPY [] [] (depsOf deps)
    (U_copy (Copy.mk src dst zeroRect (mkOffset2D 0 0) Vk.IMAGE_ASPECT_COLOR_BIT)).

Definition sampleBlit (src dst : ptr) : VKRStep :=
  mkStep VKRStepType.BLIT [] [] (depsOf [src])
    (U_blit (Blit.mk src dst zeroRect zeroRect Vk.IMAGE_ASPECT_COLOR_BIT 0)).

Definition heapOf (steps : list VKRStep) : gmap ptr VKRStep :=
  list_to_map (zip (N.of_nat <$> seq 1 (length steps)) steps).

Definition ptrsOf (steps : list VKRStep) : list ptr :=
  N.of_nat <$> seq 1 (length steps).

(** Three render passes onto framebuffer 7 with 2, 3 and 1 draws. *)
Definition frameThreeRenders : list VKRStep :=
  [ sampleRender 7 VKRRenderPassAction.KEEP 2 [sampleDraw 1; sampleDraw 2] []
      Vk.IMAGE_LAYOUT_COLOR_ATTACHMENT_OPTIMAL;
    sampleRender 7 VKRRenderPassAction.KEEP 3 [sampleDraw 3; sampleDraw 4; sampleDraw 5] []
      Vk.IMAGE_LAYOUT_COLOR_ATTACHMENT_OPTIMAL;
    sampleRender 7 VKRRenderPassAction.KEEP 1 [sampleDraw 6] []
      Vk.IMAGE_LAYOUT_COLOR_ATTACHMENT_OPTIMAL ].



(** copy, render(1), copy, blit, render(1), render(2): the alternation of
    copies and single-draw renders onto framebuffer 9 with a blit between
    two other framebuffers in the middle of it. *)
Definition frameCopiesWithBlit : list VKRStep :=
  [ sampleCopy 8 9 [8%N];
    sampleRender 9 VKRRenderPassAction.KEEP 1 [sampleDraw 1] []
      Vk.IMAGE_LAYOUT_COLOR_ATTACHMENT_OPTIMAL;
    sampleCopy 8 9 [8%N];
    sampleBlit 10 11;
    sampleRender 9 VKRRenderPassAction.KEEP 1 [sampleDraw 2] []
      Vk.IMAGE_LAYOUT_COLOR_ATTACHMENT_OPTIMAL;
    sampleRender 9 VKRRenderPassAction.KEEP 2 [sampleDraw 3; sampleDraw 4] []
      Vk.IMAGE_LAYOUT_COLOR_ATTACHMENT_OPTIMAL ].

(** depal(1), target(1), a single-draw render onto a third framebuffer,
    and two more steps. *)
Definition frameDepalThenOther : list VKRStep :=
  [ sampleRender 8 VKRRenderPassAction.DONT_CARE 1 [sampleDraw 1] []
      Vk.IMAGE_LAYOUT_COLOR_ATTACHMENT_OPTIMAL;
    sampleRender 9 VKRRenderPassAction.KEEP 1 [sampleDraw 2] []
      Vk.IMAGE_LAYOUT_COLOR_ATTACHMENT_OPTIMAL;
    sampleRender 12 VKRRenderPassAction.DONT_CARE 1 [sampleDraw 3] []
      Vk.IMAGE_LAYOUT_COLOR_ATTACHMENT_OPTIMAL;
    sampleCopy 8 9 [8%N];
    sampleCopy 8 9 [8%N] ].

Definition sampleImage (l : Z) : VKRImage := mkImage 1%N l Vk.FORMAT_R8G8B8A8_UNORM.

Definition sampleFramebuffer (colorLayout depthLayout : Z) : VKRFramebuffer :=
  mkFramebuffer 1%N 480 272 (sampleImage colorLayout)
    (mkImage 2%N depthLayout Vk.FORMAT_D24_UNORM_S8_UINT).

(** A world with the given framebuffers, hack bits and staging buffer. *)
Definition sampleWorld (fbs : list (ptr * VKRFramebuffer)) (hacks : Z)
    (mem buf : handle) (size : Z) : World N :=
  mkWorld (mkRunner ∅ mem buf size false hacks 0%N 0%N 0%N) (list_to_map fbs) 100%N [].

Definition sampleKey : RPKey :=
  mkRPKey VKRRenderPassAction.CLEAR VKRRenderPassAction.CLEAR VKRRenderPassAction.CLEAR
    Vk.IMAGE_LAYOUT_COLOR_ATTACHMENT_OPTIMAL Vk.IMAGE_LAYOUT_DEPTH_STENCIL_ATTACHMENT_OPTIMAL
    Vk.IMAGE_LAYOUT_COLOR_ATTACHMENT_OPTIMAL.

(** A world whose framebuffer 7 has the given color layout. *)
Definition worldWithColorLayout (l : Z) : World N :=
  sampleWorld [(7%N, sampleFramebuffer l Vk.IMAGE_LAYOUT_DEPTH_STENCIL_ATTACHMENT_OPTIMAL)]
    0 0%N 0%N 0.

(** An empty render pass onto framebuffer 7 that keeps everything. *)
Definition emptyKeepStep : VKRStep :=
  sampleRender 7 VKRRenderPassAction.KEEP 0 [] [] Vk.IMAGE_LAYOUT_COLOR_ATTACHMENT_OPTIMAL.

(** A clearing render pass onto framebuffer 7 with one draw, to be left
    in the shader-read layout. *)
Definition drawStep : VKRStep :=
  sampleRender 7 VKRRenderPassAction.CLEAR 1 [sampleDraw 1] []
    Vk.IMAGE_LAYOUT_SHADER_READ_ONLY_OPTIMAL.

(** A readback of a 100 by 100 region of framebuffer 7. *)
Definition readbackStep : VKRStep :=
  mkStep VKRStepType.READBACK [] [] (depsOf [7%N])
    (U_readback (Readback.mk Vk.IMAGE_ASPECT_COLOR_BIT 7%N
                   (mkRect2D (mkOffset2D 0 0) (mkExtent2D 100 100)))).

(** An empty render pass onto [fb] that only clears, with the given clear
    values. *)
Definition sampleClear (fb : ptr) (color : Z) (depth : float) (stencil : Z) : VKRStep :=
  mkStep VKRStepType.RENDER [] [] (depsOf [])
    (U_render (Render.mk fb VKRRenderPassAction.CLEAR VKRRenderPassAction.CLEAR
                 VKRRenderPassAction.CLEAR color depth stencil 0 0
                 Vk.IMAGE_LAYOUT_COLOR_ATTACHMENT_OPTIMAL)).

(** A clear of framebuffer 7, a render pass onto framebuffer 8, and a
    render pass onto framebuffer 7 that keeps its contents. *)
Definition frameClearThenRenders : list VKRStep :=
  [ sampleClear 7 0xFF102030 0x3F800000 5;
    sampleRender 8 VKRRenderPassAction.KEEP 1 [sampleDraw 1] []
      Vk.IMAGE_LAYOUT_COLOR_ATTACHMENT_OPTIMAL;
    sampleRender 7 VKRRenderPassAction.KEEP 1 [sampleDraw 2] []
      Vk.IMAGE_LAYOUT_COLOR_ATTACHMENT_OPTIMAL ].

(** A clear of framebuffer 7, a copy out of it, and a render pass onto it. *)
Definition frameClearCopyRender : list VKRStep :=
  [ sampleClear 7 0xFF102030 0x3F800000 5;
    sampleCopy 7 9 [7%N];
    sampleRender 7 VKRRenderPassAction.KEEP 1 [sampleDraw 1] []
      Vk.IMAGE_LAYOUT_COLOR_ATTACHMENT_OPTIMAL ].

(** A framebuffer with images of its own, in the attachment layouts. *)
Definition sampleFramebufferAt (n : N) : VKRFramebuffer :=
  mkFramebuffer n 480 272
    (mkImage (10 * n)%N Vk.IMAGE_LAYOUT_COLOR_ATTACHMENT_OPTIMAL Vk.FORMAT_R8G8B8A8_UNORM)
    (mkImage (10 * n + 1)%N Vk.IMAGE_LAYOUT_DEPTH_STENCIL_ATTACHMENT_OPTIMAL
       Vk.FORMAT_D24_UNORM_S8_UINT).

(** A world with framebuffers 7, 8 and 9 and no staging buffer. *)
Definition threeFramebufferWorld (hacks : Z) : World N :=
  sampleWorld [(7%N, sampleFramebufferAt 7); (8%N, sampleFramebufferAt 8);
               (9%N, sampleFramebufferAt 9)] hacks 0%N 0%N 0.

(** A copy and a blit of color and depth from framebuffer 7 to 9. *)
Definition copyColorDepth : VKRStep :=
  mkStep VKRStepType.COPY [] [] (depsOf [7%N])
    (U_copy (Copy.mk 7%N 9%N zeroRect (mkOffset2D 0 0)
               (Z.lor Vk.IMAGE_ASPECT_COLOR_BIT Vk.IMAGE_ASPECT_DEPTH_BIT))).


(** A render pass onto framebuffer 7, a copy out of it and a readback. *)
Definition frameRenderCopyReadback : list VKRStep :=
  [ drawStep; sampleCopy 7 9 [7%N]; readbackStep ].

(** render(3), render(1), render(6), render(1) alternating between
    framebuffers 7 and 8, followed by a render pass onto framebuffer 9. *)
Definition frameSonic : list VKRStep :=
  [ sampleRender 7 VKRRenderPassAction.KEEP 3 (sampleDraw <$> [1; 2; 3]) []
      Vk.IMAGE_LAYOUT_COLOR_ATTACHMENT_OPTIMAL;
    sampleRender 8 VKRRenderPassAction.KEEP 1 [sampleDraw 4] []
      Vk.IMAGE_LAYOUT_COLOR_ATTACHMENT_OPTIMAL;
    sampleRender 7 VKRRenderPassAction.KEEP 6 (sampleDraw <$> [5; 6; 7; 8; 9; 10]) []
      Vk.IMAGE_LAYOUT_COLOR_ATTACHMENT_OPTIMAL;
    sampleRender 8 VKRRenderPassAction.KEEP 1 [sampleDraw 11] []
      Vk.IMAGE_LAYOUT_COLOR_ATTACHMENT_OPTIMAL;
    sampleRender 9 VKRRenderPassAction.KEEP 1 [sampleDraw 12] []
      Vk.IMAGE_LAYOUT_COLOR_ATTACHMENT_OPTIMAL ].

(** Two render passes onto framebuffer 7 around a render pass onto
    framebuffer 8 and a render pass onto 7 that reads framebuffer 8. *)
Definition frameReadsTouched : list VKRStep :=
  [ sampleRender 7 VKRRenderPassAction.KEEP 1 [sampleDraw 1] []
      Vk.IMAGE_LAYOUT_COLOR_ATTACHMENT_OPTIMAL;
    sampleRender 8 VKRRenderPassAction.KEEP 1 [sampleDraw 2] []
      Vk.IMAGE_LAYOUT_COLOR_ATTACHMENT_OPTIMAL;
    sampleRender 7 VKRRenderPassAction.KEEP 1 [sampleDraw 3] [8%N]
      Vk.IMAGE_LAYOUT_COLOR_ATTACHMENT_OPTIMAL;
    sampleRender 7 VKRRenderPassAction.KEEP 1 [sampleDraw 4] []
      Vk.IMAGE_LAYOUT_COLOR_ATTACHMENT_OPTIMAL ].

(** A render pass onto framebuffer 7 that first asks for framebuffer 8 to
    be readable by shaders. *)
Definition texturingStep : VKRStep :=
  mkStep VKRStepType.RENDER [sampleDraw 1]
    [mkTransitionRequest 8%N Vk.IMAGE_LAYOUT_SHADER_READ_ONLY_OPTIMAL] (depsOf [8%N])
    (U_render (Render.mk 7%N VKRRenderPassAction.KEEP VKRRenderPassAction.KEEP
                 VKRRenderPassAction.KEEP 0 0 0 1 0
                 Vk.IMAGE_LAYOUT_COLOR_ATTACHMENT_OPTIMAL)).

(** A clearing render pass onto framebuffer 7 with one draw that was
    recorded without a final color layout. *)
Definition undefinedLayoutStep : VKRStep :=
  sampleRender 7 VKRRenderPassAction.CLEAR 1 [sampleDraw 1] [] Vk.IMAGE_LAYOUT_UNDEFINED.

(** An indexed draw of 6 indices with the given instance count. *)
Definition sampleDrawIndexed (instances : Z) : VkRenderData :=
  RdDrawIndexed (mkDrawIndexedArgs 0%N 0%N 0 [] 0%N 0 0%N 0 6 instances 0).

(** A render pass onto framebuffer 7 with one indexed draw whose instance
    count is -1. *)
Definition negativeInstancesStep : VKRStep :=
  sampleRender 7 VKRRenderPassAction.KEEP 1 [sampleDrawIndexed (-1)] []
    Vk.IMAGE_LAYOUT_COLOR_ATTACHMENT_OPTIMAL.

(** A scissor rectangle left of the display. *)
Definition scissorLeftOfDisplay : VkRenderData :=
  RdScissor (mkRect2D (mkOffset2D (-1) 0) (mkExtent2D 10 10)).

(** * Properties *)

Section Properties.
Context {G : Type} {env : Env G}.
Import VKRStepType.

(** ** The step heap *)

Lemma upd_eq p f (h : gmap ptr VKRStep) : upd p f h !!! p = f (h !!! p).
Proof. unfold upd. apply lookup_total_insert_eq. Qed.

Lemma upd_ne p q f (h : gmap ptr VKRStep) : p ≠ q → upd p f h !!! q = h !!! q.
Proof. intros Hne. unfold upd. by apply lookup_total_insert_ne. Qed.

Lemma fbCommands_cons fb h p l :
  fbCommands fb h (p :: l)
  = (if rendersTo fb (h !!! p) then commands (h !!! p) else []) ++ fbCommands fb h l.
Proof. reflexivity. Qed.

Lemma fbCommands_ext fb (h1 h2 : gmap ptr VKRStep) l :
  (∀ p, p ∈ l → h1 !!! p = h2 !!! p) → fbCommands fb h1 l = fbCommands fb h2 l.
Proof.
  induction l as [|p l IH]; intros Hagree; [done|].
  rewrite !fbCommands_cons, (Hagree p), IH; [done| |]; set_solver.
Qed.

(** ** The generic merge pass *)

Lemma absorb_other pi pj h q : q ≠ pi → q ≠ pj → absorb pi pj h !!! q = h !!! q.
Proof.
  intros Hi Hj. unfold absorb.
  rewrite upd_ne by done. rewrite upd_ne by done. by rewrite upd_ne.
Qed.


Lemma absorb_source pi pj h :
  pi ≠ pj → absorb pi pj h !!! pj = set_stepType RENDER_SKIP (h !!! pj).
Proof.
  intros Hne. unfold absorb. rewrite upd_eq.
  rewrite upd_ne by done. by rewrite upd_ne by done.
Qed.











(** The shape of what happens to a single step object. *)










(** ** The render-pass cache *)

Lemma obind_Done {A B} (m : Outcome A) (k : A → Outcome B) b :
  obind m k = Done b → ∃ a, m = Done a ∧ k a = Done b.
Proof. destruct m as [a|]; [eauto|done]. Qed.

Lemma check_Done e c what : check e c what = Done tt → e = false ∨ c = true.
Proof. unfold check. destruct e, c; simpl; auto; done. Qed.

Lemma GetRenderPass_cached key (w : World G) :
  DenseHashMap_Get (renderPasses_ (qr w)) key ≠ VK_NULL_HANDLE →
  GetRenderPass key w = Done (DenseHashMap_Get (renderPasses_ (qr w)) key, w).
Proof.
  intros Hne. unfold GetRenderPass.
  apply N.eqb_neq in Hne. by rewrite Hne.
Qed.

Lemma renderPassesCreated_emit c (w : World G) :
  renderPassesCreated (emit c w)
  = (renderPassesCreated w + (if isCreateRenderPass c then 1 else 0))%nat.
Proof.
  unfold renderPassesCreated, emit. simpl.
  rewrite List.filter_app, length_app. simpl. by destruct (isCreateRenderPass c).
Qed.

(** C3. [GetRenderPass] is idempotent: when a call with [key] returns
    [pass], a second call with the same key returns the same handle and
    leaves the world (cache, device, trace) as it was, so that the two calls
    together create at most one hardware render pass; and a call whose key is
    already cached is a pure lookup. *)
Theorem GetRenderPass_idempotent key (w w1 : World G) pass :
  GetRenderPass key w = Done (pass, w1) →
  GetRenderPass key w1 = Done (pass, w1)
  ∧ (renderPassesCreated w1 ≤ renderPassesCreated w + 1)%nat
  ∧ (DenseHashMap_Get (renderPasses_ (qr w)) key ≠ VK_NULL_HANDLE →
     w1 = w ∧ pass = DenseHashMap_Get (renderPasses_ (qr w)) key).
Proof.
  intros Hget. unfold GetRenderPass in Hget.
  destruct (negb (DenseHashMap_Get (renderPasses_ (qr w)) key =? VK_NULL_HANDLE)%N) eqn:Hhit.
  - injection Hget as <- <-.
    apply negb_true_iff, N.eqb_neq in Hhit.
    split; [by apply GetRenderPass_cached|]. split; [lia|done].
  - apply negb_false_iff, N.eqb_eq in Hhit.
    apply obind_Done in Hget as (rp & Hrp & Hget).
    apply obind_Done in Hget as ([] & Hres & Hget).
    apply obind_Done in Hget as ([] & Hpass & Hget).
    injection Hget as <- <-.
    apply check_Done in Hpass as [|Hpass]; [done|].
    apply negb_true_iff, N.eqb_neq in Hpass.
    split; [|split].
    + rewrite GetRenderPass_cached; simpl; unfold DenseHashMap_Get, DenseHashMap_Insert;
        rewrite lookup_insert_eq; simpl; done.
    + unfold renderPassesCreated. simpl.
      rewrite List.filter_app, length_app. simpl. lia.
    + intros Hne. by rewrite Hhit in Hne.
Qed.

(** ** Layout transitions *)

Lemma barriersEmitted_emit c (w : World G) :
  barriersEmitted (emit c w) = (barriersEmitted w + barrierCount c)%nat.
Proof.
  unfold barriersEmitted, emit. simpl.
  induction (trace w) as [|c' t IH]; simpl; [lia|]. rewrite IH. lia.
Qed.

Lemma imageOf_set_imageOf a img fb : imageOf a (set_imageOf a img fb) = img.
Proof. by destruct a. Qed.

Lemma fbAt_set_fb p fb (w : World G) : fbAt (set_fb p fb w) p = fb.
Proof. unfold fbAt, set_fb. simpl. apply lookup_total_insert_eq. Qed.

Lemma fbAt_set_fb_ne p q fb (w : World G) : p ≠ q → fbAt (set_fb p fb w) q = fbAt w q.
Proof. intros. unfold fbAt, set_fb. simpl. by apply lookup_total_insert_ne. Qed.

Lemma fbAt_emit c (w : World G) p : fbAt (emit c w) p = fbAt w p.
Proof. reflexivity. Qed.

Lemma set_imageLayout_layout p a l (w : World G) :
  layout (imageOf a (fbAt (set_imageLayout p a l w) p)) = l.
Proof. unfold set_imageLayout. by rewrite fbAt_set_fb, imageOf_set_imageOf. Qed.

Lemma transferRequest_spec setup newLayout from dstAccess what p a aspect
    (w w1 : World G) bs bs1 st st1 :
  setup = SetupTransition from dstAccess newLayout what →
  transferRequest setup newLayout p a aspect (w, bs, st) = Done (w1, bs1, st1) →
  layout (imageOf a (fbAt w1 p)) = newLayout
  ∧ trace w1 = trace w
  ∧ length bs1
    = (length bs + if (layout (imageOf a (fbAt w p)) =? newLayout)%Z then 0 else 1)%nat
  ∧ ∀ aspect' bs' st',
      transferRequest setup newLayout p a aspect' (w1, bs', st') = Done (w1, bs', st').
Proof.
  intros -> Hreq. unfold transferRequest in *. simpl in *.
  destruct (layout (imageOf a (fbAt w p)) =? newLayout) eqn:Hl; simpl in Hreq.
  - injection Hreq as <- <- <-. apply Z.eqb_eq in Hl.
    repeat split; [done|lia|]. intros. apply Z.eqb_eq in Hl. by rewrite Hl.
  - apply obind_Done in Hreq as (r & Hsetup & Hreq).
    unfold SetupTransition in Hsetup.
    apply obind_Done in Hsetup as (s & _ & Hsetup).
    injection Hsetup as <-. simpl in Hreq. injection Hreq as <- <- <-.
    assert (Hlay : layout (imageOf a (fbAt
              (set_fb p (set_imageOf a (set_layout newLayout (imageOf a (fbAt w p))) (fbAt w p)) w)
              p)) = newLayout).
    { by rewrite fbAt_set_fb, imageOf_set_imageOf. }
    repeat split; [done|rewrite length_app; simpl; lia|].
    intros. rewrite Hlay. by rewrite Z.eqb_refl.
Qed.

Lemma flushBarriers_count (w : World G) bs st :
  barriersEmitted (flushBarriers (w, bs, st)) = (barriersEmitted w + length bs)%nat.
Proof.
  unfold flushBarriers. simpl. destruct bs; [simpl; lia|].
  by rewrite barriersEmitted_emit.
Qed.

Lemma barriersEmitted_trace (w w' : World G) :
  trace w' = trace w → barriersEmitted w' = barriersEmitted w.
Proof. unfold barriersEmitted. by intros ->. Qed.

(** C4 (as amended). A transition request that the executor issues twice
    in a row for the same image and target layout records one barrier when
    the image was in another layout and none when it already was in the
    target layout: the first request leaves the layout tag at the target,
    and the second one changes nothing and records nothing. *)
Theorem requestTransition_twice (s : TransitionSite) (w w1 : World G) :
  requestTransition s w = Done w1 →
  layout (siteImage s w1) = siteTarget s
  ∧ barriersEmitted w1
    = (barriersEmitted w + if (layout (siteImage s w) =? siteTarget s)%Z then 0 else 1)%nat
  ∧ requestTransition s w1 = Done w1.
Proof.
  destruct s as [p a aspect|p a aspect|iter]; simpl; intros Hreq.
  - apply obind_Done in Hreq as ([[w' bs] st] & Hreq & Hw1). injection Hw1 as <-.
    eapply transferRequest_spec in Hreq as (Hl & Htr & Hlen & Hagain); [|reflexivity].
    assert (Hl' : layout (imageOf a (fbAt (flushBarriers (w', bs, st)) p))
                  = Vk.IMAGE_LAYOUT_TRANSFER_SRC_OPTIMAL).
    { unfold flushBarriers. simpl. by destruct bs. }
    split; [done|]. split.
    + rewrite flushBarriers_count, (barriersEmitted_trace w w') by done.
      simpl in Hlen. lia.
    + unfold requestTransferSrc, transferRequest. simpl. rewrite Hl'. done.
  - apply obind_Done in Hreq as ([[w' bs] st] & Hreq & Hw1). injection Hw1 as <-.
    eapply transferRequest_spec in Hreq as (Hl & Htr & Hlen & Hagain); [|reflexivity].
    assert (Hl' : layout (imageOf a (fbAt (flushBarriers (w', bs, st)) p))
                  = Vk.IMAGE_LAYOUT_TRANSFER_DST_OPTIMAL).
    { unfold flushBarriers. simpl. by destruct bs. }
    split; [done|]. split.
    + rewrite flushBarriers_count, (barriersEmitted_trace w w') by done.
      simpl in Hlen. lia.
    + unfold requestTransferDst, transferRequest. simpl. rewrite Hl'. done.
  - unfold preTransition in *.
    destruct (layout (fb_color (fbAt w (tr_fb iter))) =? tr_targetLayout iter) eqn:Hl;
      simpl in Hreq.
    + injection Hreq as <-. rewrite Hl. simpl.
      apply Z.eqb_eq in Hl. repeat split; [done|lia].
    + apply obind_Done in Hreq as (sb & _ & Hreq).
      apply obind_Done in Hreq as (db & _ & Hreq).
      injection Hreq as <-.
      pose proof (set_imageLayout_layout (tr_fb iter) ColorImage (tr_targetLayout iter)
        (emit (vkCmdPipelineBarrier sb.2 db.2
           [mkBarrier (image (fb_color (fbAt w (tr_fb iter))))
              (layout (fb_color (fbAt w (tr_fb iter)))) (tr_targetLayout iter)
              sb.1 db.1 Vk.IMAGE_ASPECT_COLOR_BIT]) w)) as Hlay.
      simpl in Hlay. split; [exact Hlay|]. split.
      * match goal with |- barriersEmitted (set_imageLayout _ _ _ ?w0) = _ =>
          rewrite (barriersEmitted_trace w0) by reflexivity end.
        rewrite barriersEmitted_emit. simpl. lia.
      * rewrite Hlay, Z.eqb_refl. done.
Qed.

(** ** The step executor *)

(** C5 (as amended). For a render step that targets an offscreen
    framebuffer and is not an empty pass that keeps color, depth and stencil
    (no commands, all three load actions KEEP), the color layout tag of the
    framebuffer after [PerformRenderPass] is the final color layout the step
    declares. *)
Theorem PerformRenderPass_final_layout (step : VKRStep) (w w1 : World G) :
  PerformRenderPass step w = Done w1 →
  Render.framebuffer (render step) ≠ nullptr →
  emptyKeepPass step = false →
  layout (fb_color (fbAt w1 (Render.framebuffer (render step))))
  = Render.finalColorLayout (render step).
Proof.
  intros Hrun Hfb Hkeep. unfold PerformRenderPass in Hrun.
  apply obind_Done in Hrun as (w' & _ & Hrun).
  rewrite Hkeep in Hrun.
  apply obind_Done in Hrun as (w3 & _ & Hrun).
  apply N.eqb_neq in Hfb. rewrite Hfb in Hrun. simpl in Hrun.
  apply obind_Done in Hrun as (st & _ & Hrun).
  injection Hrun as <-.
  apply (set_imageLayout_layout _ ColorImage).
Qed.

(** An empty pass that keeps everything only runs its pretransitions. *)
Lemma PerformRenderPass_empty_keep (step : VKRStep) (w : World G) :
  emptyKeepPass step = true →
  PerformRenderPass step w = ofoldl preTransition w (preTransitions step).
Proof.
  intros Hkeep. unfold PerformRenderPass. rewrite Hkeep.
  by destruct (ofoldl preTransition w (preTransitions step)).
Qed.

(** ** The readback staging buffer *)

Lemma createdBufferSizes_emit c (w : World G) :
  createdBufferSizes (emit c w)
  = createdBufferSizes w
    ++ match c with vkCreateBuffer_call size _ _ => [size] | _ => [] end.
Proof.
  unfold createdBufferSizes, emit. simpl. rewrite omap_app. f_equal.
  by destruct c.
Qed.

Lemma ResizeReadbackBuffer_noop requiredSize (w : World G) :
  readbackBuffer_ (qr w) ≠ VK_NULL_HANDLE →
  requiredSize ≤ readbackBufferSize_ (qr w) →
  ResizeReadbackBuffer requiredSize w = Done w.
Proof.
  intros Hbuf Hsize. unfold ResizeReadbackBuffer.
  apply N.eqb_neq in Hbuf. apply Z.leb_le in Hsize. by rewrite Hbuf, Hsize.
Qed.

Lemma ResizeReadbackBuffer_grow requiredSize (w w1 : World G) :
  readbackBuffer_ (qr w) = VK_NULL_HANDLE →
  ResizeReadbackBuffer requiredSize w = Done w1 →
  readbackBufferSize_ (qr w1) = requiredSize
  ∧ createdBufferSizes w1 = createdBufferSizes w ++ [requiredSize]
  ∧ fbs w1 = fbs w.
Proof.
  intros Hbuf Hrun. unfold ResizeReadbackBuffer in Hrun.
  cbv zeta in Hrun. rewrite Hbuf in Hrun.
  cbn [negb andb N.eqb VK_NULL_HANDLE] in Hrun.
  destruct (findMemoryType _ _) as [[reqs idx]|]; [|done].
  destruct (negb (readbackMemory_ (qr w) =? VK_NULL_HANDLE)%N);
    destruct (negb (_ =? Vk.SUCCESS)); injection Hrun as <-;
    (split; [done|]); (split; [|done]);
    unfold set_qr, createdBufferSizes; simpl;
    rewrite ?omap_app; simpl; by rewrite ?app_nil_r, <- ?app_assoc.
Qed.

Lemma readbackBytes_exact ext :
  0 ≤ ext_width ext → 0 ≤ ext_height ext → 4 * ext_width ext * ext_height ext < 2 ^ 64 →
  readbackBytes ext = 4 * ext_width ext * ext_height ext.
Proof.
  intros Hw Hh Hlt. unfold readbackBytes, size_t_wrap.
  destruct (Z.eq_dec (ext_height ext) 0) as [->|Hne].
  { rewrite !Z.mul_0_r. done. }
  assert (4 * ext_width ext < 2 ^ 64) by nia.
  rewrite (Z.mod_small (4 * ext_width ext)) by lia.
  apply Z.mod_small. lia.
Qed.

Lemma PerformReadback_qr (step : VKRStep) (w w1 : World G) :
  PerformReadback step w = Done w1 →
  ∃ w', ResizeReadbackBuffer (readbackBytes (extent (Readback.srcRect (readback step)))) w
        = Done w'
        ∧ qr w1 = qr w' ∧ createdBufferSizes w1 = createdBufferSizes w'.
Proof.
  intros Hrun. unfold PerformReadback in Hrun.
  apply obind_Done in Hrun as (w' & Hres & Hrun). exists w'. split; [done|].
  destruct (Readback.src (readback step) =? nullptr)%N.
  - injection Hrun as <-. split; [done|].
    rewrite !createdBufferSizes_emit. simpl. by rewrite !app_nil_r.
  - destruct (if has_bits _ _ then _ else _) as [a|].
    + apply obind_Done in Hrun as ([[w2 bs] st] & Hreq & Hrun). injection Hrun as <-.
      unfold requestTransferSrc, transferRequest in Hreq. simpl in Hreq.
      rewrite createdBufferSizes_emit. simpl. rewrite app_nil_r.
      destruct (negb _).
      * apply obind_Done in Hreq as (r & _ & Hreq). injection Hreq as <- <- _.
        simpl. rewrite createdBufferSizes_emit. simpl. by rewrite app_nil_r.
      * injection Hreq as <- <- _. done.
    + apply obind_Done in Hrun as ([] & _ & Hrun). by injection Hrun as <-.
Qed.

(** C8 (as amended). A readback step executed while there is no staging
    buffer creates one of exactly [sizeof(uint32_t) * width * height] bytes
    (the product as [size_t] computes it, which is [4 * width * height] as
    long as that fits 64 bits) and records that size as the capacity; and a
    resize request is a no-op, leaving buffer, capacity and everything else
    as they were, whenever a staging buffer exists and the capacity is at
    least the size asked for. *)
Theorem readback_staging_capacity :
  (∀ (step : VKRStep) (w w1 : World G),
     PerformReadback step w = Done w1 →
     readbackBuffer_ (qr w) = VK_NULL_HANDLE →
     let ext := extent (Readback.srcRect (readback step)) in
     readbackBufferSize_ (qr w1) = readbackBytes ext
     ∧ createdBufferSizes w1 = createdBufferSizes w ++ [readbackBytes ext]
     ∧ (0 ≤ ext_width ext → 0 ≤ ext_height ext →
        4 * ext_width ext * ext_height ext < 2 ^ 64 →
        readbackBytes ext = 4 * ext_width ext * ext_height ext))
  ∧ (∀ requiredSize (w : World G),
       readbackBuffer_ (qr w) ≠ VK_NULL_HANDLE →
       requiredSize ≤ readbackBufferSize_ (qr w) →
       ResizeReadbackBuffer requiredSize w = Done w).
Proof.
  split.
  - intros step w w1 Hrun Hbuf ext.
    apply PerformReadback_qr in Hrun as (w' & Hres & Hqr & Hcreated).
    apply ResizeReadbackBuffer_grow in Hres as (Hsize & Hsizes & _); [|done].
    rewrite Hqr, Hcreated. repeat split; try done.
    apply readbackBytes_exact.
  - apply ResizeReadbackBuffer_noop.
Qed.

(** C9 (as amended). With readback memory present and mapped, a format
    pair that [CopyReadbackBuffer] does not convert gets the error "Unknown
    format" logged and leaves the caller's pixels untouched; the call then
    returns where C [assert] is compiled out ([NDEBUG]) and stops the
    process in [assert(false)] where it is not. *)
Theorem CopyReadbackBuffer_unsupported width height srcFormat destFormat pixelStride
    (pixels : Z → Z) (w : World G) :
  supportedConversion srcFormat destFormat = false →
  readbackMemory_ (qr w) ≠ VK_NULL_HANDLE →
  (vkMapMemory env (gpu w) (readbackMemory_ (qr w))
     (mappedSize width height (DataFormatSizeInBytes env srcFormat))).1
  = Vk.SUCCESS →
  if NDEBUG env then
    ∃ w1, CopyReadbackBuffer width height srcFormat destFormat pixelStride pixels w
          = Done (pixels, w1)
          ∧ loggedErrors w1 = loggedErrors w ++ ["CopyReadbackBuffer: Unknown format"]
  else
    CopyReadbackBuffer width height srcFormat destFormat pixelStride pixels w
    = Stop (AssertFailed "false").
Proof.
  unfold supportedConversion. intros Hfmt Hmem Hmap.
  apply orb_false_iff in Hfmt as [Hfmt Hd32].
  apply orb_false_iff in Hfmt as [Hfmt Hsame].
  apply orb_false_iff in Hfmt as [Hrgba Hbgra].
  apply N.eqb_neq in Hmem.
  unfold CopyReadbackBuffer. rewrite Hmem, Hmap, Hrgba, Hbgra, Hsame, Hd32. simpl.
  destruct (NDEBUG env); simpl; [|done].
  eexists. split; [reflexivity|].
  unfold loggedErrors. simpl.
  destruct (negb (readbackBufferIsCoherent_ (qr w))); simpl;
    rewrite !omap_app; simpl; by rewrite ?app_nil_r, <- ?app_assoc.
Qed.

(** ** The final color layout through the optimizer *)

Lemma keeps_refl s : keeps s s.
Proof. by intros ?. Qed.

Lemma keeps_trans s1 s2 s3 : keeps s1 s2 → keeps s2 s3 → keeps s1 s3.
Proof.
  intros H12 H23 Hty. destruct (H23 Hty) as (Hty2 & Hfb & Hfl).
  destruct (H12 Hty2) as (Hty1 & Hfb' & Hfl'). repeat split; congruence.
Qed.

Lemma keeps_defined s s' : keeps s s' → finalLayoutDefined s → finalLayoutDefined s'.
Proof.
  intros Hk Hd Hty. destruct (Hk Hty) as (Hty' & -> & ->). by apply Hd.
Qed.

Lemma hkeeps_refl h : hkeeps h h.
Proof. intros p. apply keeps_refl. Qed.

Lemma hkeeps_trans h1 h2 h3 : hkeeps h1 h2 → hkeeps h2 h3 → hkeeps h1 h3.
Proof. intros H12 H23 p. eapply keeps_trans; [apply H12|apply H23]. Qed.

Lemma hkeeps_step h h' p f : hkeeps h h' → benign f → hkeeps h (upd p f h').
Proof.
  intros Hk Hf q. destruct (decide (p = q)) as [<-|Hne].
  - rewrite upd_eq. eapply keeps_trans; [apply Hk|apply Hf].
  - rewrite upd_ne by done. apply Hk.
Qed.

Lemma benign_skip : benign (set_stepType RENDER_SKIP).
Proof. intros s Hty. done. Qed.

Lemma benign_commands g : benign (λ s, set_commands (g s) s).
Proof. intros s Hty. done. Qed.

Lemma benign_preTransitions g : benign (λ s, set_preTransitions (g s) s).
Proof. intros s Hty. done. Qed.

Lemma benign_render f :
  (∀ r, Render.framebuffer (f r) = Render.framebuffer r
        ∧ Render.finalColorLayout (f r) = Render.finalColorLayout r) →
  benign (set_render f).
Proof.
  intros Hf s Hty. split; [done|]. unfold set_render, render at 1 3. simpl. apply Hf.
Qed.

Create HintDb keeps.
#[local] Hint Resolve hkeeps_refl benign_skip benign_commands benign_preTransitions : keeps.
#[local] Hint Extern 1 (benign (set_render _)) => (apply benign_render; by intros []) : keeps.

Ltac keeps_steps :=
  repeat first
    [ apply hkeeps_refl
    | assumption
    | apply hkeeps_step; [|solve [auto with keeps]]
    | match goal with |- hkeeps _ (if ?c then _ else _) => destruct c end ].

Lemma foldClear_keeps pj pi h0 h : hkeeps h0 h → hkeeps h0 (foldClear pj pi h).
Proof. intros Hk. unfold foldClear. cbv zeta. keeps_steps. Qed.

Lemma clearScan_keeps rest : ∀ pj h0 h, hkeeps h0 h → hkeeps h0 (clearScan pj h rest).
Proof.
  induction rest as [|pi rest IH]; intros pj h0 h Hk; [done|]. simpl.
  destruct (_ && _); [by apply foldClear_keeps|].
  destruct (_ && _); [done|]. by apply IH.
Qed.

Lemma clearPass_keeps vec : ∀ h0 h, hkeeps h0 h → hkeeps h0 (clearPass h vec).
Proof.
  induction vec as [|pj rest IH]; intros h0 h Hk; [done|]. simpl.
  destruct rest as [|pi rest]; [done|]. apply IH.
  destruct (isEmptyClear _); [|done]. by apply clearScan_keeps.
Qed.

Lemma absorb_keeps pi pj h0 h : hkeeps h0 h → hkeeps h0 (absorb pi pj h).
Proof. intros Hk. unfold absorb. cbv zeta. keeps_steps. Qed.

Lemma mergeScan_keeps js : ∀ fb pi t h0 h, hkeeps h0 h → hkeeps h0 (mergeScan fb pi t h js).
Proof.
  induction js as [|pj js IH]; intros fb pi t h0 h Hk; [done|]. simpl.
  destruct (stepType (h !!! pj)); try (by apply IH).
  - destruct (TinySet.contains _ fb); [done|].
    destruct (TinySet.containsSet _ t); [done|].
    apply IH. destruct (_ =? fb)%N; [|done]. by apply absorb_keeps.
  - destruct (_ || _); [done|]. by apply IH.
  - destruct (_ || _); [done|]. by apply IH.
  - destruct (_ =? fb)%N; [done|]. by apply IH.
Qed.

Lemma mergeLoop_keeps vec : ∀ counts h0 h, hkeeps h0 h → hkeeps h0 (mergeLoop counts h vec).
Proof.
  induction vec as [|pi rest IH]; intros counts h0 h Hk; [done|]. simpl.
  apply IH. destruct (_ && _); [|done]. by apply mergeScan_keeps.
Qed.

Lemma ofoldl_invariant {A B} (R : A → A → Prop) (f : A → B → Outcome A) l :
  (∀ a0 a b a', R a0 a → f a b = Done a' → R a0 a') →
  ∀ a0 a a', R a0 a → ofoldl f a l = Done a' → R a0 a'.
Proof.
  intros Hf. induction l as [|b l IH]; intros a0 a a' HR Hrun; simpl in Hrun.
  - by injection Hrun as <-.
  - apply obind_Done in Hrun as (a1 & Hstep & Hrun). eauto.
Qed.

Lemma pushCommands_keeps keep pdst psrc h0 h h' :
  hkeeps h0 h → pushCommands keep pdst psrc h = Done h' → hkeeps h0 h'.
Proof.
  intros Hk Hrun. unfold pushCommands in Hrun.
  destruct (_ && _); [done|]. injection Hrun as <-. keeps_steps.
Qed.

Lemma combineGroup_keeps vec group base h0 h h' :
  hkeeps h0 h → combineGroup vec group base h = Done h' → hkeeps h0 h'.
Proof.
  unfold combineGroup. apply ofoldl_invariant.
  intros a0 a j a' Hk Hrun.
  apply obind_Done in Hrun as (h1 & Hpush & Hrun). injection Hrun as <-.
  apply (pushCommands_keeps _ _ _ a0) in Hpush; [|done]. keeps_steps.
Qed.

Lemma mgsDepalCombine_keeps vec into start limit h0 h h' :
  hkeeps h0 h → mgsDepalCombine vec into start limit h = Done h' → hkeeps h0 h'.
Proof.
  unfold mgsDepalCombine. apply ofoldl_invariant.
  intros a0 a j a' Hk Hrun.
  apply obind_Done in Hrun as (h1 & Hpush & Hrun). injection Hrun as <-.
  apply (pushCommands_keeps _ _ _ a0) in Hpush; [|done]. keeps_steps.
Qed.

(** The two fusions only move pointers of the vector around. *)

Lemma elem_of_list_inserts {A} (k l : list A) : ∀ i x,
  x ∈ list_inserts i k l → x ∈ k ∨ x ∈ l.
Proof.
  induction k as [|y k IH]; intros i x Hx; simpl in Hx; [by right|].
  apply list_elem_of_lookup in Hx as [j Hj].
  destruct (decide (i = j)) as [->|Hne].
  - destruct (decide (j < length (list_inserts (S j) k l))%nat) as [Hlt|Hge].
    + rewrite list_lookup_insert_eq in Hj by done. injection Hj as <-. left. set_solver.
    + rewrite list_insert_ge in Hj by lia.
      apply list_elem_of_lookup_2, IH in Hj as [?|?]; [left; set_solver|by right].
  - rewrite list_lookup_insert_ne in Hj by done.
    apply list_elem_of_lookup_2, IH in Hj as [?|?]; [left; set_solver|by right].
Qed.

Lemma window_subseteq vec i last x : x ∈ window vec i last → x ∈ vec.
Proof.
  unfold window. intros Hx.
  by apply subseteq_take, subseteq_drop in Hx.
Qed.

Lemma filter_window_subseteq f vec i last x :
  x ∈ List.filter f (window vec i last) → x ∈ vec.
Proof.
  intros Hx. apply list_elem_of_In, List.filter_In in Hx as [Hx _].
  by apply list_elem_of_In, window_subseteq in Hx.
Qed.

Lemma regroup_subseteq f g vec i j last x :
  x ∈ list_inserts j (List.filter g (window vec i last))
        (list_inserts i (List.filter f (window vec i last)) vec) →
  x ∈ vec.
Proof.
  intros Hx. apply elem_of_list_inserts in Hx as [Hx|Hx].
  - by apply filter_window_subseteq in Hx.
  - apply elem_of_list_inserts in Hx as [Hx|Hx]; [|done].
    by apply filter_window_subseteq in Hx.
Qed.

Lemma mgsCopyRewrite_keeps h0 h vec i last vec' h' :
  hkeeps h0 h → mgsCopyRewrite h vec i last = Done (vec', h') →
  hkeeps h0 h' ∧ vec' ⊆ vec.
Proof.
  intros Hk Hrun. unfold mgsCopyRewrite in Hrun. cbv zeta in Hrun.
  apply obind_Done in Hrun as ([] & _ & Hrun).
  apply obind_Done in Hrun as (h1 & Hcomb & Hrun). injection Hrun as <- <-.
  split; [by eapply combineGroup_keeps|].
  intros x. apply regroup_subseteq.
Qed.

Lemma mgsCopyLoop_keeps n : ∀ i h0 h vec vec' h',
  hkeeps h0 h → mgsCopyLoop n i vec h = Done (vec', h') →
  hkeeps h0 h' ∧ vec' ⊆ vec.
Proof.
  induction n as [|n IH]; intros i h0 h vec vec' h' Hk Hrun; simpl in Hrun.
  { by injection Hrun as <- <-. }
  destruct (mgsCopyHead h vec i); [|by eapply IH].
  destruct (negb _); [by eapply mgsCopyRewrite_keeps|by eapply IH].
Qed.

Lemma mgsDepalLoop_keeps n : ∀ i h0 h vec h',
  hkeeps h0 h → mgsDepalLoop n i vec h = Done h' → hkeeps h0 h'.
Proof.
  induction n as [|n IH]; intros i h0 h vec h' Hk Hrun; simpl in Hrun.
  { by injection Hrun as <-. }
  destruct (mgsDepalHead h vec i); [|by eapply IH].
  destruct (_ =? -1); [by eapply IH|].
  apply obind_Done in Hrun as (h1 & Hc1 & Hc2).
  eapply mgsDepalCombine_keeps; [|exact Hc2].
  by eapply mgsDepalCombine_keeps.
Qed.

Lemma ApplyMGSHack_keeps h0 h vec vec' h' :
  hkeeps h0 h → ApplyMGSHack vec h = Done (vec', h') → hkeeps h0 h' ∧ vec' ⊆ vec.
Proof.
  intros Hk Hrun. unfold ApplyMGSHack in Hrun.
  apply obind_Done in Hrun as ([vec1 h1] & Hcopy & Hrun).
  apply obind_Done in Hrun as (h2 & Hdepal & Hrun). injection Hrun as <- <-.
  eapply mgsCopyLoop_keeps in Hcopy as [Hk1 Hsub]; [|done].
  split; [|done]. by eapply mgsDepalLoop_keeps.
Qed.

Lemma sonicRewrite_keeps h0 h vec i last vec' h' :
  hkeeps h0 h → sonicRewrite h vec i last = Done (vec', h') →
  hkeeps h0 h' ∧ vec' ⊆ vec.
Proof.
  intros Hk Hrun. unfold sonicRewrite in Hrun. cbv zeta in Hrun.
  apply obind_Done in Hrun as (h1 & Hc1 & Hrun).
  apply obind_Done in Hrun as (h2 & Hc2 & Hrun). injection Hrun as <- <-.
  split.
  - eapply combineGroup_keeps; [|exact Hc2]. by eapply combineGroup_keeps.
  - intros x. apply regroup_subseteq.
Qed.

Lemma sonicLoop_keeps n : ∀ i h0 h vec vec' h',
  hkeeps h0 h → sonicLoop n i vec h = Done (vec', h') →
  hkeeps h0 h' ∧ vec' ⊆ vec.
Proof.
  induction n as [|n IH]; intros i h0 h vec vec' h' Hk Hrun; simpl in Hrun.
  { by injection Hrun as <- <-. }
  destruct (sonicHead h vec i); [|by eapply IH].
  destruct (negb _); [by eapply sonicRewrite_keeps|by eapply IH].
Qed.

Lemma applyQueueHacks_keeps hacks h0 h vec vec' h' :
  hkeeps h0 h → applyQueueHacks hacks vec h = Done (vec', h') →
  hkeeps h0 h' ∧ vec' ⊆ vec.
Proof.
  intros Hk Hrun. unfold applyQueueHacks in Hrun.
  destruct (negb (hacks =? 0)); [|by injection Hrun as <- <-].
  apply obind_Done in Hrun as ([vec1 h1] & Hmgs & Hrun).
  apply obind_Done in Hrun as ([vec2 h2] & Hsonic & Hrun).
  assert (hkeeps h0 h1 ∧ vec1 ⊆ vec) as [Hk1 Hs1].
  { destruct (has_bits hacks QUEUE_HACK_MGS2_ACID).
    - by eapply ApplyMGSHack_keeps.
    - by injection Hmgs as <- <-. }
  assert (hkeeps h0 h2 ∧ vec2 ⊆ vec1) as [Hk2 Hs2].
  { destruct (has_bits hacks QUEUE_HACK_SONIC).
    - eapply sonicLoop_keeps; [exact Hk1|exact Hsonic].
    - by injection Hsonic as <- <-. }
  simpl in Hrun.
  destruct (has_bits hacks QUEUE_HACK_RENDERPASS_MERGE); injection Hrun as <- <-.
  - split; [by apply mergeLoop_keeps|set_solver].
  - split; [done|set_solver].
Qed.

Lemma defaultFinalLayout_defined s : finalLayoutDefined (defaultFinalLayout s).
Proof.
  unfold defaultFinalLayout, finalLayoutDefined.
  destruct (is_type RENDER s) eqn:Hty; simpl.
  - destruct (negb _) eqn:Hfb; simpl.
    + destruct (_ =? Vk.IMAGE_LAYOUT_UNDEFINED) eqn:Hfl; simpl.
      * intros _ _. done.
      * intros _ _. by apply Z.eqb_neq in Hfl.
    + intros _ Hne. apply negb_false_iff, N.eqb_eq in Hfb. done.
  - intros Hr. unfold is_type in Hty. by apply bool_decide_eq_false in Hty.
Qed.

Lemma defaultFinalLayouts_defined vec : ∀ h p,
  (p ∈ vec ∨ finalLayoutDefined (h !!! p)) →
  finalLayoutDefined (defaultFinalLayouts h vec !!! p).
Proof.
  unfold defaultFinalLayouts.
  induction vec as [|q vec IH]; intros h p Hp; simpl.
  { destruct Hp as [Hp|Hp]; [by apply elem_of_nil in Hp|done]. }
  apply IH.
  destruct (decide (q = p)) as [->|Hne].
  - right. rewrite upd_eq. apply defaultFinalLayout_defined.
  - rewrite upd_ne by done. destruct Hp as [Hp|Hp]; [|by right].
    apply elem_of_cons in Hp as [->|Hp]; [done|by left].
Qed.

(** ** The executor's assertion on the final color layout *)

Lemma passes_Done {A} (a : A) : passesFinalLayoutAssertion (Done a).
Proof. done. Qed.

Lemma passes_bind {A B} (m : Outcome A) (k : A → Outcome B) :
  passesFinalLayoutAssertion m →
  (∀ a, m = Done a → passesFinalLayoutAssertion (k a)) →
  passesFinalLayoutAssertion (obind m k).
Proof.
  destruct m as [a|why]; simpl;
    [|intros Hm _ Heq; apply Hm; injection Heq as ->; done].
  intros _ Hk. by apply Hk.
Qed.

Lemma passes_Stop_other {A} what :
  what ≠ finalLayoutAssertion → passesFinalLayoutAssertion (@Stop A (AssertFailed what)).
Proof. intros Hne Heq. by injection Heq. Qed.

Lemma passes_check_other e c what :
  what ≠ finalLayoutAssertion → passesFinalLayoutAssertion (check e c what).
Proof.
  intros Hne. unfold check. destruct (e && negb c); [by apply passes_Stop_other|done].
Qed.

Lemma passes_check_true e what : passesFinalLayoutAssertion (check e true what).
Proof. unfold check. by rewrite andb_false_r. Qed.

Lemma passes_ofoldl {A B} (f : A → B → Outcome A) l :
  (∀ a b, b ∈ l → passesFinalLayoutAssertion (f a b)) →
  ∀ a, passesFinalLayoutAssertion (ofoldl f a l).
Proof.
  induction l as [|b l IH]; intros Hf a; simpl; [done|].
  apply passes_bind; [apply Hf; set_solver|].
  intros a' _. apply IH. intros a'' b' Hb'. apply Hf. set_solver.
Qed.

Lemma switchBits_passes bits what :
  what ≠ finalLayoutAssertion → passesFinalLayoutAssertion (switchBits bits what).
Proof.
  intros Hne. unfold switchBits. destruct bits; [done|].
  apply passes_bind; [by apply passes_check_other|done].
Qed.

Lemma GetRenderPass_passes key (w : World G) :
  passesFinalLayoutAssertion (GetRenderPass key w).
Proof.
  unfold GetRenderPass, renderPassCreateInfo. cbv zeta.
  destruct (negb _); [done|].
  repeat (apply passes_bind;
          [first [apply switchBits_passes; unfold finalLayoutAssertion; discriminate
                 |apply passes_check_other; unfold finalLayoutAssertion; discriminate
                 |idtac]
          |intros ? ?]); try done.
Qed.

Lemma PerformBindFramebufferAsRenderTarget_passes (step : VKRStep) (w : World G) :
  stepType step = RENDER → finalLayoutDefined step →
  passesFinalLayoutAssertion (PerformBindFramebufferAsRenderTarget step w).
Proof.
  intros Hty Hdef. unfold PerformBindFramebufferAsRenderTarget. cbv zeta.
  destruct (negb (Render.framebuffer (render step) =? nullptr)%N) eqn:Hfb; [|done].
  apply negb_true_iff, N.eqb_neq in Hfb.
  specialize (Hdef Hty Hfb). apply Z.eqb_neq in Hdef. rewrite Hdef. simpl.
  apply passes_bind; [apply passes_check_true|]. intros _ _.
  apply passes_bind; [apply GetRenderPass_passes|done].
Qed.

Lemma preTransition_passes (w : World G) iter :
  passesFinalLayoutAssertion (preTransition w iter).
Proof.
  unfold preTransition, assertBits. cbv zeta.
  destruct (negb _); [|done].
  destruct (preTransitionSrc _); simpl;
    [|apply passes_Stop_other; unfold finalLayoutAssertion; discriminate].
  destruct (preTransitionDst _); simpl;
    [done|apply passes_Stop_other; unfold finalLayoutAssertion; discriminate].
Qed.

Lemma replayCommand_passes fb cw ch (st : ReplayState * World G) c :
  passesFinalLayoutAssertion (replayCommand fb cw ch st c).
Proof.
  destruct c; unfold replayCommand; cbv zeta; try done.
  - by destruct (negb _).
  - by destruct (negb _).
  - destruct (negb _); [done|].
    apply passes_bind; [by apply passes_check_other|]. intros _ _.
    apply passes_bind; [by apply passes_check_other|done].
  - by destruct (_ ++ _).
Qed.

Lemma PerformRenderPass_passes (step : VKRStep) (w : World G) :
  stepType step = RENDER → finalLayoutDefined step →
  passesFinalLayoutAssertion (PerformRenderPass step w).
Proof.
  intros Hty Hdef. unfold PerformRenderPass. cbv zeta.
  apply passes_bind; [apply passes_ofoldl; intros; apply preTransition_passes|].
  intros w1 _. destruct (emptyKeepPass step); [done|].
  apply passes_bind; [by apply PerformBindFramebufferAsRenderTarget_passes|].
  intros w3 _.
  apply passes_bind; [apply passes_ofoldl; intros; apply replayCommand_passes|done].
Qed.

Lemma SetupTransition_passes from dstAccess newLayout what img stage aspect :
  what ≠ finalLayoutAssertion →
  passesFinalLayoutAssertion (SetupTransition from dstAccess newLayout what img stage aspect).
Proof.
  intros Hne. unfold SetupTransition.
  apply passes_bind; [by apply switchBits_passes|done].
Qed.

Lemma requestTransferSrc_passes p a aspect (st : World G * list VkImageMemoryBarrier * Z) :
  passesFinalLayoutAssertion (requestTransferSrc p a aspect st).
Proof.
  unfold requestTransferSrc, transferRequest. cbv zeta. destruct (negb _); [|done].
  apply passes_bind; [|done].
  apply SetupTransition_passes. unfold finalLayoutAssertion. discriminate.
Qed.

Lemma requestTransferDst_passes p a aspect (st : World G * list VkImageMemoryBarrier * Z) :
  passesFinalLayoutAssertion (requestTransferDst p a aspect st).
Proof.
  unfold requestTransferDst, transferRequest. cbv zeta. destruct (negb _); [|done].
  apply passes_bind; [|done].
  apply SetupTransition_passes. unfold finalLayoutAssertion. discriminate.
Qed.

Lemma transferBarriers_passes src dst aspectMask (w : World G) :
  passesFinalLayoutAssertion (transferBarriers src dst aspectMask w).
Proof.
  unfold transferBarriers.
  repeat (apply passes_bind;
          [destruct (has_bits _ _);
           first [apply requestTransferSrc_passes|apply requestTransferDst_passes|done]
          |intros ? _]).
  done.
Qed.

Lemma ResizeReadbackBuffer_passes requiredSize (w : World G) :
  passesFinalLayoutAssertion (ResizeReadbackBuffer requiredSize w).
Proof.
  unfold ResizeReadbackBuffer. cbv zeta. destruct (_ && _); [done|].
  destruct (findMemoryType _ _) as [[]|];
    [by destruct (negb _)|apply passes_Stop_other; unfold finalLayoutAssertion; discriminate].
Qed.

Lemma performStep_passes (h : gmap ptr VKRStep) (w : World G) p :
  finalLayoutDefined (h !!! p) → passesFinalLayoutAssertion (performStep h w p).
Proof.
  intros Hdef. unfold performStep. cbv zeta.
  destruct (stepType (h !!! p)) eqn:Hty.
  - by apply PerformRenderPass_passes.
  - done.
  - unfold PerformCopy. cbv zeta.
    apply passes_bind; [apply transferBarriers_passes|done].
  - unfold PerformBlit. cbv zeta.
    apply passes_bind; [apply transferBarriers_passes|done].
  - unfold PerformReadback. cbv zeta.
    apply passes_bind; [apply ResizeReadbackBuffer_passes|]. intros w1 _.
    destruct (_ =? nullptr)%N; [done|].
    destruct (if has_bits _ _ then _ else _).
    + apply passes_bind; [apply requestTransferSrc_passes|done].
    + apply passes_bind; [|done].
      apply passes_check_other. unfold finalLayoutAssertion. discriminate.
  - unfold PerformReadbackImage. cbv zeta.
    apply passes_bind.
    { apply SetupTransition_passes. unfold finalLayoutAssertion. discriminate. }
    intros t _. apply passes_bind; [apply ResizeReadbackBuffer_passes|done].
Qed.

Lemma pushCommands_passes keep pdst psrc h :
  passesFinalLayoutAssertion (pushCommands keep pdst psrc h).
Proof. unfold pushCommands. by destruct (_ && _). Qed.

Lemma combineGroup_passes vec group base h :
  passesFinalLayoutAssertion (combineGroup vec group base h).
Proof.
  unfold combineGroup. apply passes_ofoldl. intros a j _.
  apply passes_bind; [apply pushCommands_passes|done].
Qed.

Lemma mgsDepalCombine_passes vec into start limit h :
  passesFinalLayoutAssertion (mgsDepalCombine vec into start limit h).
Proof.
  unfold mgsDepalCombine. apply passes_ofoldl. intros a j _.
  apply passes_bind; [apply pushCommands_passes|done].
Qed.

Lemma mgsCopyLoop_passes n : ∀ i vec h, passesFinalLayoutAssertion (mgsCopyLoop n i vec h).
Proof.
  induction n as [|n IH]; intros i vec h; simpl; [done|].
  destruct (mgsCopyHead h vec i); [|apply IH].
  destruct (negb _); [|apply IH].
  unfold mgsCopyRewrite. cbv zeta.
  apply passes_bind.
  { apply passes_check_other. unfold finalLayoutAssertion. discriminate. }
  intros _ _. apply passes_bind; [apply combineGroup_passes|done].
Qed.

Lemma mgsDepalLoop_passes n : ∀ i vec h, passesFinalLayoutAssertion (mgsDepalLoop n i vec h).
Proof.
  induction n as [|n IH]; intros i vec h; simpl; [done|].
  destruct (mgsDepalHead h vec i); [|apply IH].
  destruct (_ =? -1); [apply IH|].
  apply passes_bind; [apply mgsDepalCombine_passes|].
  intros h1 _. apply mgsDepalCombine_passes.
Qed.

Lemma sonicLoop_passes n : ∀ i vec h, passesFinalLayoutAssertion (sonicLoop n i vec h).
Proof.
  induction n as [|n IH]; intros i vec h; simpl; [done|].
  destruct (sonicHead h vec i); [|apply IH].
  destruct (negb _); [|apply IH].
  unfold sonicRewrite. cbv zeta.
  apply passes_bind; [apply combineGroup_passes|]. intros h1 _.
  apply passes_bind; [apply combineGroup_passes|done].
Qed.

Lemma optimizeSteps_passes hacks vec h :
  passesFinalLayoutAssertion (optimizeSteps hacks vec h).
Proof.
  unfold optimizeSteps, applyQueueHacks. cbv zeta.
  destruct (negb (hacks =? 0)); [|done].
  apply passes_bind.
  { destruct (has_bits hacks QUEUE_HACK_MGS2_ACID); [|done].
    unfold ApplyMGSHack. apply passes_bind; [apply mgsCopyLoop_passes|].
    intros st _. apply passes_bind; [apply mgsDepalLoop_passes|done]. }
  intros st1 _. apply passes_bind; [|done].
  destruct (has_bits hacks QUEUE_HACK_SONIC); [apply sonicLoop_passes|done].
Qed.

Lemma optimizeSteps_defined hacks vec h vec' h' p :
  optimizeSteps hacks vec h = Done (vec', h') → p ∈ vec' → finalLayoutDefined (h' !!! p).
Proof.
  intros Hrun Hp. unfold optimizeSteps in Hrun. cbv zeta in Hrun.
  eapply applyQueueHacks_keeps in Hrun as [Hk Hsub].
  2: { apply clearPass_keeps, hkeeps_refl. }
  eapply keeps_defined; [apply Hk|].
  apply defaultFinalLayouts_defined. left. by apply Hsub.
Qed.

Lemma defaultFinalLayout_idempotent s :
  defaultFinalLayout (defaultFinalLayout s) = defaultFinalLayout s.
Proof.
  unfold defaultFinalLayout.
  destruct (is_type RENDER s && negb (Render.framebuffer (render s) =? nullptr)%N
            && (Render.finalColorLayout (render s) =? Vk.IMAGE_LAYOUT_UNDEFINED)) eqn:Hc;
    [|by rewrite Hc].
  unfold is_type, render, set_render. simpl. by rewrite andb_false_r.
Qed.

(** The first loop of [RunSteps] applies [defaultFinalLayout] to every step
    of the vector, and touches no other step. *)
Lemma defaultFinalLayouts_lookup vec : ∀ (h : gmap ptr VKRStep) p,
  defaultFinalLayouts h vec !!! p
  = if decide (p ∈ vec) then defaultFinalLayout (h !!! p) else h !!! p.
Proof.
  unfold defaultFinalLayouts.
  induction vec as [|q vec IH]; intros h p; simpl.
  { destruct (decide (p ∈ [])) as [Hin|_]; [by apply elem_of_nil in Hin|done]. }
  rewrite IH. destruct (decide (q = p)) as [->|Hne].
  - rewrite upd_eq. destruct (decide (p ∈ p :: vec)) as [_|Hno]; [|by destruct Hno; left].
    destruct (decide (p ∈ vec)); [apply defaultFinalLayout_idempotent|done].
  - rewrite upd_ne by done.
    destruct (decide (p ∈ vec)) as [Hin|Hno], (decide (p ∈ q :: vec)) as [Hin'|Hno'];
      try done.
    + destruct Hno'. by right.
    + apply elem_of_cons in Hin' as [->|Hin']; done.
Qed.

Lemma defaultFinalLayout_value s :
  stepType (defaultFinalLayout s) = stepType s
  ∧ Render.framebuffer (render (defaultFinalLayout s)) = Render.framebuffer (render s)
  ∧ (stepType s = RENDER → Render.framebuffer (render s) ≠ nullptr →
     Render.finalColorLayout (render (defaultFinalLayout s))
     = if Render.finalColorLayout (render s) =? Vk.IMAGE_LAYOUT_UNDEFINED
       then Vk.IMAGE_LAYOUT_COLOR_ATTACHMENT_OPTIMAL
       else Render.finalColorLayout (render s)).
Proof.
  unfold defaultFinalLayout.
  destruct (is_type RENDER s) eqn:Hty; simpl.
  - destruct (negb (Render.framebuffer (render s) =? nullptr)%N) eqn:Hfb; simpl.
    + destruct (Render.finalColorLayout (render s) =? Vk.IMAGE_LAYOUT_UNDEFINED); done.
    + repeat split. intros _ Hne. by apply negb_false_iff, N.eqb_eq in Hfb.
  - repeat split. intros Hr. unfold is_type in Hty.
    by apply bool_decide_eq_false in Hty.
Qed.

(** The final color layout of a render step the executor is given. *)
Lemma optimizeSteps_final_layout hacks vec (h : gmap ptr VKRStep) vec' h' p :
  optimizeSteps hacks vec h = Done (vec', h') → p ∈ vec' →
  stepType (h' !!! p) = RENDER → Render.framebuffer (render (h' !!! p)) ≠ nullptr →
  stepType (h !!! p) = RENDER
  ∧ Render.framebuffer (render (h !!! p)) = Render.framebuffer (render (h' !!! p))
  ∧ Render.finalColorLayout (render (h' !!! p))
    = if Render.finalColorLayout (render (h !!! p)) =? Vk.IMAGE_LAYOUT_UNDEFINED
      then Vk.IMAGE_LAYOUT_COLOR_ATTACHMENT_OPTIMAL
      else Render.finalColorLayout (render (h !!! p)).
Proof.
  intros Hrun Hp Hty Hfb. unfold optimizeSteps in Hrun. cbv zeta in Hrun.
  eapply applyQueueHacks_keeps in Hrun as [Hk Hsub].
  2: { apply clearPass_keeps, hkeeps_refl. }
  destruct (Hk p Hty) as (Hty1 & Hfb1 & Hfl1).
  rewrite defaultFinalLayouts_lookup in Hty1, Hfb1, Hfl1.
  destruct (decide (p ∈ vec)) as [_|Hno]; [|by destruct Hno; apply Hsub].
  destruct (defaultFinalLayout_value (h !!! p)) as (Hty0 & Hfb0 & Hfl0).
  rewrite Hty0 in Hty1. rewrite Hfb0 in Hfb1.
  split; [done|]. split; [done|].
  rewrite Hfl1. apply Hfl0; [done|]. by rewrite <- Hfb1.
Qed.

(** C10. [RunSteps] starts by giving every render step of the vector that
    targets an offscreen framebuffer and declares the final color layout
    UNDEFINED the layout COLOR_ATTACHMENT_OPTIMAL, changing nothing else of
    the step and no other step.  No later pass of the optimizer undoes this,
    whichever hacks are enabled: a render step onto an offscreen framebuffer
    that the executor is given has the final color layout it was recorded
    with, or COLOR_ATTACHMENT_OPTIMAL where that was UNDEFINED, so it has a
    defined final color layout, and [RunSteps] never stops in the assertion
    [step.render.finalColorLayout != VK_IMAGE_LAYOUT_UNDEFINED]. *)
Theorem RunSteps_final_layout_defined :
  (∀ (h : gmap ptr VKRStep) vec p,
     p ∈ vec →
     finalLayoutDefined (defaultFinalLayouts h vec !!! p)
     ∧ defaultFinalLayouts h vec !!! p
       = if is_type RENDER (h !!! p)
            && negb (Render.framebuffer (render (h !!! p)) =? nullptr)%N
            && (Render.finalColorLayout (render (h !!! p)) =? Vk.IMAGE_LAYOUT_UNDEFINED)
         then set_render
                (Render_set_finalColorLayout Vk.IMAGE_LAYOUT_COLOR_ATTACHMENT_OPTIMAL)
                (h !!! p)
         else h !!! p)
  ∧ (∀ (h : gmap ptr VKRStep) vec p,
       p ∉ vec → defaultFinalLayouts h vec !!! p = h !!! p)
  ∧ (∀ hacks vec (h : gmap ptr VKRStep) vec' h' p,
       optimizeSteps hacks vec h = Done (vec', h') → p ∈ vec' →
       finalLayoutDefined (h' !!! p)
       ∧ (stepType (h' !!! p) = RENDER →
          Render.framebuffer (render (h' !!! p)) ≠ nullptr →
          Render.finalColorLayout (render (h' !!! p))
          = if Render.finalColorLayout (render (h !!! p)) =? Vk.IMAGE_LAYOUT_UNDEFINED
            then Vk.IMAGE_LAYOUT_COLOR_ATTACHMENT_OPTIMAL
            else Render.finalColorLayout (render (h !!! p))))
  ∧ (∀ vec (h : gmap ptr VKRStep) (w : World G),
       passesFinalLayoutAssertion (RunSteps vec h w)).
Proof.
  split; [|split; [|split]].
  - intros h vec p Hp. split; [apply defaultFinalLayouts_defined; by left|].
    rewrite defaultFinalLayouts_lookup. by destruct (decide (p ∈ vec)).
  - intros h vec p Hp. rewrite defaultFinalLayouts_lookup. by destruct (decide (p ∈ vec)).
  - intros hacks vec h vec' h' p Hrun Hp. split; [by eapply optimizeSteps_defined|].
    intros Hty Hfb. by eapply optimizeSteps_final_layout.
  - intros vec h w. unfold RunSteps.
    apply passes_bind; [apply optimizeSteps_passes|]. intros [vec' h'] Hopt.
    apply passes_bind.
    + apply passes_ofoldl. intros w' p Hp. apply performStep_passes.
      by eapply optimizeSteps_defined.
    + intros w1 _. apply passes_bind; [|done].
      apply passes_ofoldl. intros h1 p _. unfold deleteStep. by destruct (h1 !! p).
Qed.

(** ** The workload-specific fusions *)

(** The fusions are gated by their enable bits. *)
Lemma applyQueueHacks_gated hacks vec (h : gmap ptr VKRStep) :
  has_bits hacks QUEUE_HACK_MGS2_ACID = false →
  has_bits hacks QUEUE_HACK_SONIC = false →
  applyQueueHacks hacks vec h
  = Done (if has_bits hacks QUEUE_HACK_RENDERPASS_MERGE
          then (vec, ApplyRenderPassMerge h vec) else (vec, h)).
Proof.
  intros Hmgs Hsonic. unfold applyQueueHacks. rewrite Hmgs, Hsonic. simpl.
  destruct (negb (hacks =? 0)) eqn:Hz; [done|].
  apply negb_false_iff, Z.eqb_eq in Hz. by subst hacks.
Qed.

(** Where the three-step head of a fusion matches nowhere, the fusion
    leaves the vector and every step alone. *)
Lemma mgsCopyLoop_no_head n : ∀ i vec (h : gmap ptr VKRStep),
  (∀ j, mgsCopyHead h vec j = false) → mgsCopyLoop n i vec h = Done (vec, h).
Proof.
  induction n as [|n IH]; intros i vec h Hno; simpl; [done|].
  rewrite Hno. by apply IH.
Qed.

Lemma mgsDepalLoop_no_head n : ∀ i vec (h : gmap ptr VKRStep),
  (∀ j, mgsDepalHead h vec j = false) → mgsDepalLoop n i vec h = Done h.
Proof.
  induction n as [|n IH]; intros i vec h Hno; simpl; [done|].
  rewrite Hno. by apply IH.
Qed.

Lemma sonicLoop_no_head n : ∀ i vec (h : gmap ptr VKRStep),
  (∀ j, sonicHead h vec j = false) → sonicLoop n i vec h = Done (vec, h).
Proof.
  induction n as [|n IH]; intros i vec h Hno; simpl; [done|].
  rewrite Hno. by apply IH.
Qed.

Lemma fusions_without_head vec (h : gmap ptr VKRStep) :
  (∀ j, mgsCopyHead h vec j = false) →
  (∀ j, mgsDepalHead h vec j = false) →
  (∀ j, sonicHead h vec j = false) →
  ApplyMGSHack vec h = Done (vec, h) ∧ ApplySonicHack vec h = Done (vec, h).
Proof.
  intros Hc Hd Hs. unfold ApplyMGSHack, ApplySonicHack.
  rewrite mgsCopyLoop_no_head by done. simpl.
  rewrite mgsDepalLoop_no_head by done. simpl.
  by rewrite sonicLoop_no_head.
Qed.

(** ** The dead-clear pass *)

Lemma render_set_render f s : render (set_render f s) = f (render s).
Proof. reflexivity. Qed.

Lemma foldClear_other pj pi h q : q ≠ pj → q ≠ pi → foldClear pj pi h !!! q = h !!! q.
Proof.
  intros Hj Hi. unfold foldClear. cbv zeta.
  rewrite upd_ne by done.
  repeat (match goal with |- context [bool_decide ?P] => destruct (bool_decide P) end;
          rewrite ?upd_ne by done); done.
Qed.

Lemma foldClear_source pj pi h :
  pi ≠ pj → foldClear pj pi h !!! pj = set_stepType RENDER_SKIP (h !!! pj).
Proof.
  intros Hne. unfold foldClear. cbv zeta. rewrite upd_eq. f_equal.
  repeat (match goal with |- context [bool_decide ?P] => destruct (bool_decide P) end;
          rewrite ?upd_ne by done); done.
Qed.

Lemma foldClear_target pj pi h :
  pi ≠ pj → foldClear pj pi h !!! pi = foldStep (h !!! pj) (h !!! pi).
Proof.
  intros Hne. unfold foldClear, foldStep. cbv zeta.
  rewrite upd_ne by done.
  destruct (bool_decide (Render.color (render (h !!! pi)) ≠ _));
    rewrite ?upd_eq, ?(upd_ne pi pj) by done;
    match goal with |- context [bool_decide (Render.depth ?r ≠ _)] =>
      destruct (bool_decide (Render.depth r ≠ VKRRenderPassAction.CLEAR)) end;
    rewrite ?upd_eq, ?(upd_ne pi pj) by done;
    match goal with |- context [bool_decide (Render.stencil ?r ≠ _)] =>
      destruct (bool_decide (Render.stencil r ≠ VKRRenderPassAction.CLEAR)) end;
    rewrite ?upd_eq, ?(upd_ne pi pj) by done; reflexivity.
Qed.

Lemma foldStep_render sj si : render (foldStep sj si) = foldedInto sj si.
Proof.
  unfold foldStep, foldedInto. cbv zeta.
  rewrite ?render_set_render.
  destruct (render si) as [fb c d s cc cd cs nd nr fl] eqn:Hr.
  destruct c; simpl; rewrite ?render_set_render, ?Hr; simpl;
    destruct d; simpl; rewrite ?render_set_render, ?Hr; simpl;
    destruct s; simpl; rewrite ?render_set_render, ?Hr; simpl; reflexivity.
Qed.

Lemma foldStep_fields sj si :
  stepType (foldStep sj si) = stepType si
  ∧ commands (foldStep sj si) = commands si
  ∧ preTransitions (foldStep sj si) = preTransitions si
  ∧ dependencies (foldStep sj si) = dependencies si.
Proof.
  unfold foldStep. cbv zeta.
  repeat match goal with |- context [bool_decide ?P] => destruct (bool_decide P) end;
    done.
Qed.

Lemma foldStep_allClear sj si :
  Render.color (render si) = VKRRenderPassAction.CLEAR →
  Render.depth (render si) = VKRRenderPassAction.CLEAR →
  Render.stencil (render si) = VKRRenderPassAction.CLEAR →
  foldStep sj si = si.
Proof.
  intros Hc Hd Hs. unfold foldStep. cbv zeta.
  rewrite (bool_decide_eq_false_2 (Render.color (render si) ≠ _)) by (by intros []).
  rewrite (bool_decide_eq_false_2 (Render.depth (render si) ≠ _)) by (by intros []).
  by rewrite (bool_decide_eq_false_2 (Render.stencil (render si) ≠ _)) by (by intros []).
Qed.

Lemma isEmptyClear_inv s :
  isEmptyClear s = true →
  stepType s = RENDER
  ∧ Render.color (render s) = VKRRenderPassAction.CLEAR
  ∧ Render.depth (render s) = VKRRenderPassAction.CLEAR
  ∧ Render.stencil (render s) = VKRRenderPassAction.CLEAR.
Proof.
  unfold isEmptyClear, is_type. intros H.
  repeat (apply andb_true_iff in H as [H ?]).
  repeat match goal with H : bool_decide _ = true |- _ => apply bool_decide_eq_true in H end.
  done.
Qed.

Lemma stable_refl s : stable s s.
Proof. done. Qed.

Lemma stable_trans s1 s2 s3 : stable s1 s2 → stable s2 s3 → stable s1 s3.
Proof.
  intros (Ht1 & Hf1 & Hn1) (Ht2 & Hf2 & Hn2). repeat split; [congruence..|].
  intros Hne. rewrite Hn2, Hn1; [done|done|]. by rewrite Hn1.
Qed.

Lemma foldStep_stable sj si : stepType si = RENDER → stable si (foldStep sj si).
Proof.
  intros Hty. destruct (foldStep_fields sj si) as (Ht & _).
  split; [done|]. split; [by rewrite foldStep_render|]. by rewrite Hty.
Qed.

Lemma stable_rendersTo fb s s' : stable s s' → rendersTo fb s' = rendersTo fb s.
Proof.
  intros (Ht & Hf & _). unfold rendersTo, is_type. by rewrite Ht, Hf.
Qed.

Lemma stable_clearHit fb s s' : stable s s' → clearHit fb s' = clearHit fb s.
Proof.
  intros Hst. unfold clearHit. rewrite (stable_rendersTo fb s s') by done. f_equal.
  destruct Hst as (Ht & _ & Hn).
  destruct (decide (stepType s = RENDER)) as [Hr|Hr]; [|by rewrite Hn].
  unfold copiesFrom, is_type. rewrite Ht, Hr. done.
Qed.

Lemma rendersTo_inv fb s :
  rendersTo fb s = true → stepType s = RENDER ∧ Render.framebuffer (render s) = fb.
Proof.
  unfold rendersTo, is_type. intros [Ht Hf]%andb_true_iff.
  apply bool_decide_eq_true in Ht. by apply N.eqb_eq in Hf.
Qed.

Lemma clearScan_cons pj h q rest :
  clearScan pj h (q :: rest) =
  if rendersTo (Render.framebuffer (render (h !!! pj))) (h !!! q) then foldClear pj q h
  else if copiesFrom (Render.framebuffer (render (h !!! pj))) (h !!! q) then h
  else clearScan pj h rest.
Proof. done. Qed.

(** What one scan does to a step other than the one scanning: nothing, or
    the fold of the clear values into it when it renders to the framebuffer
    of the scanning step. *)
Lemma clearScan_lookup rest : ∀ p0 h x,
  x ≠ p0 → p0 ∉ rest →
  clearScan p0 h rest !!! x = h !!! x
  ∨ (rendersTo (Render.framebuffer (render (h !!! p0))) (h !!! x) = true
     ∧ clearScan p0 h rest !!! x = foldStep (h !!! p0) (h !!! x)).
Proof.
  induction rest as [|q rest IH]; intros p0 h x Hx Hp0; [by left|].
  apply not_elem_of_cons in Hp0 as [Hq Hp0]. rewrite clearScan_cons.
  destruct (rendersTo _ (h !!! q)) eqn:Hhit.
  - destruct (decide (x = q)) as [->|Hxq].
    + right. split; [exact Hhit|]. by apply foldClear_target.
    + left. by apply foldClear_other.
  - destruct (copiesFrom _ (h !!! q)); [by left|]. by apply IH.
Qed.

Lemma clearScan_self rest : ∀ p0 h,
  p0 ∉ rest →
  clearScan p0 h rest !!! p0 = h !!! p0
  ∨ clearScan p0 h rest !!! p0 = set_stepType RENDER_SKIP (h !!! p0).
Proof.
  induction rest as [|q rest IH]; intros p0 h Hp0; [by left|].
  apply not_elem_of_cons in Hp0 as [Hq Hp0]. rewrite clearScan_cons.
  destruct (rendersTo _ (h !!! q)); [right; by apply foldClear_source|].
  destruct (copiesFrom _ (h !!! q)); [by left|]. by apply IH.
Qed.

(** The scan never reaches past a render step onto its framebuffer. *)
Lemma clearScan_blocked l1 : ∀ p0 h z l2 x,
  rendersTo (Render.framebuffer (render (h !!! p0))) (h !!! z) = true →
  x ≠ p0 → x ≠ z → x ∉ l1 →
  clearScan p0 h (l1 ++ z :: l2) !!! x = h !!! x.
Proof.
  induction l1 as [|a l1 IH]; intros p0 h z l2 x Hz Hp0 Hxz Hx; simpl app;
    rewrite clearScan_cons.
  - rewrite Hz. by apply foldClear_other.
  - apply not_elem_of_cons in Hx as [Hxa Hx].
    destruct (rendersTo _ (h !!! a)); [by apply foldClear_other|].
    destruct (copiesFrom _ (h !!! a)); [done|]. by apply IH.
Qed.

Lemma clearScan_fold l1 : ∀ pj h q l2,
  (∀ x, x ∈ l1 → clearHit (Render.framebuffer (render (h !!! pj))) (h !!! x) = false) →
  rendersTo (Render.framebuffer (render (h !!! pj))) (h !!! q) = true →
  clearScan pj h (l1 ++ q :: l2) = foldClear pj q h.
Proof.
  induction l1 as [|a l1 IH]; intros pj h q l2 Hno Hq; simpl app;
    rewrite clearScan_cons.
  - by rewrite Hq.
  - assert (Ha := Hno a ltac:(by left)).
    apply orb_false_iff in Ha as [Ha1 Ha2]. rewrite Ha1, Ha2.
    apply IH; [|done]. intros x Hx. apply Hno. by right.
Qed.

Lemma clearScan_abort l1 : ∀ pj h q l2,
  (∀ x, x ∈ l1 → clearHit (Render.framebuffer (render (h !!! pj))) (h !!! x) = false) →
  copiesFrom (Render.framebuffer (render (h !!! pj))) (h !!! q) = true →
  clearScan pj h (l1 ++ q :: l2) = h.
Proof.
  induction l1 as [|a l1 IH]; intros pj h q l2 Hno Hq; simpl app;
    rewrite clearScan_cons.
  - rewrite Hq. unfold rendersTo.
    apply andb_true_iff in Hq as [Hty _]. unfold is_type in *.
    apply bool_decide_eq_true in Hty. by rewrite Hty.
  - assert (Ha := Hno a ltac:(by left)).
    apply orb_false_iff in Ha as [Ha1 Ha2]. rewrite Ha1, Ha2.
    apply IH; [|done]. intros x Hx. apply Hno. by right.
Qed.

Lemma clearScan_stable p0 h rest x :
  x ≠ p0 → p0 ∉ rest → stable (h !!! x) (clearScan p0 h rest !!! x).
Proof.
  intros Hx Hp0. destruct (clearScan_lookup rest p0 h x Hx Hp0) as [->|[Hr ->]].
  - apply stable_refl.
  - apply foldStep_stable. by apply rendersTo_inv in Hr as [? _].
Qed.

(** An empty clear step is not changed by the scan of another step: all
    its load actions are CLEAR already. *)
Lemma clearScan_empty_clear p0 h rest x :
  x ≠ p0 → p0 ∉ rest → isEmptyClear (h !!! x) = true →
  clearScan p0 h rest !!! x = h !!! x.
Proof.
  intros Hx Hp0 Hec. destruct (clearScan_lookup rest p0 h x Hx Hp0) as [->|[_ ->]]; [done|].
  apply isEmptyClear_inv in Hec as (_ & Hc & Hd & Hs). by apply foldStep_allClear.
Qed.

(** A scan for another framebuffer leaves the render steps onto [fb] alone. *)
Lemma clearScan_other_fb p0 h rest x fb :
  x ≠ p0 → p0 ∉ rest →
  Render.framebuffer (render (h !!! p0)) ≠ fb →
  rendersTo fb (h !!! x) = true →
  clearScan p0 h rest !!! x = h !!! x.
Proof.
  intros Hx Hp0 Hfb Hr. destruct (clearScan_lookup rest p0 h x Hx Hp0) as [->|[Hr' _]]; [done|].
  apply rendersTo_inv in Hr as [_ Hf]. apply rendersTo_inv in Hr' as [_ Hf']. congruence.
Qed.

Lemma clearPass_cons h pj q rest :
  clearPass h (pj :: q :: rest) =
  clearPass (if isEmptyClear (h !!! pj) then clearScan pj h (q :: rest) else h) (q :: rest).
Proof. done. Qed.

Lemma in_middle {A} (x : A) l1 l2 : x ∈ l1 ++ x :: l2.
Proof. apply elem_of_app. right. by left. Qed.

Lemma clearScan_frame rest : ∀ p0 h x,
  x ≠ p0 → x ∉ rest → clearScan p0 h rest !!! x = h !!! x.
Proof.
  induction rest as [|q rest IH]; intros p0 h x Hx Hnin; [done|].
  apply not_elem_of_cons in Hnin as [Hxq Hnin]. rewrite clearScan_cons.
  destruct (rendersTo _ (h !!! q)); [by apply foldClear_other|].
  destruct (copiesFrom _ (h !!! q)); [done|]. by apply IH.
Qed.

Lemma clearPass_frame vec : ∀ h x, x ∉ vec → clearPass h vec !!! x = h !!! x.
Proof.
  induction vec as [|pj rest IH]; intros h x Hx; [done|].
  destruct rest as [|q rest]; [done|]. rewrite clearPass_cons.
  apply not_elem_of_cons in Hx as [Hxpj Hx].
  rewrite IH by done. destruct (isEmptyClear (h !!! pj)); [|done].
  by apply clearScan_frame.
Qed.

(** A render step that no earlier step of the vector shares its framebuffer
    with comes out of the pass as it went in, or skipped when it is itself
    an empty clear step that was folded further down. *)
Lemma clearPass_first_render l1 : ∀ h x l2,
  NoDup (l1 ++ x :: l2) →
  stepType (h !!! x) = RENDER →
  (∀ y, y ∈ l1 → rendersTo (Render.framebuffer (render (h !!! x))) (h !!! y) = false) →
  (clearPass h (l1 ++ x :: l2) !!! x = h !!! x
   ∨ clearPass h (l1 ++ x :: l2) !!! x = set_stepType RENDER_SKIP (h !!! x))
  ∧ (isEmptyClear (h !!! x) = false → clearPass h (l1 ++ x :: l2) !!! x = h !!! x).
Proof.
  induction l1 as [|a l1 IH]; intros h x l2 Hnd Hty Hno.
  - simpl app in *. apply NoDup_cons in Hnd as [Hx Hnd].
    destruct l2 as [|q l2]; [by split; [left|]|].
    rewrite clearPass_cons, clearPass_frame by done.
    destruct (isEmptyClear (h !!! x)); [|by split; [left|]].
    split; [by apply clearScan_self|done].
  - simpl app in *. apply NoDup_cons in Hnd as [Ha Hnd].
    assert (Hxa : x ≠ a) by (intros ->; apply Ha, in_middle).
    destruct (l1 ++ x :: l2) as [|q l] eqn:Hl; [by destruct l1|].
    rewrite clearPass_cons. rewrite <- Hl in *. clear Hl q l.
    set (h1 := if isEmptyClear (h !!! a) then clearScan a h (l1 ++ x :: l2) else h).
    assert (Hst : ∀ y, y ≠ a → stable (h !!! y) (h1 !!! y)).
    { intros y Hy. unfold h1. destruct (isEmptyClear (h !!! a)); [|apply stable_refl].
      by apply clearScan_stable. }
    assert (Hx1 : h1 !!! x = h !!! x).
    { unfold h1. destruct (isEmptyClear (h !!! a)) eqn:Hec; [|done].
      apply (clearScan_other_fb _ _ _ _ (Render.framebuffer (render (h !!! x)))); try done.
      - intros Hfb. assert (Hr := Hno a ltac:(by left)).
        apply isEmptyClear_inv in Hec as (Hta & _). unfold rendersTo, is_type in Hr.
        rewrite Hta, Hfb, N.eqb_refl in Hr. by rewrite bool_decide_eq_true_2 in Hr.
      - unfold rendersTo, is_type. rewrite Hty, N.eqb_refl. by rewrite bool_decide_eq_true_2. }
    rewrite <- Hx1. apply IH; [done|by rewrite Hx1|].
    intros y Hy. rewrite Hx1.
    rewrite (stable_rendersTo _ (h !!! y)); [apply Hno; by right|].
    apply Hst. intros ->. apply Ha, elem_of_app. by left.
Qed.

(** The iterations before that of an empty clear step [pj]: they leave
    [pj] as it is, and the steps after it keep their kind and framebuffer;
    the render steps onto the framebuffer of [pj] are not changed at all,
    since every scan for that framebuffer ends at [pj] at the latest. *)
Lemma clearPass_before pre : ∀ h pj tail,
  NoDup (pre ++ pj :: tail) →
  isEmptyClear (h !!! pj) = true →
  ∃ hj, clearPass h (pre ++ pj :: tail) = clearPass hj (pj :: tail)
    ∧ hj !!! pj = h !!! pj
    ∧ (∀ q, q ∈ tail → stable (h !!! q) (hj !!! q))
    ∧ (∀ q, q ∈ tail →
         rendersTo (Render.framebuffer (render (h !!! pj))) (h !!! q) = true →
         hj !!! q = h !!! q).
Proof.
  induction pre as [|a pre IH]; intros h pj tail Hnd Hec.
  - exists h. repeat split; done.
  - simpl app in *. apply NoDup_cons in Hnd as [Ha Hnd].
    assert (Hpja : pj ≠ a) by (intros ->; apply Ha, in_middle).
    assert (Hpjpre : pj ∉ pre).
    { apply NoDup_app in Hnd as (_ & Hd & _). intros Hin. apply (Hd pj Hin). by left. }
    assert (Htail : ∀ q, q ∈ tail → q ≠ a ∧ q ≠ pj ∧ q ∉ pre).
    { intros q Hq. split; [intros ->; apply Ha, elem_of_app; right; by right|].
      apply NoDup_app in Hnd as (_ & Hd & Hnd). apply NoDup_cons in Hnd as [Hpj _].
      split; [by intros ->|]. intros Hin. apply (Hd q Hin). by right. }
    destruct (pre ++ pj :: tail) as [|q0 l] eqn:Hl; [by destruct pre|].
    rewrite clearPass_cons. rewrite <- Hl in *. clear Hl q0 l.
    set (h1 := if isEmptyClear (h !!! a) then clearScan a h (pre ++ pj :: tail) else h).
    assert (Hpj1 : h1 !!! pj = h !!! pj).
    { unfold h1. destruct (isEmptyClear (h !!! a)); [|done]. by apply clearScan_empty_clear. }
    assert (Hst : ∀ y, y ≠ a → stable (h !!! y) (h1 !!! y)).
    { intros y Hy. unfold h1. destruct (isEmptyClear (h !!! a)); [|apply stable_refl].
      by apply clearScan_stable. }
    assert (Hsame : ∀ q, q ∈ tail →
      rendersTo (Render.framebuffer (render (h !!! pj))) (h !!! q) = true →
      h1 !!! q = h !!! q).
    { intros q Hq Hr. destruct (Htail q Hq) as (Hqa & Hqpj & Hqpre).
      unfold h1. destruct (isEmptyClear (h !!! a)) eqn:Heca; [|done].
      destruct (decide (Render.framebuffer (render (h !!! a))
                        = Render.framebuffer (render (h !!! pj)))) as [Hfb|Hfb].
      - apply clearScan_blocked; try done. rewrite Hfb.
        apply isEmptyClear_inv in Hec as (Hty & _).
        unfold rendersTo, is_type. rewrite Hty, N.eqb_refl. by rewrite bool_decide_eq_true_2.
      - by apply (clearScan_other_fb _ _ _ _ (Render.framebuffer (render (h !!! pj)))). }
    destruct (IH h1 pj tail Hnd) as (hj & Heq & Hpj & Hstj & Hsamej); [by rewrite Hpj1|].
    exists hj. split; [done|]. split; [by rewrite Hpj, Hpj1|]. split.
    + intros q Hq. destruct (Htail q Hq) as (Hqa & _).
      eapply stable_trans; [by apply Hst|by apply Hstj].
    + intros q Hq Hr. rewrite <- (Hsame q Hq Hr). apply Hsamej; [done|].
      rewrite Hpj1. by rewrite (Hsame q Hq Hr).
Qed.

(** C6.  The dead-clear pass of [RunSteps] on a vector of distinct steps.
    Let [pj] be a render step with no draws, no reads and the three load
    actions CLEAR, and [px] the first later step that renders to the
    framebuffer of [pj] or copies out of it.  If [px] renders to it, [pj]
    comes out of the pass skipped and otherwise as it was, and the render
    data of [px] are those it had with every load action CLEAR and, for each
    action that was not CLEAR, the clear value of [pj]; its commands are
    kept.  If [px] is a copy out of the framebuffer, [pj] comes out as it
    went in, and so do the render data of the next render step [pi] onto
    that framebuffer, the whole step unless it is an empty clear step
    itself. *)
Theorem clearPass_folds_empty_clear h pre pj mid px post :
  let vec := pre ++ pj :: mid ++ px :: post in
  let fb := Render.framebuffer (render (h !!! pj)) in
  NoDup vec →
  isEmptyClear (h !!! pj) = true →
  (∀ q, q ∈ mid → clearHit fb (h !!! q) = false) →
  (rendersTo fb (h !!! px) = true →
     clearPass h vec !!! pj = set_stepType RENDER_SKIP (h !!! pj)
     ∧ render (clearPass h vec !!! px) = foldedInto (h !!! pj) (h !!! px)
     ∧ commands (clearPass h vec !!! px) = commands (h !!! px))
  ∧ (copiesFrom fb (h !!! px) = true →
     clearPass h vec !!! pj = h !!! pj
     ∧ ∀ mid2 pi post2,
         post = mid2 ++ pi :: post2 →
         (∀ q, q ∈ mid2 → rendersTo fb (h !!! q) = false) →
         rendersTo fb (h !!! pi) = true →
         render (clearPass h vec !!! pi) = render (h !!! pi)
         ∧ (isEmptyClear (h !!! pi) = false → clearPass h vec !!! pi = h !!! pi)).
Proof.
  intros vec fb Hnd Hec Hmid. subst vec.
  destruct (clearPass_before pre h pj (mid ++ px :: post) Hnd Hec)
    as (hj & -> & Hpj & Hst & Hsame).
  apply NoDup_app in Hnd as (_ & _ & Hnd). apply NoDup_cons in Hnd as [Hpjt Hnd].
  assert (Hpxt : px ∈ mid ++ px :: post) by apply in_middle.
  assert (Hpxj : px ≠ pj) by (by intros ->).
  assert (Hfb : Render.framebuffer (render (hj !!! pj)) = fb) by (by rewrite Hpj).
  assert (Hmidj : ∀ q, q ∈ mid → clearHit fb (hj !!! q) = false).
  { intros q Hq. rewrite (stable_clearHit fb (h !!! q)); [by apply Hmid|].
    apply Hst, elem_of_app. by left. }
  assert (Hstep : clearPass hj (pj :: mid ++ px :: post)
                  = clearPass (clearScan pj hj (mid ++ px :: post)) (mid ++ px :: post)).
  { destruct (mid ++ px :: post) as [|q0 l] eqn:Hl; [by destruct mid|].
    by rewrite clearPass_cons, Hpj, Hec. }
  rewrite Hstep. clear Hstep. split.
  - intros Hr. assert (Hpx : hj !!! px = h !!! px) by (by apply Hsame).
    rewrite clearScan_fold; [|by rewrite Hfb|by rewrite Hfb, Hpx].
    rewrite clearPass_frame by done. rewrite foldClear_source, Hpj by done.
    split; [done|].
    apply rendersTo_inv in Hr as [Hty Hfbx].
    destruct (clearPass_first_render mid (foldClear pj px hj) px post Hnd) as [Hres _].
    + rewrite foldClear_target by done.
      destruct (foldStep_fields (hj !!! pj) (hj !!! px)) as (-> & _). by rewrite Hpx.
    + intros y Hy. rewrite foldClear_target, foldStep_render by done. simpl.
      rewrite Hpx, Hfbx.
      assert (Hyt : y ∈ mid ++ px :: post) by (apply elem_of_app; by left).
      assert (Hypx : y ≠ px).
      { intros ->. apply NoDup_app in Hnd as (_ & Hd & _). apply (Hd px Hy). by left. }
      rewrite foldClear_other; [|by intros ->|done].
      by destruct (orb_false_elim _ _ (Hmidj y Hy)).
    + rewrite foldClear_target, Hpj, Hpx in Hres by done.
      destruct (foldStep_fields (h !!! pj) (h !!! px)) as (_ & Hcmd & _).
      destruct Hres as [-> | ->]; by rewrite <- foldStep_render.
  - intros Hc. assert (Hpx : hj !!! px = h !!! px).
    { destruct (Hst px Hpxt) as (_ & _ & Hn). apply Hn.
      apply andb_true_iff in Hc as [Hty _]. unfold is_type in Hty.
      apply bool_decide_eq_true in Hty. by rewrite Hty. }
    rewrite clearScan_abort; [|by rewrite Hfb|by rewrite Hfb, Hpx].
    rewrite clearPass_frame, Hpj by done. split; [done|].
    intros mid2 pi post2 -> Hmid2 Hr.
    assert (Hpit : pi ∈ mid ++ px :: mid2 ++ pi :: post2).
    { apply elem_of_app; right. right. apply in_middle. }
    assert (Hpi : hj !!! pi = h !!! pi) by (by apply Hsame).
    assert (Hsplit : mid ++ px :: mid2 ++ pi :: post2 = (mid ++ px :: mid2) ++ pi :: post2)
      by (by rewrite <- app_assoc).
    rewrite Hsplit in *. clear Hsplit.
    destruct (rendersTo_inv _ _ Hr) as [Hty Hfbi].
    rewrite <- Hpi.
    destruct (clearPass_first_render (mid ++ px :: mid2) hj pi post2 Hnd) as [Hres Hne].
    + by rewrite Hpi.
    + intros y Hy. rewrite Hpi, Hfbi.
      rewrite (stable_rendersTo fb (h !!! y)).
      * apply elem_of_app in Hy as [Hy|Hy].
        { by destruct (orb_false_elim _ _ (Hmid y Hy)). }
        apply elem_of_cons in Hy as [->|Hy]; [|by apply Hmid2].
        apply andb_true_iff in Hc as [Hty' _]. unfold rendersTo, is_type in *.
        apply bool_decide_eq_true in Hty'. by rewrite Hty'.
      * apply Hst, elem_of_app. by left.
    + split; [by destruct Hres as [-> | ->]|exact Hne].
Qed.

(** ** [TinySet] *)

Section TinySetFacts.
Context {T : Type} `{EqDecision T}.
Implicit Types (s o : TinySet T) (t x : T) (l v : list T).

Lemma mem_true t l : TinySet.mem t l = true ↔ t ∈ l.
Proof.
  unfold TinySet.mem. rewrite existsb_exists. split.
  - intros (y & Hy & Heq). apply bool_decide_eq_true in Heq as ->.
    by apply list_elem_of_In.
  - intros Hin. exists t. split; [by apply list_elem_of_In|by apply bool_decide_eq_true].
Qed.

Lemma mem_false t l : TinySet.mem t l = false ↔ t ∉ l.
Proof. rewrite <- mem_true. by destruct (TinySet.mem t l). Qed.

Lemma mem_app t l1 l2 : TinySet.mem t (l1 ++ l2) = TinySet.mem t l1 || TinySet.mem t l2.
Proof. unfold TinySet.mem. apply existsb_app. Qed.

Lemma mem_singleton x t : TinySet.mem x [t] = bool_decide (x = t).
Proof.
  unfold TinySet.mem. simpl. rewrite orb_false_r.
  apply bool_decide_ext. split; congruence.
Qed.

Lemma contains_elements s x :
  TinySet.contains s x = true ↔ x ∈ TinySet_elements s.
Proof.
  unfold TinySet.contains, TinySet_elements. rewrite orb_true_iff, elem_of_app, mem_true.
  destruct (slowLookup_ s) as [v|]; simpl.
  - by rewrite mem_true.
  - split; intros [?|Hx]; auto; [done|by apply elem_of_nil in Hx].
Qed.

Lemma contains_insert_eq M s t x :
  TinySet.contains (TinySet.insert M s t) x = TinySet.contains s x || bool_decide (x = t).
Proof.
  unfold TinySet.insert.
  destruct (TinySet.mem t (fastLookup_ s)) eqn:Hfast.
  { destruct (bool_decide_reflect (x = t)) as [->|_]; [|by rewrite orb_false_r].
    unfold TinySet.contains. by rewrite Hfast. }
  destruct (length (fastLookup_ s) <? M)%nat.
  { unfold TinySet.contains. cbn [fastLookup_ slowLookup_]. rewrite mem_app, mem_singleton.
    destruct (TinySet.mem x (fastLookup_ s)), (bool_decide (x = t)),
      (match slowLookup_ s with Some v => TinySet.mem x v | None => false end); done. }
  unfold TinySet.insertSlow. destruct (slowLookup_ s) as [v|] eqn:Hslow.
  - destruct (TinySet.mem t v) eqn:Hv.
    + destruct (bool_decide_reflect (x = t)) as [->|_]; [|by rewrite orb_false_r].
      unfold TinySet.contains. rewrite Hslow, Hv. by rewrite !orb_true_r.
    + unfold TinySet.contains. cbn [fastLookup_ slowLookup_].
      rewrite Hslow, mem_app, mem_singleton. by rewrite orb_assoc.
  - unfold TinySet.contains. cbn [fastLookup_ slowLookup_].
    rewrite Hslow, mem_singleton. by rewrite orb_false_r.
Qed.

Lemma TinySet_wf_empty M : TinySet_wf M (TinySet.empty (T := T)).
Proof.
  split; [apply NoDup_nil_2|]. split; [simpl; lia|]. by intros [].
Qed.

Lemma elements_insert M s t :
  TinySet_wf M s →
  TinySet_elements (TinySet.insert M s t)
  = if TinySet.contains s t then TinySet_elements s else TinySet_elements s ++ [t].
Proof.
  intros (Hnd & Hlen & Hslow). unfold TinySet.insert, TinySet.contains.
  destruct (TinySet.mem t (fastLookup_ s)) eqn:Hfast; [done|]. simpl.
  destruct (length (fastLookup_ s) <? M)%nat eqn:Hroom.
  - apply Nat.ltb_lt in Hroom.
    destruct (slowLookup_ s) as [v|] eqn:Hv.
    + destruct Hslow as [Hfull _]; [done|lia].
    + unfold TinySet_elements. simpl. rewrite Hv. simpl. by rewrite !app_nil_r.
  - unfold TinySet.insertSlow. destruct (slowLookup_ s) as [v|] eqn:Hv.
    + destruct (TinySet.mem t v) eqn:Htv; [done|].
      unfold TinySet_elements. simpl. rewrite Hv. simpl. by rewrite app_assoc.
    + unfold TinySet_elements. simpl. rewrite Hv. simpl. by rewrite app_nil_r.
Qed.

Lemma TinySet_wf_insert M s t : TinySet_wf M s → TinySet_wf M (TinySet.insert M s t).
Proof.
  intros Hwf. assert (Hel := elements_insert M s t Hwf).
  destruct Hwf as (Hnd & Hlen & Hslow). split.
  { rewrite Hel. destruct (TinySet.contains s t) eqn:Hc; [done|].
    apply NoDup_app. split; [done|]. split; [|apply NoDup_singleton].
    intros x Hx ->%list_elem_of_singleton.
    apply contains_elements in Hx. congruence. }
  unfold TinySet.insert.
  destruct (TinySet.mem t (fastLookup_ s)); [done|].
  destruct (length (fastLookup_ s) <? M)%nat eqn:Hroom.
  - apply Nat.ltb_lt in Hroom. simpl. rewrite length_app. simpl. split; [lia|].
    intros Hsl. destruct (Hslow Hsl). lia.
  - apply Nat.ltb_ge in Hroom. unfold TinySet.insertSlow.
    destruct (slowLookup_ s) as [v|] eqn:Hv.
    + destruct (TinySet.mem t v); [by rewrite <- Hv in *|].
      simpl. split; [done|]. intros _. split; [lia|]. by destruct v.
    + simpl. split; [done|]. intros _. split; [lia|done].
Qed.

Lemma TinySet_wf_inserts M l s :
  TinySet_wf M s → TinySet_wf M (foldl (TinySet.insert M) s l).
Proof.
  revert s. induction l as [|t l IH]; intros s Hwf; [done|].
  simpl. by apply IH, TinySet_wf_insert.
Qed.

Lemma contains_inserts M l : ∀ s x,
  TinySet.contains (foldl (TinySet.insert M) s l) x = true
  ↔ TinySet.contains s x = true ∨ x ∈ l.
Proof.
  induction l as [|t l IH]; intros s x; simpl.
  - split; [by left|]. intros [?|Hx]; [done|by apply elem_of_nil in Hx].
  - rewrite IH, contains_insert_eq, orb_true_iff, bool_decide_eq_true, elem_of_cons. tauto.
Qed.

Lemma containsSet_true s o :
  TinySet.containsSet s o = true
  ↔ ∃ x, TinySet.contains s x = true ∧ TinySet.contains o x = true.
Proof.
  unfold TinySet.containsSet. rewrite orb_true_iff, existsb_exists. split.
  - intros [(x & Hx & Ho)|Hs].
    + exists x. split; [|done]. apply contains_elements, elem_of_app. left.
      by apply list_elem_of_In.
    + destruct (slowLookup_ s) as [v|] eqn:Hv; [|done].
      apply existsb_exists in Hs as (x & Hx & Ho). exists x. split; [|done].
      apply contains_elements. unfold TinySet_elements. rewrite Hv.
      apply elem_of_app. right. by apply list_elem_of_In.
  - intros (x & Hx & Ho). apply contains_elements in Hx.
    unfold TinySet_elements in Hx. apply elem_of_app in Hx as [Hx|Hx].
    + left. exists x. split; [by apply list_elem_of_In|done].
    + right. destruct (slowLookup_ s) as [v|]; [|by apply elem_of_nil in Hx].
      apply existsb_exists. exists x. split; [by apply list_elem_of_In|done].
Qed.

(** X1.  [insert] adds exactly its argument: after [insert(t)] the set
    contains [x] if and only if it contained [x] before or [x] is [t].  So an
    inserted element is found, nothing else appears, and nothing is lost,
    whether the element lands in the inline array or in the overflow
    vector. *)
Theorem TinySet_contains_insert M s t x :
  TinySet.contains (TinySet.insert M s t) x = TinySet.contains s x || bool_decide (x = t).
Proof. apply contains_insert_eq. Qed.

(** X2.  A set built from the empty set by any sequence of [insert] calls
    holds exactly the inserted values, each of them once; the inline array
    holds the first [MaxFastSize] of them and the overflow vector the rest,
    so the vector exists only once the inline array is full. *)
Theorem TinySet_of_inserts M l :
  let s := foldl (TinySet.insert M) TinySet.empty l in
  NoDup (TinySet_elements s)
  ∧ (∀ x, TinySet.contains s x = true ↔ x ∈ l)
  ∧ fastLookup_ s = take M (TinySet_elements s)
  ∧ (slowLookup_ s = None ↔ length (TinySet_elements s) ≤ M)%nat.
Proof.
  intros s.
  destruct (TinySet_wf_inserts M l TinySet.empty (TinySet_wf_empty M))
    as (Hnd & Hlen & Hslow). fold s in Hnd, Hlen, Hslow.
  split; [done|]. split.
  { intros x. unfold s. rewrite contains_inserts. split; [|by right].
    intros [Hc|?]; [|done]. by vm_compute in Hc. }
  unfold TinySet_elements in *. destruct (slowLookup_ s) as [v|]; simpl.
  - destruct Hslow as [Hfull Hne]; [done|]. split.
    + by rewrite take_app_length' by done.
    + split; [done|]. rewrite length_app. intros Hle.
      destruct v; [done|]. simpl in Hle. lia.
  - rewrite app_nil_r. split; [by rewrite take_ge|done].
Qed.

(** X3.  [contains(otherSet)] answers whether the two sets share an
    element: it is true exactly when some value is contained in both. *)
Theorem TinySet_containsSet_intersects s o :
  TinySet.containsSet s o = true
  ↔ ∃ x, TinySet.contains s x = true ∧ TinySet.contains o x = true.
Proof. apply containsSet_true. Qed.


End TinySetFacts.

(** ** More on the render-pass cache *)

(** X4.  [RPIndex] numbers the nine pairs of a color and a depth load
    action with the integers 0 to 8, different pairs getting different
    numbers. *)
Theorem RPIndex_injective c d c' d' :
  0 ≤ RPIndex c d < 9
  ∧ (RPIndex c d = RPIndex c' d' ↔ c = c' ∧ d = d').
Proof.
  split; [by destruct c, d|]. split; [|by intros [-> ->]].
  by destruct c, d, c', d'.
Qed.

Lemma GetRenderPass_miss key (w w1 : World G) pass :
  DenseHashMap_Get (renderPasses_ (qr w)) key = VK_NULL_HANDLE →
  GetRenderPass key w = Done (pass, w1) →
  ∃ rp g,
    renderPassCreateInfo key = Done rp
    ∧ vkCreateRenderPass env (gpu w) rp = (g, (Vk.SUCCESS, pass))
    ∧ pass ≠ VK_NULL_HANDLE
    ∧ w1 = mkWorld (set_renderPasses (DenseHashMap_Insert (renderPasses_ (qr w)) key pass) (qr w))
             (fbs w) g (trace w ++ [vkCreateRenderPass_call rp Vk.SUCCESS pass]).
Proof.
  intros Hmiss Hget. unfold GetRenderPass in Hget. rewrite Hmiss in Hget. simpl in Hget.
  apply obind_Done in Hget as (rp & Hrp & Hget).
  apply obind_Done in Hget as ([] & Hres & Hget).
  apply obind_Done in Hget as ([] & Hpass & Hget).
  injection Hget as <- <-.
  apply check_Done in Hres as [|Hres]; [done|]. apply Z.eqb_eq in Hres.
  apply check_Done in Hpass as [|Hpass]; [done|].
  apply negb_true_iff, N.eqb_neq in Hpass.
  exists rp, (vkCreateRenderPass env (gpu w) rp).1.
  destruct (vkCreateRenderPass env (gpu w) rp) as [g [res pass]]. simpl in *. subst res.
  done.
Qed.

(** X5.  A call of [GetRenderPass] that returns yields a handle that is
    not null and that the cache then holds for the key; the handles cached
    for all other keys are what they were, and nothing else of the queue
    runner and no framebuffer changes. *)
Theorem GetRenderPass_cache_grows key (w w1 : World G) pass :
  GetRenderPass key w = Done (pass, w1) →
  pass ≠ VK_NULL_HANDLE
  ∧ DenseHashMap_Get (renderPasses_ (qr w1)) key = pass
  ∧ (∀ k, k ≠ key →
       DenseHashMap_Get (renderPasses_ (qr w1)) k = DenseHashMap_Get (renderPasses_ (qr w)) k)
  ∧ set_renderPasses (renderPasses_ (qr w)) (qr w1) = qr w
  ∧ fbs w1 = fbs w.
Proof.
  intros Hget.
  destruct (decide (DenseHashMap_Get (renderPasses_ (qr w)) key = VK_NULL_HANDLE))
    as [Hmiss|Hhit].
  - destruct (GetRenderPass_miss key w w1 pass Hmiss Hget) as (rp & g & _ & _ & Hne & ->).
    simpl. unfold DenseHashMap_Get, DenseHashMap_Insert.
    split; [done|]. split; [by rewrite lookup_insert_eq|].
    split; [by intros k Hk; rewrite lookup_insert_ne|]. split; [by destruct (qr w)|done].
  - rewrite GetRenderPass_cached in Hget by done. injection Hget as <- <-.
    repeat split; try done. by destruct (qr w).
Qed.

(** ** What the executor records *)

Lemma appended_refl (w : World G) : appended w w [].
Proof. unfold appended. by rewrite app_nil_r. Qed.

Lemma appended_trans (w w1 w2 : World G) cs1 cs2 :
  appended w w1 cs1 → appended w1 w2 cs2 → appended w w2 (cs1 ++ cs2).
Proof. unfold appended. intros H1 H2. by rewrite H2, H1, app_assoc. Qed.

Lemma appended_emit c (w : World G) : appended w (emit c w) [c].
Proof. done. Qed.

Lemma appended_same (w w1 : World G) : trace w1 = trace w → appended w w1 [].
Proof. unfold appended. intros ->. by rewrite app_nil_r. Qed.

Lemma passState_app b cs1 cs2 :
  passState b (cs1 ++ cs2) = passState b cs1 ≫= λ b', passState b' cs2.
Proof.
  revert b. induction cs1 as [|c cs1 IH]; intros b; [done|].
  simpl. destruct (recordCall b c); [apply IH|done].
Qed.

Lemma passState_outside cs : forallb outsideCall cs = true → passState false cs = Some false.
Proof.
  induction cs as [|c cs IH]; [done|]. simpl. intros [Hc Hcs]%andb_true_iff.
  unfold recordCall, outsideCall in *. destruct (callPlace c); try done; by apply IH.
Qed.

Lemma passState_inside cs : forallb insideCall cs = true → passState true cs = Some true.
Proof.
  induction cs as [|c cs IH]; [done|]. simpl. intros [Hc Hcs]%andb_true_iff.
  unfold recordCall, insideCall in *. destruct (callPlace c); try done; by apply IH.
Qed.

Lemma outside_no_draw cs : forallb outsideCall cs = true → List.filter isDrawCall cs = [].
Proof.
  induction cs as [|c cs IH]; [done|]. simpl. intros [Hc Hcs]%andb_true_iff.
  rewrite IH by done. by destruct c.
Qed.

(** The shape of the lemmas below: a function that returns has recorded
    calls [cs] with the property [P]. *)
Lemma ofoldl_appended {B} (P : list Call → Prop) (f : World G → B → Outcome (World G)) l :
  P [] →
  (∀ cs1 cs2, P cs1 → P cs2 → P (cs1 ++ cs2)) →
  (∀ w b w1, f w b = Done w1 → ∃ cs, appended w w1 cs ∧ P cs) →
  ∀ w w1, ofoldl f w l = Done w1 → ∃ cs, appended w w1 cs ∧ P cs.
Proof.
  intros Hnil Happ Hf. induction l as [|b l IH]; intros w w1 Hrun; simpl in Hrun.
  - injection Hrun as <-. exists []. split; [apply appended_refl|done].
  - apply obind_Done in Hrun as (w' & Hb & Hrun).
    destruct (Hf _ _ _ Hb) as (cs1 & Ha1 & HP1).
    destruct (IH _ _ Hrun) as (cs2 & Ha2 & HP2).
    exists (cs1 ++ cs2). split; [by eapply appended_trans|by apply Happ].
Qed.

Lemma forallb_app_true {A} (f : A → bool) l1 l2 :
  forallb f l1 = true → forallb f l2 = true → forallb f (l1 ++ l2) = true.
Proof. intros H1 H2. by rewrite forallb_app, H1, H2. Qed.

Lemma GetRenderPass_appended key (w w1 : World G) pass :
  GetRenderPass key w = Done (pass, w1) →
  ∃ cs, appended w w1 cs ∧ forallb outsideCall cs = true.
Proof.
  intros Hget.
  destruct (decide (DenseHashMap_Get (renderPasses_ (qr w)) key = VK_NULL_HANDLE))
    as [Hmiss|Hhit].
  - destruct (GetRenderPass_miss key w w1 pass Hmiss Hget) as (rp & g & _ & _ & _ & ->).
    by eexists [_].
  - rewrite GetRenderPass_cached in Hget by done. injection Hget as <- <-.
    exists []. split; [apply appended_refl|done].
Qed.

Lemma preTransition_appended (w w1 : World G) iter :
  preTransition w iter = Done w1 →
  ∃ cs, appended w w1 cs ∧ forallb outsideCall cs = true.
Proof.
  unfold preTransition. destruct (negb _).
  - intros Hrun. apply obind_Done in Hrun as (s & _ & Hrun).
    apply obind_Done in Hrun as (d & _ & Hrun). injection Hrun as <-. by eexists [_].
  - intros [= <-]. exists []. split; [apply appended_refl|done].
Qed.

Lemma PerformBindFramebufferAsRenderTarget_appended (step : VKRStep) (w w1 : World G) :
  PerformBindFramebufferAsRenderTarget step w = Done w1 →
  ∃ cs b, appended w w1 (cs ++ [b]) ∧ forallb outsideCall cs = true
          ∧ callPlace b = BeginsPass.
Proof.
  unfold PerformBindFramebufferAsRenderTarget. cbv zeta.
  destruct (negb (Render.framebuffer (render step) =? nullptr)%N).
  - intros Hrun. apply obind_Done in Hrun as ([] & _ & Hrun).
    apply obind_Done in Hrun as ([rp w'] & Hget & Hrun). injection Hrun as <-.
    apply GetRenderPass_appended in Hget as (cs & Hcs & Hout).
    destruct (_ && _ && _).
    + eexists (_ :: cs), (vkCmdBeginRenderPass _ _ _ _ _). split.
      { unfold appended in *. simpl in *. rewrite Hcs. by rewrite <- !app_assoc. }
      done.
    + eexists cs, (vkCmdBeginRenderPass _ _ _ _ _). split.
      { unfold appended in *. simpl in *. rewrite Hcs. by rewrite <- app_assoc. }
      done.
  - intros [= <-]. by eexists [], (vkCmdBeginRenderPass _ _ _ _ _).
Qed.

Lemma replayCommand_appended fb cw ch (st st' : ReplayState * World G) c :
  replayCommand fb cw ch st c = Done st' →
  ∃ cs, appended st.2 st'.2 cs
        ∧ forallb insideCall cs = true
        ∧ List.filter isDrawCall cs = option_list (drawCallOf c).
Proof.
  destruct st as [rs w]. destruct c; unfold replayCommand, check; simpl; intros Hrun;
    repeat match type of Hrun with
           | context [if ?b then _ else _] => destruct b; simpl in Hrun; try discriminate
           | context [match ?l ++ _ with _ => _ end] => destruct l; simpl in Hrun
           end;
    injection Hrun as <-; simpl;
    try (by exists []; split; [apply appended_refl|]);
    try (by exists []);
    try (by eexists [_]);
    try (by eexists [_; _]);
    try (by eexists [_; _; _]);
    try (by eexists [_; _; _; _]).
Qed.

Lemma replay_appended fb cw ch cmds : ∀ (st st' : ReplayState * World G),
  ofoldl (replayCommand fb cw ch) st cmds = Done st' →
  ∃ cs, appended st.2 st'.2 cs
        ∧ forallb insideCall cs = true
        ∧ List.filter isDrawCall cs = omap drawCallOf cmds.
Proof.
  induction cmds as [|c cmds IH]; intros st st' Hrun; simpl in Hrun.
  - injection Hrun as <-. exists []. split; [apply appended_refl|done].
  - apply obind_Done in Hrun as (st1 & Hstep & Hrun).
    destruct (replayCommand_appended fb cw ch st st1 c Hstep) as (cs1 & Ha1 & Hin1 & Hd1).
    destruct (IH st1 st' Hrun) as (cs2 & Ha2 & Hin2 & Hd2).
    exists (cs1 ++ cs2). split; [by eapply appended_trans|].
    split; [by apply forallb_app_true|].
    rewrite List.filter_app, Hd1, Hd2. simpl. by destruct (drawCallOf c).
Qed.

Lemma preTransitions_appended l : ∀ (w w1 : World G),
  ofoldl preTransition w l = Done w1 →
  ∃ cs, appended w w1 cs ∧ forallb outsideCall cs = true.
Proof.
  apply (ofoldl_appended (λ cs, forallb outsideCall cs = true)); [done| |].
  - intros. by apply forallb_app_true.
  - intros w iter w1. apply preTransition_appended.
Qed.

Lemma PerformRenderPass_empty_keep_commands (step : VKRStep) :
  emptyKeepPass step = true → commands step = [].
Proof.
  unfold emptyKeepPass. intros H. repeat (apply andb_true_iff in H as [H _]).
  by apply bool_decide_eq_true in H.
Qed.

(** The calls of one render step: outside calls, and unless the step is an
    empty pass that keeps everything, the bracket of a render pass around
    the calls of its commands. *)
Lemma PerformRenderPass_appended (step : VKRStep) (w w1 : World G) :
  PerformRenderPass step w = Done w1 →
  ∃ pre body,
    appended w w1 (pre ++ body)
    ∧ forallb outsideCall pre = true
    ∧ (if emptyKeepPass step then body = []
       else ∃ b ins, body = b :: ins ++ [vkCmdEndRenderPass]
                     ∧ callPlace b = BeginsPass
                     ∧ forallb insideCall ins = true
                     ∧ List.filter isDrawCall ins = omap drawCallOf (commands step)).
Proof.
  unfold PerformRenderPass. intros Hrun.
  apply obind_Done in Hrun as (w' & Hpre & Hrun).
  apply preTransitions_appended in Hpre as (cs0 & Ha0 & Hout0).
  destruct (emptyKeepPass step).
  { injection Hrun as <-. exists cs0, []. by rewrite app_nil_r. }
  cbv zeta in Hrun.
  apply obind_Done in Hrun as (w3 & Hbind & Hrun).
  apply PerformBindFramebufferAsRenderTarget_appended in Hbind as (cs1 & b & Ha1 & Hout1 & Hb).
  apply obind_Done in Hrun as (st2 & Hrep & Hrun).
  apply replay_appended in Hrep as (ins & Ha2 & Hins & Hdraws).
  simpl in Ha2.
  assert (Hw1 : appended w3 w1 (ins ++ [vkCmdEndRenderPass])).
  { unfold appended in *. destruct (negb _); injection Hrun as <-; simpl;
      rewrite Ha2; by rewrite <- app_assoc. }
  clear Hrun Ha2.
  match type of Ha1 with
  | appended ?w2 _ _ =>
      assert (Hw2 : ∃ cs, appended w' w2 cs ∧ forallb outsideCall cs = true)
  end.
  { destruct (_ && _); [by eexists [_]|]. exists []. split; [apply appended_refl|done]. }
  destruct Hw2 as (cs2 & Ha2 & Hout2).
  exists (cs0 ++ cs2 ++ cs1), (b :: ins ++ [vkCmdEndRenderPass]). split; [|split].
  - unfold appended in *. rewrite Hw1, Ha1, Ha2, Ha0. simpl.
    by rewrite <- !app_assoc.
  - by repeat apply forallb_app_true.
  - by exists b, ins.
Qed.

(** X6.  Whatever state tracking does to the other commands, the draw
    calls a render step records are exactly its DRAW and DRAW_INDEXED
    commands, in their order: [vkCmdDraw] with the count of the command,
    [vkCmdDrawIndexed] with its count and with its [int16_t] instance count
    converted to [uint32_t].  No draw is dropped, repeated or reordered, and
    an empty pass that is not executed had none. *)
Theorem PerformRenderPass_records_draws (step : VKRStep) (w w1 : World G) :
  PerformRenderPass step w = Done w1 →
  drawCalls w1 = drawCalls w ++ omap drawCallOf (commands step).
Proof.
  intros Hrun. assert (Hkeep := PerformRenderPass_empty_keep_commands step).
  apply PerformRenderPass_appended in Hrun as (pre & body & Ha & Hout & Hbody).
  unfold drawCalls. rewrite Ha, !List.filter_app, (outside_no_draw pre) by done. simpl.
  f_equal. destruct (emptyKeepPass step).
  - subst body. by rewrite Hkeep.
  - destruct Hbody as (b & ins & -> & Hb & _ & Hdraws). simpl.
    rewrite List.filter_app, Hdraws. simpl. rewrite app_nil_r. by destruct b.
Qed.

Lemma transferRequest_trace setup L p a aspect
    (st st1 : World G * list VkImageMemoryBarrier * Z) :
  transferRequest setup L p a aspect st = Done st1 → trace st1.1.1 = trace st.1.1.
Proof.
  unfold transferRequest. destruct (negb _); [|by intros [= <-]].
  intros Hrun. apply obind_Done in Hrun as (r & _ & Hrun). by injection Hrun as <-.
Qed.

Lemma transferBarriers_barriers src dst aspectMask (w w1 : World G) :
  transferBarriers src dst aspectMask w = Done w1 →
  ∃ cs, appended w w1 cs ∧ forallb isBarrierCall cs = true.
Proof.
  unfold transferBarriers. intros Hrun.
  apply obind_Done in Hrun as (s1 & Hs1 & Hrun).
  apply obind_Done in Hrun as (d1 & Hd1 & Hrun).
  apply obind_Done in Hrun as (s2 & Hs2 & Hrun).
  apply obind_Done in Hrun as (d2 & Hd2 & Hrun).
  assert (Ht1 : trace s1.1.1 = trace w).
  { destruct (has_bits aspectMask Vk.IMAGE_ASPECT_COLOR_BIT);
      [by apply transferRequest_trace in Hs1|by injection Hs1 as <-]. }
  assert (Ht2 : trace d1.1.1 = trace s1.1.1).
  { destruct (has_bits aspectMask Vk.IMAGE_ASPECT_COLOR_BIT);
      [by apply transferRequest_trace in Hd1|by injection Hd1 as <-]. }
  assert (Ht3 : trace s2.1.1 = trace d1.1.1).
  { destruct (has_bits aspectMask depthStencilBits);
      [by apply transferRequest_trace in Hs2|by injection Hs2 as <-]. }
  assert (Ht4 : trace d2.1.1 = trace s2.1.1).
  { destruct (has_bits aspectMask depthStencilBits);
      [by apply transferRequest_trace in Hd2|by injection Hd2 as <-]. }
  injection Hrun as <-. unfold appended.
  destruct (s2.1.2), (d2.1.2); simpl; rewrite ?Ht4, ?Ht3, ?Ht2, ?Ht1.
  - exists []. by rewrite app_nil_r.
  - by eexists [_].
  - by eexists [_].
  - eexists [_; _]. split; [by rewrite <- app_assoc|done].
Qed.

Lemma barrier_outside cs : forallb isBarrierCall cs = true → forallb outsideCall cs = true.
Proof.
  induction cs as [|c cs IH]; [done|]. simpl. intros [Hc Hcs]%andb_true_iff.
  rewrite IH by done. by destruct c.
Qed.

Lemma transferBarriers_appended src dst aspectMask (w w1 : World G) :
  transferBarriers src dst aspectMask w = Done w1 →
  ∃ cs, appended w w1 cs ∧ forallb outsideCall cs = true.
Proof.
  intros Hrun. apply transferBarriers_barriers in Hrun as (cs & Ha & Hb).
  exists cs. split; [done|by apply barrier_outside].
Qed.

Lemma PerformCopy_appended (step : VKRStep) (w w1 : World G) :
  PerformCopy step w = Done w1 →
  ∃ cs, appended w w1 cs ∧ forallb outsideCall cs = true.
Proof.
  unfold PerformCopy. intros Hrun. apply obind_Done in Hrun as (w' & Hbar & Hrun).
  apply transferBarriers_appended in Hbar as (cs & Ha & Hout).
  injection Hrun as <-. unfold appended in *.
  destruct (has_bits _ Vk.IMAGE_ASPECT_COLOR_BIT), (has_bits _ depthStencilBits); simpl;
    rewrite Ha, <- ?app_assoc; eexists; (split; [reflexivity|]);
    first [done|by apply forallb_app_true].
Qed.

Lemma PerformBlit_appended (step : VKRStep) (w w1 : World G) :
  PerformBlit step w = Done w1 →
  ∃ cs, appended w w1 cs ∧ forallb outsideCall cs = true.
Proof.
  unfold PerformBlit. intros Hrun. apply obind_Done in Hrun as (w' & Hbar & Hrun).
  apply transferBarriers_appended in Hbar as (cs & Ha & Hout).
  injection Hrun as <-. unfold appended in *.
  destruct (has_bits _ Vk.IMAGE_ASPECT_COLOR_BIT), (has_bits _ depthStencilBits); simpl;
    rewrite Ha, <- ?app_assoc; eexists; (split; [reflexivity|]);
    first [done|by apply forallb_app_true].
Qed.

(** What [ResizeReadbackBuffer] records when it does not return at once:
    the old memory and buffer queued for deletion where there are any, the
    creation of the new buffer and the allocation, and then the binding or,
    when the allocation failed, the destruction of the new buffer. *)
Lemma ResizeReadbackBuffer_replaces requiredSize (w w1 : World G) :
  ResizeReadbackBuffer requiredSize w = Done w1 →
  (readbackBuffer_ (qr w) = VK_NULL_HANDLE ∨ readbackBufferSize_ (qr w) < requiredSize) →
  ∃ buf size typeIndex res mem,
    appended w w1
      ((if decide (readbackMemory_ (qr w) = VK_NULL_HANDLE) then []
        else [QueueDeleteDeviceMemory (readbackMemory_ (qr w))])
       ++ (if decide (readbackBuffer_ (qr w) = VK_NULL_HANDLE) then []
           else [QueueDeleteBuffer (readbackBuffer_ (qr w))])
       ++ [vkCreateBuffer_call requiredSize Vk.BUFFER_USAGE_TRANSFER_DST_BIT buf;
           vkAllocateMemory_call size typeIndex res mem;
           if decide (res = Vk.SUCCESS) then vkBindBufferMemory_call buf mem
           else vkDestroyBuffer_call buf])
    ∧ (∃ coherent,
         qr w1 = set_readback (if decide (res = Vk.SUCCESS) then mem else VK_NULL_HANDLE)
                   (if decide (res = Vk.SUCCESS) then buf else VK_NULL_HANDLE)
                   requiredSize coherent (qr w))
    ∧ fbs w1 = fbs w.
Proof.
  intros Hrun Hgrow. unfold ResizeReadbackBuffer in Hrun. cbv zeta in Hrun.
  assert (Hguard : negb (readbackBuffer_ (qr w) =? VK_NULL_HANDLE)%N
                   && (requiredSize <=? readbackBufferSize_ (qr w)) = false).
  { destruct Hgrow as [->|Hlt]; [done|]. apply andb_false_iff. right. by apply Z.leb_gt. }
  rewrite Hguard in Hrun. clear Hguard Hgrow.
  unfold appended.
  destruct (N.eqb_spec (readbackMemory_ (qr w)) VK_NULL_HANDLE) as [Hm|Hm];
    destruct (N.eqb_spec (readbackBuffer_ (qr w)) VK_NULL_HANDLE) as [Hb|Hb];
    cbn [negb gpu emit set_gpu] in Hrun;
    rewrite ?decide_True, ?decide_False by done;
    destruct (vkCreateBuffer env (gpu w) requiredSize Vk.BUFFER_USAGE_TRANSFER_DST_BIT)
      as [g1 buf];
    cbn [fst snd] in Hrun;
    destruct (vkGetBufferMemoryRequirements env g1 buf) as [size bits];
    cbn [fst snd] in Hrun;
    (destruct (findMemoryType bits desiredTypes) as [[reqs idx]|]; [|done]);
    destruct (vkAllocateMemory env g1 size idx) as [g2 [res mem]];
    cbn [fst snd] in Hrun;
    exists buf, size, idx, res, mem;
    (destruct (Z.eqb_spec res Vk.SUCCESS) as [Hres|Hres]);
    cbn [negb] in Hrun; injection Hrun as <-;
    rewrite ?decide_True, ?decide_False by done; simpl;
    (split; [by rewrite <- ?app_assoc|]); (split; [by eexists|done]).
Qed.

Lemma ResizeReadbackBuffer_frame requiredSize (w w1 : World G) :
  ResizeReadbackBuffer requiredSize w = Done w1 →
  requiredSize ≤ readbackBufferSize_ (qr w1)
  ∧ renderPasses_ (qr w1) = renderPasses_ (qr w)
  ∧ backbufferImage_ (qr w1) = backbufferImage_ (qr w)
  ∧ fbs w1 = fbs w
  ∧ ∃ cs, appended w w1 cs ∧ bufferCopies cs = [] ∧ forallb outsideCall cs = true.
Proof.
  intros Hrun.
  destruct (decide (readbackBuffer_ (qr w) = VK_NULL_HANDLE
                    ∨ readbackBufferSize_ (qr w) < requiredSize)) as [Hgrow|Hno].
  - destruct (ResizeReadbackBuffer_replaces _ _ _ Hrun Hgrow)
      as (buf & size & idx & res & mem & Ha & (coh & Hqr) & Hfbs).
    rewrite Hqr. simpl. split; [lia|]. repeat split; try done.
    eexists. split; [exact Ha|].
    by destruct (decide (readbackMemory_ _ = _)), (decide (readbackBuffer_ _ = _)),
      (decide (res = _)).
  - unfold ResizeReadbackBuffer in Hrun. cbv zeta in Hrun.
    destruct (N.eqb_spec (readbackBuffer_ (qr w)) VK_NULL_HANDLE) as [Hb|Hb];
      [by destruct Hno; left|].
    destruct (Z.leb_spec requiredSize (readbackBufferSize_ (qr w))) as [Hle|Hlt];
      [|by destruct Hno; right].
    simpl in Hrun. injection Hrun as <-. repeat split; try done.
    exists []. split; [apply appended_refl|done].
Qed.

Lemma ResizeReadbackBuffer_appended requiredSize (w w1 : World G) :
  ResizeReadbackBuffer requiredSize w = Done w1 →
  ∃ cs, appended w w1 cs ∧ forallb outsideCall cs = true.
Proof.
  intros Hrun. apply ResizeReadbackBuffer_frame in Hrun as (_ & _ & _ & _ & cs & ? & _ & ?).
  by exists cs.
Qed.

Lemma SetupTransition_layout from dstAccess newLayout what img stage aspect r :
  SetupTransition from dstAccess newLayout what img stage aspect = Done r →
  layout r.1.1 = newLayout ∧ image r.1.1 = image img ∧ format r.1.1 = format img.
Proof.
  unfold SetupTransition. intros Hrun. apply obind_Done in Hrun as (s & _ & Hrun).
  by injection Hrun as <-.
Qed.

(** The calls of a readback step: the staging buffer is sized first; an
    offscreen image is brought to the transfer-source layout if it is not in
    it; then comes the one copy into the staging buffer; the backbuffer is
    taken out of the present layout and put back. *)
Lemma PerformReadback_appended (step : VKRStep) (w w1 : World G) :
  PerformReadback step w = Done w1 →
  ∃ cs, appended w w1 cs ∧ forallb outsideCall cs = true.
Proof.
  unfold PerformReadback. intros Hrun. apply obind_Done in Hrun as (w' & Hres & Hrun).
  apply ResizeReadbackBuffer_appended in Hres as (cs & Ha & Hout).
  destruct (Readback.src (readback step) =? nullptr)%N.
  { injection Hrun as <-. eexists (cs ++ [_; _; _]). split.
    - unfold appended in *. simpl. rewrite Ha. by rewrite <- !app_assoc.
    - by apply forallb_app_true. }
  cbv zeta in Hrun.
  destruct (if has_bits _ Vk.IMAGE_ASPECT_COLOR_BIT then _ else _) as [a|].
  - apply obind_Done in Hrun as (st & Hreq & Hrun).
    apply transferRequest_trace in Hreq. simpl in Hreq. injection Hrun as <-.
    unfold appended in *. destruct (st.1.2); simpl; rewrite Hreq, Ha.
    + eexists (cs ++ [_]). split; [by rewrite <- app_assoc|]. by apply forallb_app_true.
    + eexists (cs ++ [_; _]). split; [by rewrite <- !app_assoc|]. by apply forallb_app_true.
  - apply obind_Done in Hrun as ([] & _ & Hrun). injection Hrun as <-. by exists cs.
Qed.

Lemma PerformReadbackImage_appended (step : VKRStep) (w w1 : World G) :
  PerformReadbackImage step w = Done w1 →
  ∃ cs, appended w w1 cs ∧ forallb outsideCall cs = true.
Proof.
  unfold PerformReadbackImage. intros Hrun. cbv zeta in Hrun.
  apply obind_Done in Hrun as (t & _ & Hrun).
  apply obind_Done in Hrun as (w2 & Hres & Hrun).
  apply ResizeReadbackBuffer_appended in Hres as (cs & Ha & Hout).
  injection Hrun as <-. eexists ([_] ++ cs ++ [_; _]). split.
  - unfold appended in *. simpl in *. rewrite Ha. by rewrite <- !app_assoc.
  - by repeat apply forallb_app_true.
Qed.

Lemma PerformRenderPass_passState (step : VKRStep) (w w1 : World G) :
  PerformRenderPass step w = Done w1 →
  ∃ cs, appended w w1 cs ∧ passState false cs = Some false.
Proof.
  intros Hrun. apply PerformRenderPass_appended in Hrun as (pre & body & Ha & Hout & Hbody).
  exists (pre ++ body). split; [done|].
  rewrite passState_app, (passState_outside pre) by done. simpl.
  destruct (emptyKeepPass step); [by subst body|].
  destruct Hbody as (b & ins & -> & Hb & Hins & _). simpl.
  unfold recordCall at 1. rewrite Hb.
  by rewrite passState_app, (passState_inside ins) by done.
Qed.

Lemma performStep_passState (h : gmap ptr VKRStep) (w w1 : World G) p :
  performStep h w p = Done w1 →
  ∃ cs, appended w w1 cs ∧ passState false cs = Some false.
Proof.
  unfold performStep. destruct (stepType (h !!! p)); intros Hrun.
  - by apply (PerformRenderPass_passState (h !!! p)).
  - injection Hrun as <-. exists []. split; [apply appended_refl|done].
  - apply PerformCopy_appended in Hrun as (cs & ? & ?). exists cs.
    split; [done|by apply passState_outside].
  - apply PerformBlit_appended in Hrun as (cs & ? & ?). exists cs.
    split; [done|by apply passState_outside].
  - apply PerformReadback_appended in Hrun as (cs & ? & ?). exists cs.
    split; [done|by apply passState_outside].
  - apply PerformReadbackImage_appended in Hrun as (cs & ? & ?). exists cs.
    split; [done|by apply passState_outside].
Qed.

(** X8.  In the command buffer [RunSteps] records into, render passes are
    bracketed properly: when recording starts outside a render pass, every
    [vkCmdBeginRenderPass] is followed by its [vkCmdEndRenderPass] before the
    next pass begins or the function returns, draws and attachment clears are
    recorded only between the two, and image barriers, layout transitions,
    copies, blits and copies to the staging buffer only outside of them. *)
Theorem RunSteps_render_passes_bracketed vec h (w w1 : World G) vec' h1 :
  RunSteps vec h w = Done (w1, vec', h1) →
  passState false (trace w) = Some false →
  passState false (trace w1) = Some false.
Proof.
  unfold RunSteps. intros Hrun Hstart.
  apply obind_Done in Hrun as (st & _ & Hrun).
  apply obind_Done in Hrun as (w' & Hexec & Hrun).
  apply obind_Done in Hrun as (h' & _ & Hrun). injection Hrun as <- _ _.
  apply (ofoldl_appended (λ cs, passState false cs = Some false)) in Hexec
    as (cs & Ha & Hcs).
  - rewrite Ha, passState_app, Hstart. done.
  - done.
  - intros cs1 cs2 H1 H2. by rewrite passState_app, H1.
  - intros w0 p w2. apply performStep_passState.
Qed.

(** ** The state tracking of the command replay *)

Lemma last_omap_app {A B} (f : A → option B) cs cs1 :
  last (omap f (cs ++ cs1))
  = match last (omap f cs1) with Some v => Some v | None => last (omap f cs) end.
Proof.
  rewrite omap_app. destruct (omap f cs1) as [|b l] using rev_ind.
  - by rewrite app_nil_r.
  - by rewrite app_assoc, !last_snoc.
Qed.

Lemma app_eq_self {A} (l cs : list A) : l = l ++ cs → cs = [].
Proof. intros H. apply (app_inv_head l). by rewrite app_nil_r. Qed.

Lemma ofoldl_app {A B} (f : A → B → Outcome A) l1 l2 : ∀ a,
  ofoldl f a (l1 ++ l2) = (a' ←! ofoldl f a l1; ofoldl f a' l2).
Proof.
  induction l1 as [|b l1 IH]; intros a; simpl; [done|].
  destruct (f a b) as [a1|why]; simpl; [apply IH|done].
Qed.

Lemma replayCommand_tracks fb cw ch (rs : ReplayState) (w : World G) c cs st' :
  replayCommand fb cw ch (rs, w) c = Done st' →
  replayTracks rs cs →
  ∃ cs1, appended w st'.2 cs1 ∧ replayTracks st'.1 (cs ++ cs1).
Proof.
  intros Hrun (Hp & Hw & Hc & Hr).
  destruct (replayCommand_appended fb cw ch (rs, w) st' c Hrun) as (cs1 & Ha & _).
  exists cs1. split; [done|]. unfold appended in Ha. simpl in Ha.
  revert Ha. destruct c; unfold replayCommand, check in Hrun; simpl in Hrun;
    repeat match type of Hrun with
           | context [if ?b then _ else _] =>
               destruct b eqn:?; simpl in Hrun; try discriminate
           | context [match ?l ++ _ with _ => _ end] => destruct l; simpl in Hrun
           end;
    injection Hrun as <-; simpl;
    rewrite <- ?app_assoc; simpl;
    intros Ha; first [apply app_eq_self in Ha|apply app_inv_head in Ha]; subst cs1;
    unfold replayTracks, boundPipeline, stencilWriteMaskSet, stencilCompareMaskSet,
      stencilReferenceSet;
    rewrite !last_omap_app; simpl;
    repeat match goal with
           | H : negb (_ =? _) = false |- _ => apply negb_false_iff, Z.eqb_eq in H
           | H : negb (_ =? _)%N = false |- _ => apply negb_false_iff, N.eqb_eq in H
           end;
    repeat split; auto; try (by right); try (by left).
Qed.

Lemma replay_tracks fb cw ch cmds : ∀ (rs : ReplayState) (w : World G) cs st',
  ofoldl (replayCommand fb cw ch) (rs, w) cmds = Done st' →
  replayTracks rs cs →
  ∃ cs1, appended w st'.2 cs1 ∧ replayTracks st'.1 (cs ++ cs1).
Proof.
  induction cmds as [|c cmds IH]; intros rs w cs st' Hrun Htr; simpl in Hrun.
  - injection Hrun as <-. exists []. split; [apply appended_refl|by rewrite app_nil_r].
  - apply obind_Done in Hrun as ([rs1 w1] & Hstep & Hrun).
    destruct (replayCommand_tracks fb cw ch rs w c cs _ Hstep Htr) as (cs1 & Ha1 & Htr1).
    simpl in *.
    destruct (IH rs1 w1 _ _ Hrun Htr1) as (cs2 & Ha2 & Htr2).
    exists (cs1 ++ cs2). split; [by eapply appended_trans|by rewrite app_assoc].
Qed.

(** The replay of a command stops only in the assertions on the rotated
    scissor rectangle, which are made for the backbuffer in a debug build. *)
Lemma replayCommand_returns fb cw ch (st : ReplayState * World G) c :
  fb ≠ nullptr ∨ dbg_asserts env = false →
  ∃ st', replayCommand fb cw ch st c = Done st'.
Proof.
  intros Hok. destruct c; unfold replayCommand, check; cbv zeta; try (by eexists).
  - destruct (negb _); by eexists.
  - destruct (negb _); by eexists.
  - destruct Hok as [Hfb|Hdbg].
    + rewrite (proj2 (N.eqb_neq _ _) Hfb). by eexists.
    + rewrite Hdbg. destruct (negb _); by eexists.
  - destruct (_ ++ _); by eexists.
Qed.

Lemma replay_returns fb cw ch cmds : ∀ (st : ReplayState * World G),
  fb ≠ nullptr ∨ dbg_asserts env = false →
  ∃ st', ofoldl (replayCommand fb cw ch) st cmds = Done st'.
Proof.
  induction cmds as [|c cmds IH]; intros st Hok; simpl; [by eexists|].
  destruct (replayCommand_returns fb cw ch st c Hok) as (st1 & ->). simpl. by apply IH.
Qed.

(** X7.  Leaving out redundant state commands never leaves stale state
    behind.  The replay of a command list from the start of a render pass
    returns, except that for the backbuffer a debug build can stop in the
    assertions on a rotated scissor rectangle.  When it returns: if the last
    command is BIND_PIPELINE with a pipeline that is not the null handle,
    the pipeline bound last in the command buffer is that pipeline; if the
    last command is STENCIL, each of the write mask, compare mask and
    reference set last in the command buffer is the value of that command,
    for values other than -1 (they are [uint8_t] in the source). *)
Theorem replay_elision_sound fb cw ch (w : World G) l c :
  (fb ≠ nullptr ∨ dbg_asserts env = false →
   ∃ st, ofoldl (replayCommand fb cw ch) (replayStart w) (l ++ [c]) = Done st)
  ∧ ∀ st, ofoldl (replayCommand fb cw ch) (replayStart w) (l ++ [c]) = Done st →
      ∃ cs,
        appended w st.2 cs
        ∧ match c with
          | RdBindPipeline p => p ≠ VK_NULL_HANDLE → boundPipeline cs = Some p
          | RdStencil a =>
              (stencilWriteMask a ≠ -1
               → stencilWriteMaskSet cs = Some (stencilWriteMask a))
              ∧ (stencilCompareMask a ≠ -1
                 → stencilCompareMaskSet cs = Some (stencilCompareMask a))
              ∧ (stencilRef a ≠ -1 → stencilReferenceSet cs = Some (stencilRef a))
          | _ => True
          end.
Proof.
  split; [apply replay_returns|].
  intros st Hrun. unfold replayStart in Hrun. rewrite ofoldl_app in Hrun.
  apply obind_Done in Hrun as ([rs1 w1] & Hl & Hrun). simpl in Hrun.
  apply obind_Done in Hrun as (st1 & Hstep & Hrun). injection Hrun as <-.
  destruct (replay_tracks fb cw ch l (mkReplay VK_NULL_HANDLE (-1) (-1) (-1)) w [] _ Hl)
    as (cs1 & Ha1 & Htr1); [by repeat split; left|].
  simpl in *.
  destruct (replayCommand_tracks fb cw ch rs1 w1 c cs1 _ Hstep Htr1) as (cs2 & Ha2 & Htr2).
  exists (cs1 ++ cs2). split; [by eapply appended_trans|].
  destruct Htr2 as (Hp & Hw & Hc & Hr).
  destruct c as [|p| | | | |a| | | |]; try done; simpl in *.
  - intros Hne. destruct (negb (p =? lastPipeline rs1)%N) eqn:Hnew;
      injection Hstep as <-; simpl in *.
    + by destruct Hp.
    + apply negb_false_iff, N.eqb_eq in Hnew. subst p. by destruct Hp.
  - injection Hstep as <-. repeat split; intros Hne.
    + destruct (negb (lastStencilWriteMask rs1 =? stencilWriteMask a)) eqn:Hd; simpl in *;
        [by destruct Hw|].
      apply negb_false_iff, Z.eqb_eq in Hd. rewrite <- Hd in *. by destruct Hw.
    + destruct (negb (lastStencilCompareMask rs1 =? stencilCompareMask a)) eqn:Hd;
        simpl in *; [by destruct Hc|].
      apply negb_false_iff, Z.eqb_eq in Hd. rewrite <- Hd in *. by destruct Hc.
    + destruct (negb (lastStencilReference rs1 =? stencilRef a)) eqn:Hd; simpl in *;
        [by destruct Hr|].
      apply negb_false_iff, Z.eqb_eq in Hd. rewrite <- Hd in *. by destruct Hr.
Qed.

(** ** Copies, blits and readbacks *)

Lemma imageOf_set_imageOf_ne a a' img fb :
  a' ≠ a → imageOf a' (set_imageOf a img fb) = imageOf a' fb.
Proof. by destruct a, a'. Qed.

Lemma transferRequest_post from dstAccess L what p a aspect
    (st st1 : World G * list VkImageMemoryBarrier * Z) :
  transferRequest (SetupTransition from dstAccess L what) L p a aspect st = Done st1 →
  layout (imageOf a (fbAt st1.1.1 p)) = L
  ∧ image (imageOf a (fbAt st1.1.1 p)) = image (imageOf a (fbAt st.1.1 p))
  ∧ (∀ p' a', p' ≠ p ∨ a' ≠ a →
       imageOf a' (fbAt st1.1.1 p') = imageOf a' (fbAt st.1.1 p'))
  ∧ qr st1.1.1 = qr st.1.1.
Proof.
  unfold transferRequest.
  destruct (Z.eqb_spec (layout (imageOf a (fbAt st.1.1 p))) L) as [Heq|Hne]; simpl.
  - by intros [= <-].
  - intros Hrun. apply obind_Done in Hrun as (r & Hset & Hrun). injection Hrun as <-.
    apply SetupTransition_layout in Hset as (Hl & Hi & _). simpl.
    rewrite fbAt_set_fb, imageOf_set_imageOf. repeat split; try done.
    intros p' a' [Hp|Ha].
    + by rewrite fbAt_set_fb_ne.
    + destruct (decide (p' = p)) as [->|Hp]; [|by rewrite fbAt_set_fb_ne].
      by rewrite fbAt_set_fb, imageOf_set_imageOf_ne.
Qed.





(** X11.  When [ResizeReadbackBuffer] has to replace the staging buffer
    (there is none, or it is smaller than asked for), it hands the old memory
    and the old buffer, where they exist, to the deferred deletion queue, and
    only then creates a buffer of exactly the size asked for and allocates
    memory for it.  If the allocation succeeds the new buffer is bound to the
    new memory and the two become the staging buffer; if it fails the new
    buffer is destroyed at once and the runner is left without buffer and
    memory.  In both cases the recorded capacity is the size asked for, and
    nothing else of the runner changes apart from the coherence flag. *)
Theorem ResizeReadbackBuffer_defers_release requiredSize (w w1 : World G) :
  ResizeReadbackBuffer requiredSize w = Done w1 →
  (readbackBuffer_ (qr w) = VK_NULL_HANDLE ∨ readbackBufferSize_ (qr w) < requiredSize) →
  ∃ buf size typeIndex res mem,
    appended w w1
      ((if decide (readbackMemory_ (qr w) = VK_NULL_HANDLE) then []
        else [QueueDeleteDeviceMemory (readbackMemory_ (qr w))])
       ++ (if decide (readbackBuffer_ (qr w) = VK_NULL_HANDLE) then []
           else [QueueDeleteBuffer (readbackBuffer_ (qr w))])
       ++ [vkCreateBuffer_call requiredSize Vk.BUFFER_USAGE_TRANSFER_DST_BIT buf;
           vkAllocateMemory_call size typeIndex res mem;
           if decide (res = Vk.SUCCESS) then vkBindBufferMemory_call buf mem
           else vkDestroyBuffer_call buf])
    ∧ (∃ coherent,
         qr w1 = set_readback (if decide (res = Vk.SUCCESS) then mem else VK_NULL_HANDLE)
                   (if decide (res = Vk.SUCCESS) then buf else VK_NULL_HANDLE)
                   requiredSize coherent (qr w))
    ∧ fbs w1 = fbs w.
Proof. apply ResizeReadbackBuffer_replaces. Qed.

(** X12.  A readback step that returns leaves the recorded capacity of the
    staging buffer at least as large as the [4 * width * height] bytes of the
    region, and records at most one copy into a buffer: from the backbuffer
    image when the source is the null framebuffer, else from the color image
    when the color aspect is asked for, else from the depth image when depth
    or stencil is asked for, and none at all for any other aspect mask.  The
    copy names TRANSFER_SRC_OPTIMAL as the layout of the image and goes into
    the staging buffer as [ResizeReadbackBuffer] left it, which is the null
    handle after a failed allocation.  An offscreen image read is left tagged
    TRANSFER_SRC_OPTIMAL; a readback of the backbuffer changes no layout
    tag. *)
Theorem PerformReadback_copies (step : VKRStep) (w w1 : World G) :
  PerformReadback step w = Done w1 →
  let r := readback step in
  let src := Readback.src r in
  let picked :=
    if decide (src = nullptr) then None
    else if has_bits (Readback.aspectMask r) Vk.IMAGE_ASPECT_COLOR_BIT then Some ColorImage
    else if has_bits (Readback.aspectMask r) depthStencilBits then Some DepthImage
    else None in
  readbackBytes (extent (Readback.srcRect r)) ≤ readbackBufferSize_ (qr w1)
  ∧ (∃ cs, appended w w1 cs
           ∧ bufferCopies cs
             = if decide (src = nullptr)
               then [(backbufferImage_ (qr w), Vk.IMAGE_LAYOUT_TRANSFER_SRC_OPTIMAL,
                      readbackBuffer_ (qr w1))]
               else match picked with
                    | Some a => [(image (imageOf a (fbAt w src)),
                                  Vk.IMAGE_LAYOUT_TRANSFER_SRC_OPTIMAL,
                                  readbackBuffer_ (qr w1))]
                    | None => []
                    end)
  ∧ match picked with
    | Some a => layout (imageOf a (fbAt w1 src)) = Vk.IMAGE_LAYOUT_TRANSFER_SRC_OPTIMAL
    | None => fbs w1 = fbs w
    end.
Proof.
  intros Hrun r src picked. unfold PerformReadback in Hrun.
  apply obind_Done in Hrun as (w' & Hres & Hrun).
  apply ResizeReadbackBuffer_frame in Hres
    as (Hcap & _ & Hbb & Hfbs & cs & Ha & Hnone & _).
  fold r in Hrun, Hcap. fold src in Hrun. unfold picked. clear picked.
  destruct (decide (src = nullptr)) as [Hnull|Hsrc].
  { rewrite (proj2 (N.eqb_eq _ _) Hnull) in Hrun.
    injection Hrun as <-. simpl. split; [done|]. split; [|done].
    eexists (cs ++ [_; _; _]). split.
    - unfold appended in *. simpl. rewrite Ha. by rewrite <- !app_assoc.
    - unfold bufferCopies in *. rewrite omap_app, Hnone. simpl. by rewrite Hbb. }
  rewrite (proj2 (N.eqb_neq _ _) Hsrc) in Hrun. cbv zeta in Hrun.
  destruct (has_bits (Readback.aspectMask r) Vk.IMAGE_ASPECT_COLOR_BIT);
    [|destruct (has_bits (Readback.aspectMask r) depthStencilBits)].
  3: { apply obind_Done in Hrun as ([] & _ & Hrun). injection Hrun as <-.
       split; [done|]. split; [by exists cs|done]. }
  - apply obind_Done in Hrun as (st & Hreq & Hrun).
    assert (Htr := transferRequest_trace _ _ _ _ _ _ _ Hreq).
    apply transferRequest_post in Hreq as (Hlay & Himg & _ & Hqr).
    simpl in Htr, Hlay, Himg, Hqr. injection Hrun as <-.
    split; [by destruct (st.1.2); simpl; rewrite Hqr|].
    split; [|by destruct (st.1.2)].
    unfold appended, bufferCopies in *.
    destruct (st.1.2); simpl; rewrite Htr, Ha, ?Hqr;
      [eexists (cs ++ [_])|eexists (cs ++ [_; _])];
      (split; [by rewrite <- ?app_assoc|]);
      rewrite omap_app, Hnone; simpl; rewrite ?fbAt_emit, Hlay, Himg; unfold fbAt;
      by rewrite Hfbs.
  - apply obind_Done in Hrun as (st & Hreq & Hrun).
    assert (Htr := transferRequest_trace _ _ _ _ _ _ _ Hreq).
    apply transferRequest_post in Hreq as (Hlay & Himg & _ & Hqr).
    simpl in Htr, Hlay, Himg, Hqr. injection Hrun as <-.
    split; [by destruct (st.1.2); simpl; rewrite Hqr|].
    split; [|by destruct (st.1.2)].
    unfold appended, bufferCopies in *.
    destruct (st.1.2); simpl; rewrite Htr, Ha, ?Hqr;
      [eexists (cs ++ [_])|eexists (cs ++ [_; _])];
      (split; [by rewrite <- ?app_assoc|]);
      rewrite omap_app, Hnone; simpl; rewrite ?fbAt_emit, Hlay, Himg; unfold fbAt;
      by rewrite Hfbs.
Qed.

(** ** [CopyReadbackBuffer] *)

Lemma copyRows_outside n : ∀ dst src dstOff srcOff W S a,
  (∀ y, 0 ≤ y < Z.of_nat n → ¬ (dstOff + y * S ≤ a < dstOff + y * S + W)) →
  copyRows n dst src dstOff srcOff W S a = dst a.
Proof.
  induction n as [|n IH]; intros dst src dstOff srcOff W S a Hout; [done|].
  simpl. rewrite IH.
  - unfold memcpy. specialize (Hout 0 ltac:(lia)).
    destruct (Z.leb_spec dstOff a), (Z.ltb_spec a (dstOff + W)); simpl; try done. lia.
  - intros y Hy Hin. apply (Hout (y + 1)); lia.
Qed.

Lemma copyRows_inside n : ∀ dst src dstOff srcOff W S y x,
  0 ≤ W ≤ S → 0 ≤ y < Z.of_nat n → 0 ≤ x < W →
  copyRows n dst src dstOff srcOff W S (dstOff + y * S + x) = src (srcOff + y * W + x).
Proof.
  induction n as [|n IH]; intros dst src dstOff srcOff W S y x HW Hy Hx; [lia|].
  simpl. destruct (decide (y = 0)) as [->|Hne].
  - rewrite copyRows_outside.
    + unfold memcpy.
      destruct (Z.leb_spec dstOff (dstOff + 0 * S + x)),
        (Z.ltb_spec (dstOff + 0 * S + x) (dstOff + W)); simpl; try lia.
      f_equal. lia.
    + intros y' Hy' Hin. nia.
  - replace (dstOff + y * S + x) with (dstOff + S + (y - 1) * S + x) by lia.
    rewrite IH by lia. f_equal. lia.
Qed.

(** Where the pixel count fits [int] and the byte count fits [size_t], the
    size mapped is the byte count of the region. *)
Lemma mappedSize_exact width height sz :
  0 ≤ width * height < 2 ^ 31 → 0 ≤ sz → width * height * sz < 2 ^ 64 →
  mappedSize width height sz = width * height * sz.
Proof.
  intros Hint Hsz Hfit. unfold mappedSize, int_wrap, size_t_wrap.
  rewrite (Z.mod_small (width * height + 2 ^ 31)) by lia.
  replace (width * height + 2 ^ 31 - 2 ^ 31) with (width * height) by lia.
  rewrite (Z.mod_small (width * height)) by lia.
  apply Z.mod_small. nia.
Qed.

(** X13.  Readback between equal formats (other than the two 8888 formats,
    which are converted).  With readback memory present, a region no wider
    than the destination stride whose pixel count fits [int] and whose byte
    counts fit [size_t], and the mapping of the region's
    [width * height * size] bytes successful, [CopyReadbackBuffer] returns
    and has copied the region row by row: byte [x] of row [y] of the tightly
    packed mapped memory is byte [x] of row [y] of the destination, whose
    rows are [pixelStride] pixels apart; every destination byte outside
    these rows is what it was. *)
Theorem CopyReadbackBuffer_same_format width height fmt pixelStride
    (pixels : Z → Z) (w : World G) :
  let sz := DataFormatSizeInBytes env fmt in
  let mapped := vkMapMemory env (gpu w) (readbackMemory_ (qr w)) (width * height * sz) in
  readbackMemory_ (qr w) ≠ VK_NULL_HANDLE →
  mapped.1 = Vk.SUCCESS →
  fmt ≠ R8G8B8A8_UNORM env → fmt ≠ B8G8R8A8_UNORM env →
  0 ≤ width ≤ pixelStride → 0 ≤ height → width * height < 2 ^ 31 →
  0 ≤ sz → pixelStride * sz < 2 ^ 64 → width * height * sz < 2 ^ 64 →
  ∃ pixels' w1,
    CopyReadbackBuffer width height fmt fmt pixelStride pixels w = Done (pixels', w1)
    ∧ (∀ y x, 0 ≤ y < height → 0 ≤ x < width * sz →
         pixels' (y * (pixelStride * sz) + x) = mapped.2 (y * (width * sz) + x))
    ∧ (∀ a, (∀ y, 0 ≤ y < height →
                  ¬ (y * (pixelStride * sz) ≤ a < y * (pixelStride * sz) + width * sz)) →
            pixels' a = pixels a).
Proof.
  intros sz mapped Hmem Hmap Hrgba Hbgra Hwidth Hheight Hint Hsz Hfit Hbytes.
  unfold CopyReadbackBuffer. cbv zeta. fold sz.
  rewrite (mappedSize_exact width height sz) by (done || nia). fold mapped.
  rewrite (proj2 (N.eqb_neq _ _) Hmem), Hmap.
  rewrite (proj2 (Z.eqb_neq _ _) Hrgba), (proj2 (Z.eqb_neq _ _) Hbgra), (Z.eqb_refl fmt).
  cbn [negb Z.eqb Vk.SUCCESS obind fst snd]. eexists _, _. split; [reflexivity|].
  assert (HW : size_t_wrap (width * sz) = width * sz).
  { apply Z.mod_small. nia. }
  assert (HS : size_t_wrap (pixelStride * sz) = pixelStride * sz).
  { apply Z.mod_small. nia. }
  rewrite HW, HS. split.
  - intros y x Hy Hx.
    rewrite <- (Z.add_0_l (y * (pixelStride * sz) + x)), Z.add_assoc.
    rewrite copyRows_inside; [done|nia|lia|lia].
  - intros a Hout. apply copyRows_outside. intros y Hy. rewrite Z.add_0_l.
    apply Hout. lia.
Qed.

(** X14.  The mapping of the readback memory is always released, and a
    failure touches nothing.  Without readback memory [CopyReadbackBuffer]
    returns at once: nothing is recorded and the pixels are untouched.
    Otherwise it maps the memory, invalidates the range unless the memory is
    coherent, both with the size [width * height * srcPixelSize] as the code
    computes it (the pixel count as an [int], then widened), and then, if
    the mapping failed, logs the failure and returns with the pixels
    untouched and no unmap; if it succeeded, the last call is the one
    [vkUnmapMemory] of that memory. *)
Theorem CopyReadbackBuffer_releases_mapping width height srcFormat destFormat pixelStride
    (pixels pixels' : Z → Z) (w w1 : World G) :
  CopyReadbackBuffer width height srcFormat destFormat pixelStride pixels w
  = Done (pixels', w1) →
  let mem := readbackMemory_ (qr w) in
  let size := mappedSize width height (DataFormatSizeInBytes env srcFormat) in
  let res := (vkMapMemory env (gpu w) mem size).1 in
  if decide (mem = VK_NULL_HANDLE) then w1 = w ∧ pixels' = pixels
  else
    ∃ logged,
      appended w w1
        ([vkMapMemory_call mem size res]
         ++ (if readbackBufferIsCoherent_ (qr w) then []
             else [vkInvalidateMappedMemoryRanges mem size])
         ++ logged
         ++ (if decide (res = Vk.SUCCESS) then [vkUnmapMemory mem] else []))
      ∧ (if decide (res = Vk.SUCCESS)
         then logged = [] ∨ logged = [ELOG "CopyReadbackBuffer: Unknown format"]
         else logged = [ELOG "CopyReadbackBuffer: vkMapMemory failed!"]
              ∧ pixels' = pixels).
Proof.
  intros Hrun mem size res. unfold CopyReadbackBuffer in Hrun. cbv zeta in Hrun.
  fold mem in Hrun. fold size in Hrun.
  destruct (decide (mem = VK_NULL_HANDLE)) as [Hnull|Hmem].
  { rewrite (proj2 (N.eqb_eq _ _) Hnull) in Hrun. by injection Hrun as <- <-. }
  rewrite (proj2 (N.eqb_neq _ _) Hmem) in Hrun. fold res in Hrun.
  cbn [qr emit] in Hrun. unfold appended.
  destruct (decide (res = Vk.SUCCESS)) as [Hok|Hfail].
  - rewrite (proj2 (Z.eqb_eq _ _) Hok) in Hrun. cbn [negb] in Hrun.
    apply obind_Done in Hrun as (r & Hconv & Hrun). injection Hrun as <- <-.
    destruct (srcFormat =? R8G8B8A8_UNORM env);
      [|destruct (srcFormat =? B8G8R8A8_UNORM env);
        [|destruct (srcFormat =? destFormat);
          [|destruct (destFormat =? D32F env)]]].
    5: { apply obind_Done in Hconv as ([] & _ & Hconv). injection Hconv as <-.
         exists [ELOG "CopyReadbackBuffer: Unknown format"]. split; [|by right].
         destruct (readbackBufferIsCoherent_ (qr w)); simpl; by rewrite <- !app_assoc. }
    all: injection Hconv as <-; exists []; (split; [|by left]);
      destruct (readbackBufferIsCoherent_ (qr w)); simpl; by rewrite <- !app_assoc.
  - rewrite (proj2 (Z.eqb_neq _ _) Hfail) in Hrun. cbn [negb] in Hrun.
    injection Hrun as <- <-. eexists. split; [|done].
    destruct (readbackBufferIsCoherent_ (qr w)); simpl; by rewrite <- !app_assoc.
Qed.

(** ** [ApplySonicHack] *)

Lemma filter_partition_length {A} (f : A → bool) l :
  (length (List.filter f l) + length (List.filter (λ x, negb (f x)) l))%nat = length l.
Proof. induction l as [|x l IH]; [done|]. simpl. destruct (f x); simpl; lia. Qed.

Lemma filter_partition_perm {A} (f : A → bool) l :
  List.filter f l ++ List.filter (λ x, negb (f x)) l ≡ₚ l.
Proof.
  induction l as [|x l IH]; [done|]. simpl. destruct (f x); simpl.
  - by rewrite IH.
  - by rewrite <- Permutation_middle, IH.
Qed.

Lemma filter_NoDup {A} (f : A → bool) l : NoDup l → NoDup (List.filter f l).
Proof.
  induction 1 as [|x l Hx Hnd IH]; simpl; [apply NoDup_nil_2|].
  destruct (f x); [|done]. apply NoDup_cons. split; [|done].
  intros Hin. apply Hx. apply list_elem_of_In, List.filter_In in Hin as [Hin _].
  by apply list_elem_of_In.
Qed.

(** Writing a regrouping [k] of the window back over the window. *)
Lemma regroup_eq {A} (k vec : list A) i n :
  length k = length (take n (drop i vec)) →
  list_inserts i k vec = take i vec ++ k ++ drop n (drop i vec).
Proof.
  intros Hlen. destruct (decide (i ≤ length vec)%nat) as [Hi|Hi].
  - rewrite <- (take_drop i vec) at 1. rewrite <- (take_drop n (drop i vec)) at 1.
    rewrite <- (Nat.add_0_r i) at 1.
    rewrite <- (length_take_le vec i) at 1 by done.
    rewrite list_inserts_app_r. f_equal. by apply list_inserts_0_r.
  - rewrite drop_ge in Hlen by lia. rewrite take_nil in Hlen. destruct k; [|done].
    rewrite (take_ge vec i), (drop_ge vec i) by lia. by rewrite drop_nil, app_nil_r.
Qed.

Lemma regroup_perm {A} (f : A → bool) (vec : list A) i n :
  let win := take n (drop i vec) in
  list_inserts (i + length (List.filter f win)) (List.filter (λ x, negb (f x)) win)
    (list_inserts i (List.filter f win) vec)
  ≡ₚ vec.
Proof.
  intros win. rewrite (Nat.add_comm i), <- list_inserts_app_l.
  rewrite (regroup_eq _ vec i n)
    by (rewrite length_app; apply filter_partition_length).
  fold win. rewrite filter_partition_perm. unfold win.
  by rewrite take_drop, take_drop.
Qed.

(** The element the fusion appends to: the first of the group, once the
    group has been written back at [base]. *)
Lemma regroup_lookup {A} `{Inhabited A} (k1 k2 vec : list A) i n :
  length (k1 ++ k2) = length (take n (drop i vec)) →
  (k1 ≠ [] → list_inserts i (k1 ++ k2) vec !!! i = k1 !!! 0%nat)
  ∧ (k2 ≠ [] → list_inserts i (k1 ++ k2) vec !!! (i + length k1)%nat = k2 !!! 0%nat).
Proof.
  intros Hlen.
  assert (Hi : k1 ++ k2 ≠ [] → length (take i vec) = i).
  { intros Hne. apply length_take_le.
    destruct (decide (i ≤ length vec)%nat); [done|].
    rewrite drop_ge, take_nil in Hlen by lia. by destruct (k1 ++ k2). }
  rewrite (regroup_eq _ vec i n) by done. split; intros Hne.
  - rewrite lookup_total_app_r by (rewrite Hi; [lia|by destruct k1]).
    rewrite Hi by (by destruct k1). rewrite Nat.sub_diag.
    destruct k1; [done|]. done.
  - rewrite lookup_total_app_r by (rewrite Hi; [lia|by destruct k1, k2]).
    rewrite Hi by (by destruct k1, k2).
    replace (i + length k1 - i)%nat with (length k1 + 0)%nat by lia.
    rewrite <- app_assoc, lookup_total_app_r by lia.
    replace (length k1 + 0 - length k1)%nat with 0%nat by lia.
    destruct k2; [done|]. done.
Qed.

Lemma NoDup_lookup_total_ne (l : list ptr) j :
  NoDup l → (1 ≤ j < length l)%nat → l !!! 0%nat ≠ l !!! j.
Proof.
  intros Hnd Hj Heq.
  assert (H0 : l !! 0%nat = Some (l !!! 0%nat)) by (apply list_lookup_lookup_total_lt; lia).
  assert (H1 : l !! j = Some (l !!! j)) by (apply list_lookup_lookup_total_lt; lia).
  rewrite <- Heq in H1. assert (Hj0 := NoDup_lookup _ _ _ _ Hnd H0 H1). lia.
Qed.

Lemma combineGroup_total vec group base h :
  (∀ j, (1 ≤ j < length group)%nat → vec !!! base ≠ group !!! j) →
  ∃ h', combineGroup vec group base h = Done h'.
Proof.
  unfold combineGroup. intros Hne.
  assert (Hjs : ∀ j, j ∈ seq 1 (length group - 1) → (1 ≤ j < length group)%nat).
  { intros j Hj%elem_of_seq. lia. }
  revert h Hjs. induction (seq 1 (length group - 1)) as [|j js IH]; intros h Hjs; simpl.
  - by eexists.
  - unfold pushCommands at 1.
    rewrite bool_decide_eq_false_2 by (apply Hne, Hjs; by left). simpl.
    apply IH. intros j' Hj'. apply Hjs. by right.
Qed.

Lemma fusedFrom_refl s : fusedFrom s s.
Proof. repeat split; try done; [by exists []; rewrite app_nil_r|by left]. Qed.

Lemma fusedFrom_trans s1 s2 s3 : fusedFrom s1 s2 → fusedFrom s2 s3 → fusedFrom s1 s3.
Proof.
  intros (Hu1 & Hd1 & Hp1 & (c1 & Hc1) & Ht1) (Hu2 & Hd2 & Hp2 & (c2 & Hc2) & Ht2).
  repeat split; try congruence.
  - exists (c1 ++ c2). by rewrite Hc2, Hc1, app_assoc.
  - destruct Ht2 as [Ht2|Ht2]; [|by right]. rewrite Ht2. done.
Qed.

Lemma hfused_refl h : hfused h h.
Proof. intros p. apply fusedFrom_refl. Qed.

Lemma hfused_step h h' p f :
  hfused h h' → (∀ s, fusedFrom s (f s)) → hfused h (upd p f h').
Proof.
  intros Hk Hf q. destruct (decide (p = q)) as [->|Hne].
  - rewrite upd_eq. eapply fusedFrom_trans; [apply Hk|apply Hf].
  - by rewrite upd_ne.
Qed.

Lemma present_refl h : present h h.
Proof. by intros p. Qed.

Lemma present_step h h' p f : present h h' → present h (upd p f h').
Proof.
  intros Hk q Hq. unfold upd. destruct (decide (p = q)) as [->|Hne].
  - by rewrite lookup_insert_eq.
  - rewrite lookup_insert_ne by done. by apply Hk.
Qed.

Lemma combineGroup_fused vec group base h0 h h' :
  hfused h0 h ∧ present h0 h → combineGroup vec group base h = Done h' →
  hfused h0 h' ∧ present h0 h'.
Proof.
  unfold combineGroup.
  apply (ofoldl_invariant (λ a0 a, hfused a0 a ∧ present a0 a)).
  intros a0 a j a' [Hk Hp] Hrun.
  apply obind_Done in Hrun as (h1 & Hpush & Hrun). injection Hrun as <-.
  unfold pushCommands in Hpush. destruct (_ && _); [done|]. injection Hpush as <-.
  split.
  - apply hfused_step; [apply hfused_step; [done|]|].
    + intros s. repeat split; try done; [by eexists|by left].
    + intros s. repeat split; try done; [by exists []; rewrite app_nil_r|by right].
  - by do 2 apply present_step.
Qed.

Lemma sonicRewrite_spec h vec i last :
  NoDup vec →
  ∃ vec' h', sonicRewrite h vec i last = Done (vec', h')
             ∧ vec' ≡ₚ vec ∧ hfused h h' ∧ present h h'.
Proof.
  intros Hnd.
  pose (same := λ p, (Render.framebuffer (render (h !!! p))
                      =? Render.framebuffer (render (stepAt h vec i)))%N).
  pose (win := window vec i last).
  pose (type1 := List.filter same win).
  pose (type2 := List.filter (λ p, negb (same p)) win).
  pose (vec2 := list_inserts (i + length type1) type2 (list_inserts i type1 vec)).
  change (sonicRewrite h vec i last)
    with (h1 ←! combineGroup vec2 type1 i h;
          h2 ←! combineGroup vec2 type2 (i + length type1) h1;
          Done (vec2, h2)).
  assert (Hvec2 : vec2 = list_inserts i (type1 ++ type2) vec).
  { unfold vec2. by rewrite (Nat.add_comm i), <- list_inserts_app_l. }
  assert (Hlen : length (type1 ++ type2) = length win).
  { rewrite length_app. apply filter_partition_length. }
  assert (Hwin : NoDup win).
  { unfold win, window. eapply sublist_NoDup; [exact Hnd|].
    etrans; [apply sublist_take|apply sublist_drop]. }
  destruct (regroup_lookup type1 type2 vec i (Z.to_nat (last - Z.of_nat i + 1)) Hlen)
    as [Hat1 Hat2].
  destruct (combineGroup_total vec2 type1 i h) as (h1 & Hc1).
  { intros j Hj. rewrite Hvec2, Hat1 by (intros Heq; rewrite Heq in Hj; simpl in Hj; lia).
    by apply NoDup_lookup_total_ne; [apply filter_NoDup|]. }
  destruct (combineGroup_total vec2 type2 (i + length type1) h1) as (h2 & Hc2).
  { intros j Hj. rewrite Hvec2, Hat2 by (intros Heq; rewrite Heq in Hj; simpl in Hj; lia).
    by apply NoDup_lookup_total_ne; [apply filter_NoDup|]. }
  rewrite Hc1. simpl. rewrite Hc2. simpl. exists vec2, h2. split; [done|].
  split; [apply regroup_perm|].
  eapply combineGroup_fused; [|exact Hc2].
  eapply combineGroup_fused; [|exact Hc1].
  split; [apply hfused_refl|apply present_refl].
Qed.

Lemma sonicLoop_spec n : ∀ i vec h,
  NoDup vec →
  ∃ vec' h', sonicLoop n i vec h = Done (vec', h')
             ∧ vec' ≡ₚ vec ∧ hfused h h' ∧ present h h'.
Proof.
  induction n as [|n IH]; intros i vec h Hnd; simpl.
  { exists vec, h. split; [done|]. split; [done|].
    split; [apply hfused_refl|apply present_refl]. }
  destruct (sonicHead h vec i); [|by apply IH].
  destruct (negb _); [by apply sonicRewrite_spec|by apply IH].
Qed.

(** X15.  On a vector of distinct steps [ApplySonicHack] always returns,
    and whether it fires or not it loses and duplicates no step: the vector
    it leaves is a permutation of the one it was given.  The step objects
    keep their render data, dependencies and pretransitions; all that
    happens to them is that commands are appended and that steps are marked
    skipped. *)
Theorem ApplySonicHack_permutes vec h :
  NoDup vec →
  ∃ vec' h', ApplySonicHack vec h = Done (vec', h')
             ∧ vec' ≡ₚ vec
             ∧ ∀ p, fusedFrom (h !!! p) (h' !!! p).
Proof.
  intros Hnd. unfold ApplySonicHack.
  destruct (sonicLoop_spec (Z.to_nat (Z.of_nat (length vec) - 4)) 0 vec h Hnd)
    as (vec' & h' & Hrun & Hperm & Hfused & _).
  by exists vec', h'.
Qed.

(** ** [RunSteps] deletes every step *)

Ltac present_steps :=
  repeat first
    [ apply present_refl
    | assumption
    | apply present_step
    | match goal with |- present _ (if ?c then _ else _) => destruct c end ].

Lemma defaultFinalLayouts_present vec : ∀ h0 h,
  present h0 h → present h0 (defaultFinalLayouts h vec).
Proof.
  unfold defaultFinalLayouts.
  induction vec as [|p vec IH]; intros h0 h Hp; [done|]. simpl. apply IH. present_steps.
Qed.

Lemma foldClear_present pj pi h0 h : present h0 h → present h0 (foldClear pj pi h).
Proof. intros Hk. unfold foldClear. cbv zeta. present_steps. Qed.

Lemma clearScan_present rest : ∀ pj h0 h, present h0 h → present h0 (clearScan pj h rest).
Proof.
  induction rest as [|pi rest IH]; intros pj h0 h Hk; [done|]. rewrite clearScan_cons.
  destruct (rendersTo _ _); [by apply foldClear_present|].
  destruct (copiesFrom _ _); [done|]. by apply IH.
Qed.

Lemma clearPass_present vec : ∀ h0 h, present h0 h → present h0 (clearPass h vec).
Proof.
  induction vec as [|pj rest IH]; intros h0 h Hk; [done|].
  destruct rest as [|pi rest]; [done|]. rewrite clearPass_cons. apply IH.
  destruct (isEmptyClear _); [|done]. by apply clearScan_present.
Qed.

Lemma absorb_present pi pj h0 h : present h0 h → present h0 (absorb pi pj h).
Proof. intros Hk. unfold absorb. cbv zeta. present_steps. Qed.

Lemma mergeScan_present js : ∀ fb pi t h0 h,
  present h0 h → present h0 (mergeScan fb pi t h js).
Proof.
  induction js as [|pj js IH]; intros fb pi t h0 h Hk; [done|]. simpl.
  destruct (stepType (h !!! pj)); try (by apply IH).
  - destruct (TinySet.contains _ fb); [done|].
    destruct (TinySet.containsSet _ t); [done|].
    apply IH. destruct (_ =? fb)%N; [|done]. by apply absorb_present.
  - destruct (_ || _); [done|]. by apply IH.
  - destruct (_ || _); [done|]. by apply IH.
  - destruct (_ =? fb)%N; [done|]. by apply IH.
Qed.

Lemma mergeLoop_present vec : ∀ counts h0 h,
  present h0 h → present h0 (mergeLoop counts h vec).
Proof.
  induction vec as [|pi rest IH]; intros counts h0 h Hk; [done|]. simpl.
  apply IH. destruct (_ && _); [|done]. by apply mergeScan_present.
Qed.

(** The optimizer half of [RunSteps] with the MGS fusion switched off:
    it returns, with the same steps in the vector. *)
Lemma optimizeSteps_without_MGS hacks vec h :
  has_bits hacks QUEUE_HACK_MGS2_ACID = false →
  NoDup vec →
  ∃ vec' h', optimizeSteps hacks vec h = Done (vec', h')
             ∧ vec' ≡ₚ vec ∧ present h h'.
Proof.
  intros Hmgs Hnd. unfold optimizeSteps. cbv zeta.
  assert (Hp0 : present h (clearPass (defaultFinalLayouts h vec) vec)).
  { apply clearPass_present, defaultFinalLayouts_present, present_refl. }
  revert Hp0. generalize (clearPass (defaultFinalLayouts h vec) vec). intros h2 Hp0.
  unfold applyQueueHacks. rewrite Hmgs.
  destruct (negb (hacks =? 0)); [|by exists vec, h2]. simpl.
  destruct (has_bits hacks QUEUE_HACK_SONIC).
  - destruct (sonicLoop_spec (Z.to_nat (Z.of_nat (length vec) - 4)) 0 vec h2 Hnd)
      as (vec' & h' & Hrun & Hperm & _ & Hpres).
    unfold ApplySonicHack. rewrite Hrun. simpl.
    destruct (has_bits hacks QUEUE_HACK_RENDERPASS_MERGE); eexists _, _;
      (split; [reflexivity|]); (split; [done|]).
    + apply mergeLoop_present. by intros p Hp; apply Hpres, Hp0.
    + by intros p Hp; apply Hpres, Hp0.
  - simpl. destruct (has_bits hacks QUEUE_HACK_RENDERPASS_MERGE); eexists _, _;
      (split; [reflexivity|]); (split; [done|]).
    + by apply mergeLoop_present.
    + done.
Qed.

Lemma deleteSteps_all l : ∀ h,
  NoDup l → (∀ p, p ∈ l → is_Some (h !! p)) →
  ∃ h1, ofoldl deleteStep h l = Done h1
        ∧ ∀ p, h1 !! p = if decide (p ∈ l) then None else h !! p.
Proof.
  induction l as [|q l IH]; intros h Hnd Hin; simpl.
  { exists h. split; [done|]. intros p.
    destruct (decide (p ∈ [])) as [Hp|]; [by apply elem_of_nil in Hp|done]. }
  apply NoDup_cons in Hnd as [Hq Hnd].
  unfold deleteStep at 1. destruct (Hin q ltac:(by left)) as [s ->]. simpl.
  destruct (IH (delete q h) Hnd) as (h1 & Hrun & Hh1).
  { intros p Hp. rewrite lookup_delete_ne; [apply Hin; by right|by intros ->]. }
  exists h1. split; [done|]. intros p. rewrite Hh1.
  destruct (decide (p = q)) as [->|Hne].
  - destruct (decide (q ∈ l)); [done|].
    destruct (decide (q ∈ q :: l)) as [_|Hn]; [apply lookup_delete_eq|].
    destruct Hn. by left.
  - rewrite lookup_delete_ne by done.
    destruct (decide (p ∈ l)) as [Hin'|Hnin], (decide (p ∈ q :: l)) as [Hin2|Hnin2];
      try done.
    + destruct Hnin2. by right.
    + by apply elem_of_cons in Hin2 as [?|?].
Qed.

(** X16.  With the MGS fusion switched off, [RunSteps] on a vector of
    distinct, live step objects stops only where the execution of a step
    stops; when it returns it has executed a permutation of the vector it was
    given and has deleted each of its steps exactly once, and no other object:
    there is no double delete and no step is left behind. *)
Theorem RunSteps_deletes_each_step_once vec h (w : World G) :
  has_bits (hacksEnabled_ (qr w)) QUEUE_HACK_MGS2_ACID = false →
  NoDup vec →
  (∀ p, p ∈ vec → is_Some (h !! p)) →
  ∃ vec' h' h1,
    vec' ≡ₚ vec
    ∧ (∀ p, p ∈ vec → h1 !! p = None)
    ∧ (∀ p, p ∉ vec → is_Some (h !! p) → is_Some (h1 !! p))
    ∧ RunSteps vec h w = (w1 ←! ofoldl (performStep h') w vec'; Done (w1, vec', h1)).
Proof.
  intros Hmgs Hnd Hlive.
  destruct (optimizeSteps_without_MGS _ vec h Hmgs Hnd) as (vec' & h' & Hopt & Hperm & Hpres).
  destruct (deleteSteps_all vec' h') as (h1 & Hdel & Hh1).
  { by rewrite Hperm. }
  { intros p Hp. apply Hpres, Hlive. by rewrite <- Hperm. }
  exists vec', h', h1. split; [done|]. split; [|split].
  - intros p Hp. rewrite Hh1. destruct (decide (p ∈ vec')) as [|Hn]; [done|].
    destruct Hn. by rewrite Hperm.
  - intros p Hp Hsome. rewrite Hh1. destruct (decide (p ∈ vec')) as [Hin|]; [|by apply Hpres].
    destruct Hp. by rewrite <- Hperm.
  - unfold RunSteps. rewrite Hopt. simpl.
    destruct (ofoldl (performStep h') w vec'); [|done]. simpl. by rewrite Hdel.
Qed.

(** ** The merge scan and the framebuffers written on the way *)

Lemma containsSet_insert_mono (deps t : TinySet ptr) x :
  TinySet.containsSet deps t = true →
  TinySet.containsSet deps (TinySet.insert MaxFastSize t x) = true.
Proof.
  rewrite !containsSet_true. intros (y & Hd & Ht). exists y. split; [done|].
  by rewrite contains_insert_eq, Ht.
Qed.

Lemma containsSet_insert_hit (deps t : TinySet ptr) x :
  TinySet.contains deps x = true →
  TinySet.containsSet deps (TinySet.insert MaxFastSize t x) = true.
Proof.
  intros Hd. apply containsSet_true. exists x. split; [done|].
  rewrite contains_insert_eq, bool_decide_eq_true_2 by done. apply orb_true_r.
Qed.

Lemma mergeScan_touched pre : ∀ fb pi t h pk post,
  NoDup (pi :: pre ++ pk :: post) →
  stepType (h !!! pk) = RENDER →
  (TinySet.containsSet (dependencies (h !!! pk)) t = true
   ∨ ∃ q fb', q ∈ pre ∧ writesOther fb (h !!! q) = Some fb'
              ∧ TinySet.contains (dependencies (h !!! pk)) fb' = true) →
  ∀ x, x ∈ pk :: post → mergeScan fb pi t h (pre ++ pk :: post) !!! x = h !!! x.
Proof.
  induction pre as [|a pre IH]; intros fb pi t h pk post Hnd Hty Hdep x Hx.
  { simpl. rewrite Hty. destruct (TinySet.contains _ fb); [done|].
    destruct Hdep as [->|(q & fb' & Hq & _)]; [done|by apply elem_of_nil in Hq]. }
  apply NoDup_cons in Hnd as [Hpi Hnd]. simpl in Hnd.
  apply NoDup_cons in Hnd as [Ha Hnd].
  assert (Hpi' : pi ∉ pre ++ pk :: post) by (intros Hin; apply Hpi; by right).
  assert (Hnd' : NoDup (pi :: pre ++ pk :: post)) by (by apply NoDup_cons).
  assert (Htail : ∀ y, y ∈ pre ++ pk :: post → y ≠ pi ∧ y ≠ a).
  { intros y Hy. split; intros ->; [by apply Hpi; right|done]. }
  assert (Hpk : pk ∈ pre ++ pk :: post) by apply in_middle.
  assert (Hxt : x ∈ pre ++ pk :: post) by (apply elem_of_app; by right).
  simpl.
  destruct (stepType (h !!! a)) eqn:Hta.
  - (* a render step *)
    destruct (TinySet.contains _ fb); [done|].
    destruct (TinySet.containsSet (dependencies (h !!! a)) t); [done|].
    destruct (N.eqb_spec (Render.framebuffer (render (h !!! a))) fb) as [Hfb|Hfb].
    + (* absorbed: nothing is noted as written *)
      assert (Hsame : ∀ y, y ∈ pre ++ pk :: post → absorb pi a h !!! y = h !!! y).
      { intros y Hy. destruct (Htail y Hy). by apply absorb_other. }
      assert (Hfa : (Render.framebuffer (render (absorb pi a h !!! a)) =? fb)%N = true).
      { rewrite absorb_source by (by intros ->; apply Hpi; left).
        by apply N.eqb_eq. }
      rewrite Hfa. simpl. rewrite IH; [by apply Hsame|done|by rewrite Hsame| |done].
      rewrite Hsame by done. destruct Hdep as [Ht|(q & fb' & Hq & Hw & Hc)]; [by left|].
      apply elem_of_cons in Hq as [->|Hq].
      * unfold writesOther in Hw. rewrite Hta, Hfb, N.eqb_refl in Hw. done.
      * right. exists q, fb'. split; [done|]. rewrite Hsame; [done|].
        apply elem_of_app. by left.
    + apply N.eqb_neq in Hfb as Hfb'. rewrite Hfb'. simpl.
      rewrite IH; [done|done|done| |done].
      destruct Hdep as [Ht|(q & fb' & Hq & Hw & Hc)];
        [left; by apply containsSet_insert_mono|].
      apply elem_of_cons in Hq as [->|Hq]; [|right; by exists q, fb'].
      left. unfold writesOther in Hw. rewrite Hta, Hfb' in Hw. injection Hw as <-.
      by apply containsSet_insert_hit.
  - (* a skipped step *)
    rewrite IH; [done|done|done| |done].
    destruct Hdep as [Ht|(q & fb' & Hq & Hw & Hc)]; [by left|].
    apply elem_of_cons in Hq as [->|Hq]; [|right; by exists q, fb'].
    unfold writesOther in Hw. by rewrite Hta in Hw.
  - (* a copy *)
    destruct (_ || _); [done|].
    rewrite IH; [done|done|done| |done].
    destruct Hdep as [Ht|(q & fb' & Hq & Hw & Hc)];
      [left; by apply containsSet_insert_mono|].
    apply elem_of_cons in Hq as [->|Hq]; [|right; by exists q, fb'].
    left. unfold writesOther in Hw. rewrite Hta in Hw. injection Hw as <-.
    by apply containsSet_insert_hit.
  - (* a blit *)
    destruct (_ || _); [done|].
    rewrite IH; [done|done|done| |done].
    destruct Hdep as [Ht|(q & fb' & Hq & Hw & Hc)];
      [left; by apply containsSet_insert_mono|].
    apply elem_of_cons in Hq as [->|Hq]; [|right; by exists q, fb'].
    left. unfold writesOther in Hw. rewrite Hta in Hw. injection Hw as <-.
    by apply containsSet_insert_hit.
  - (* a readback *)
    destruct (_ =? fb)%N; [done|].
    rewrite IH; [done|done|done| |done].
    destruct Hdep as [Ht|(q & fb' & Hq & Hw & Hc)]; [by left|].
    apply elem_of_cons in Hq as [->|Hq]; [|right; by exists q, fb'].
    unfold writesOther in Hw. by rewrite Hta in Hw.
  - (* a readback of an image *)
    rewrite IH; [done|done|done| |done].
    destruct Hdep as [Ht|(q & fb' & Hq & Hw & Hc)]; [by left|].
    apply elem_of_cons in Hq as [->|Hq]; [|right; by exists q, fb'].
    unfold writesOther in Hw. by rewrite Hta in Hw.
Qed.

(** X17.  The merge scan for a render step [pi] onto framebuffer [fb] does
    not merge across a render step that reads what was written on the way.
    If a step [q] that the scan has to pass writes another framebuffer [fb']
    (as the target of a render step, or the destination of a copy or blit)
    and a later render step [pk] has [fb'] in its dependency set, then [pk]
    and every step after it come out of the scan as they went in: none of
    them is absorbed into [pi]. *)
Theorem mergeScan_stops_at_touched fb pi t h pre pk post q fb' :
  NoDup (pi :: pre ++ pk :: post) →
  stepType (h !!! pk) = RENDER →
  q ∈ pre →
  writesOther fb (h !!! q) = Some fb' →
  TinySet.contains (dependencies (h !!! pk)) fb' = true →
  ∀ x, x ∈ pk :: post → mergeScan fb pi t h (pre ++ pk :: post) !!! x = h !!! x.
Proof.
  intros Hnd Hty Hq Hw Hc. apply mergeScan_touched; [done|done|].
  right. by exists q, fb'.
Qed.

(** ** The Sonic fusion keeps the commands of every framebuffer *)

Lemma fbCommands_app fb (h : gmap ptr VKRStep) l1 l2 :
  fbCommands fb h (l1 ++ l2) = fbCommands fb h l1 ++ fbCommands fb h l2.
Proof. unfold fbCommands. by rewrite map_app, concat_app. Qed.

Lemma fbCommands_none fb (h : gmap ptr VKRStep) l :
  (∀ p, p ∈ l → rendersTo fb (h !!! p) = false) → fbCommands fb h l = [].
Proof.
  induction l as [|p l IH]; intros Hno; [done|].
  rewrite fbCommands_cons, Hno, IH; [done| |by left].
  intros q Hq. apply Hno. by right.
Qed.

Lemma fbCommands_all fb (h : gmap ptr VKRStep) l :
  (∀ p, p ∈ l → rendersTo fb (h !!! p) = true) →
  fbCommands fb h l = concat (map (λ p, commands (h !!! p)) l).
Proof.
  induction l as [|p l IH]; intros Hall; [done|].
  rewrite fbCommands_cons, Hall, IH; [done| |by left].
  intros q Hq. apply Hall. by right.
Qed.

Lemma elem_of_List_filter {A} (f : A → bool) l x :
  x ∈ List.filter f l ↔ x ∈ l ∧ f x = true.
Proof. by rewrite !list_elem_of_In, List.filter_In. Qed.

Lemma fbCommands_filter_out fb (h : gmap ptr VKRStep) (f : ptr → bool) l :
  (∀ p, p ∈ l → f p = false → rendersTo fb (h !!! p) = false) →
  fbCommands fb h l = fbCommands fb h (List.filter f l).
Proof.
  induction l as [|p l IH]; intros Hout; [done|].
  assert (Hl : ∀ q, q ∈ l → f q = false → rendersTo fb (h !!! q) = false).
  { intros q Hq. apply Hout. by right. }
  simpl. destruct (f p) eqn:Hf.
  - by rewrite !fbCommands_cons, IH.
  - rewrite fbCommands_cons, Hout, IH; [done|done|by left|done].
Qed.

Lemma rendersTo_same fb (s s' : VKRStep) :
  stepType s' = stepType s → u s' = u s → rendersTo fb s' = rendersTo fb s.
Proof. intros Ht Hu. unfold rendersTo, is_type, render. by rewrite Ht, Hu. Qed.

Lemma filter_all {A} (l : list A) : List.filter (λ _, true) l = l.
Proof. induction l as [|x l IH]; [done|]. simpl. by rewrite IH. Qed.

(** The loop of [combineGroup] over the indices of the group is a loop over
    its members, once the group has been written back at [base]. *)
Lemma combineGroup_as_fold vec g0 gs base (h : gmap ptr VKRStep) :
  vec !!! base = g0 →
  (∀ j, (j < length gs)%nat → vec !!! (base + S j)%nat = gs !!! j) →
  combineGroup vec (g0 :: gs) base h
  = ofoldl (λ h p, h1 ←! pushCommands (λ _, true) g0 p h;
                   Done (upd p (set_stepType RENDER_SKIP) h1)) h gs.
Proof.
  intros Hb Hj. unfold combineGroup. rewrite Hb.
  replace (length (g0 :: gs) - 1)%nat with (length gs) by (simpl; lia).
  assert (Hgen : ∀ gs' k h0,
    (∀ j, (j < length gs')%nat →
          vec !!! (base + (k + j))%nat = gs' !!! j ∧ (g0 :: gs) !!! (k + j)%nat = gs' !!! j) →
    ofoldl (λ h j, h1 ←! pushCommands (λ _, true) g0 ((g0 :: gs) !!! j) h;
                   Done (upd (vec !!! (base + j)%nat) (set_stepType RENDER_SKIP) h1))
      h0 (seq k (length gs'))
    = ofoldl (λ h p, h1 ←! pushCommands (λ _, true) g0 p h;
                     Done (upd p (set_stepType RENDER_SKIP) h1)) h0 gs').
  { induction gs' as [|g gs' IH]; intros k h0 Hat; [done|].
    destruct (Hat 0%nat) as [H1 H2]; [simpl; lia|].
    rewrite Nat.add_0_r in H1, H2. simpl in H1, H2.
    simpl. rewrite H1, H2.
    destruct (pushCommands (λ _, true) g0 g h0) as [h1|why]; [|done]. simpl.
    apply IH. intros j Hlt. destruct (Hat (S j)) as [H3 H4]; [simpl; lia|].
    simpl in H3, H4. replace (S k + j)%nat with (k + S j)%nat by lia. done. }
  apply Hgen. intros j Hlt. split; [by apply Hj|done].
Qed.

Lemma fuse_fold_spec g0 gs : ∀ (h h' : gmap ptr VKRStep),
  NoDup (g0 :: gs) →
  ofoldl (λ h p, h1 ←! pushCommands (λ _, true) g0 p h;
                 Done (upd p (set_stepType RENDER_SKIP) h1)) h gs = Done h' →
  stepType (h' !!! g0) = stepType (h !!! g0)
  ∧ u (h' !!! g0) = u (h !!! g0)
  ∧ commands (h' !!! g0)
    = commands (h !!! g0) ++ concat (map (λ p, commands (h !!! p)) gs)
  ∧ (∀ p, p ∈ gs → stepType (h' !!! p) = RENDER_SKIP)
  ∧ (∀ p, p ∉ g0 :: gs → h' !!! p = h !!! p).
Proof.
  induction gs as [|g gs IH]; intros h h' Hnd Hrun; simpl in Hrun.
  { injection Hrun as <-. simpl. rewrite app_nil_r.
    repeat split; try done. intros p Hp. by apply elem_of_nil in Hp. }
  apply NoDup_cons in Hnd as [Hg0 Hnd]. apply NoDup_cons in Hnd as [Hg Hnd].
  assert (Hne : g0 ≠ g) by (intros ->; apply Hg0; by left).
  assert (Hnd' : NoDup (g0 :: gs)).
  { apply NoDup_cons. split; [|done]. intros Hin. apply Hg0. by right. }
  apply obind_Done in Hrun as (h2 & Hstep & Hrun).
  apply obind_Done in Hstep as (h1 & Hpush & Hstep). injection Hstep as <-.
  unfold pushCommands in Hpush. rewrite bool_decide_eq_false_2 in Hpush by done.
  simpl in Hpush. injection Hpush as <-. rewrite filter_all in Hrun.
  destruct (IH _ _ Hnd' Hrun) as (Hty & Hu & Hcmd & Hskip & Hframe).
  assert (H0 : upd g (set_stepType RENDER_SKIP)
                 (upd g0 (λ s, set_commands (commands s ++ commands (h !!! g)) s) h) !!! g0
               = set_commands (commands (h !!! g0) ++ commands (h !!! g)) (h !!! g0)).
  { rewrite upd_ne by done. by rewrite upd_eq. }
  assert (Hrest : ∀ p, p ≠ g0 → p ≠ g →
            upd g (set_stepType RENDER_SKIP)
              (upd g0 (λ s, set_commands (commands s ++ commands (h !!! g)) s) h) !!! p
            = h !!! p).
  { intros p H1 H2. by rewrite !upd_ne. }
  rewrite H0 in Hty, Hu, Hcmd.
  split; [done|]. split; [done|]. split; [|split].
  - rewrite Hcmd. simpl. rewrite <- app_assoc. do 3 f_equal.
    apply map_ext_in. intros p Hp. apply (proj2 (list_elem_of_In _ _)) in Hp.
    rewrite Hrest; [done| |].
    + intros ->. apply Hg0. by right.
    + by intros ->.
  - intros p [->|Hp]%elem_of_cons; [|by apply Hskip].
    rewrite Hframe.
    + rewrite upd_eq. done.
    + intros [->|Hin]%elem_of_cons; done.
  - intros p Hp. rewrite Hframe.
    + apply Hrest; intros ->; apply Hp; [by left|right; by left].
    + intros [->|Hin]%elem_of_cons; apply Hp; [by left|right; by right].
Qed.

(** What fusing a group of render passes onto one framebuffer does to the
    commands of any framebuffer: nothing. *)
Lemma combineGroup_commands vec group base (h h' : gmap ptr VKRStep) fb F :
  NoDup group →
  (∀ j, (j < length group)%nat → vec !!! (base + j)%nat = group !!! j) →
  (∀ p, p ∈ group →
     stepType (h !!! p) = RENDER ∧ Render.framebuffer (render (h !!! p)) = F) →
  combineGroup vec group base h = Done h' →
  fbCommands fb h' group = fbCommands fb h group
  ∧ (∀ p, p ∉ group → h' !!! p = h !!! p).
Proof.
  intros Hnd Hat Hall Hrun. destruct group as [|g0 gs].
  { unfold combineGroup in Hrun. simpl in Hrun. by injection Hrun as <-. }
  rewrite combineGroup_as_fold in Hrun.
  2: { rewrite <- (Nat.add_0_r base) at 1. apply Hat. simpl. lia. }
  2: { intros j Hj. rewrite Hat by (simpl; lia). done. }
  destruct (fuse_fold_spec _ _ _ _ Hnd Hrun) as (Hty & Hu & Hcmd & Hskip & Hframe).
  split; [|done].
  rewrite !fbCommands_cons, (rendersTo_same fb (h !!! g0) (h' !!! g0)) by done.
  rewrite (fbCommands_none fb h' gs).
  2: { intros p Hp. unfold rendersTo, is_type. by rewrite (Hskip p Hp). }
  rewrite app_nil_r, Hcmd.
  assert (Hr : ∀ p, p ∈ g0 :: gs → rendersTo fb (h !!! p) = (F =? fb)%N).
  { intros p Hp. destruct (Hall p Hp) as [Ht Hf]. unfold rendersTo, is_type.
    by rewrite Ht, Hf, bool_decide_eq_true_2. }
  rewrite Hr by (by left). destruct (F =? fb)%N eqn:HF.
  - rewrite (fbCommands_all fb h gs); [done|]. intros p Hp. rewrite Hr; [done|by right].
  - rewrite (fbCommands_none fb h gs); [done|]. intros p Hp. rewrite Hr; [done|by right].
Qed.

Lemma regroup_lookup_at {A} `{Inhabited A} (k vec : list A) i n j :
  length k = length (take n (drop i vec)) →
  (j < length k)%nat → list_inserts i k vec !!! (i + j)%nat = k !!! j.
Proof.
  intros Hlen Hj.
  assert (Hi : length (take i vec) = i).
  { apply length_take_le. destruct (decide (i ≤ length vec)%nat); [done|].
    rewrite drop_ge, take_nil in Hlen by lia. simpl in Hlen. lia. }
  rewrite (regroup_eq _ vec i n) by done.
  rewrite lookup_total_app_r by lia. rewrite Hi.
  replace (i + j - i)%nat with j by lia. by rewrite lookup_total_app_l.
Qed.

Lemma sonicStop_cases (h : gmap ptr VKRStep) vec i j s :
  sonicStop h vec i j s = -1 ∨ sonicStop h vec i j s = j - 1.
Proof. unfold sonicStop. repeat case_match; auto. Qed.

(** A render step that the scan passes at a position other than 0 is on
    one of the two framebuffers of the sequence. *)
Lemma sonicStop_clean (h : gmap ptr VKRStep) vec i j s :
  stepType s = RENDER → j ≠ 0 → sonicStop h vec i j s = -1 →
  Render.framebuffer (render s) = Render.framebuffer (render (stepAt h vec i))
  ∨ Render.framebuffer (render s) = Render.framebuffer (render (stepAt h vec (i + 1))).
Proof.
  intros Hty Hj. unfold sonicStop. rewrite Hty.
  destruct (negb (Z.land (j - Z.of_nat i) 1 =? 0)).
  - destruct (negb (Render.numDraws (render s) =? 1)); [lia|].
    destruct (N.eqb_spec (Render.framebuffer (render s))
                (Render.framebuffer (render (stepAt h vec (i + 1))))); simpl; [auto|lia].
  - destruct (negb (Render.numDraws (render s) =? 3) && negb (Render.numDraws (render s) =? 6));
      [lia|].
    destruct (N.eqb_spec (Render.framebuffer (render s))
                (Render.framebuffer (render (stepAt h vec i)))); simpl; [auto|lia].
Qed.

Lemma sonicFindLast_window (h : gmap ptr VKRStep) vec i rest : ∀ j k p,
  rest !! k = Some p →
  0 < j + Z.of_nat k →
  j + Z.of_nat k ≤ sonicFindLast h vec i j rest →
  stepType (h !!! p) = RENDER →
  Render.framebuffer (render (h !!! p)) = Render.framebuffer (render (stepAt h vec i))
  ∨ Render.framebuffer (render (h !!! p))
    = Render.framebuffer (render (stepAt h vec (i + 1))).
Proof.
  induction rest as [|pj rest IH]; intros j k p Hk Hpos Hle Hty; [done|].
  simpl in Hle.
  destruct (Z.eqb_spec (sonicStop h vec i j (h !!! pj)) (-1)) as [Hs|Hs]; simpl in Hle.
  - destruct k as [|k]; simpl in Hk.
    + injection Hk as ->. apply (sonicStop_clean h vec i j); [done|lia|done].
    + apply (IH (j + 1) k p); [done|lia|lia|done].
  - destruct (sonicStop_cases h vec i j (h !!! pj)) as [Hc|Hc]; [done|]. lia.
Qed.

Lemma sonicRewrite_commands (h : gmap ptr VKRStep) vec i last vec' h' F2 :
  NoDup vec →
  (∀ p, p ∈ vec → stepType (h !!! p) = RENDER) →
  (∀ p, p ∈ window vec i last →
     (Render.framebuffer (render (h !!! p))
      =? Render.framebuffer (render (stepAt h vec i)))%N = false →
     Render.framebuffer (render (h !!! p)) = F2) →
  sonicRewrite h vec i last = Done (vec', h') →
  ∀ fb, fbCommands fb h' vec' = fbCommands fb h vec.
Proof.
  intros Hnd Hall Hscan Hrun fb.
  pose (same := λ p, (Render.framebuffer (render (h !!! p))
                      =? Render.framebuffer (render (stepAt h vec i)))%N).
  pose (n := Z.to_nat (last - Z.of_nat i + 1)).
  pose (win := take n (drop i vec)).
  pose (type1 := List.filter same win).
  pose (type2 := List.filter (λ p, negb (same p)) win).
  pose (vec2 := list_inserts (i + length type1) type2 (list_inserts i type1 vec)).
  change (sonicRewrite h vec i last)
    with (h1 ←! combineGroup vec2 type1 i h;
          h2 ←! combineGroup vec2 type2 (i + length type1) h1;
          Done (vec2, h2)) in Hrun.
  change (window vec i last) with win in Hscan.
  apply obind_Done in Hrun as (h1 & Hc1 & Hrun).
  apply obind_Done in Hrun as (h2 & Hc2 & Hrun).
  injection Hrun as <- <-.
  assert (Hins : vec2 = list_inserts i (type1 ++ type2) vec).
  { unfold vec2. by rewrite (Nat.add_comm i), <- list_inserts_app_l. }
  assert (Hlen : length (type1 ++ type2) = length win).
  { rewrite length_app. apply filter_partition_length. }
  assert (Hvec : vec = take i vec ++ win ++ drop n (drop i vec)).
  { unfold win. by rewrite !take_drop. }
  assert (Hvec2 : vec2 = take i vec ++ (type1 ++ type2) ++ drop n (drop i vec)).
  { rewrite Hins. by apply regroup_eq. }
  assert (Hparts : NoDup (take i vec) ∧ NoDup win ∧ NoDup (drop n (drop i vec))
                   ∧ (∀ p, p ∈ take i vec → p ∉ win)
                   ∧ (∀ p, p ∈ drop n (drop i vec) → p ∉ win)).
  { rewrite Hvec in Hnd. apply NoDup_app in Hnd as (H1 & H2 & H3).
    apply NoDup_app in H3 as (H4 & H5 & H6).
    repeat split; try done.
    - intros p Hp Hw. apply (H2 p Hp). apply elem_of_app. by left.
    - intros p Hp Hw. by apply (H5 p Hw). }
  destruct Hparts as (_ & Hwin & _ & Hpre & Hpost).
  assert (Hin : ∀ p, p ∈ win → p ∈ vec).
  { intros p Hp. rewrite Hvec. apply elem_of_app. right. apply elem_of_app. by left. }
  assert (H1in : ∀ p, p ∈ type1 ↔ p ∈ win ∧ same p = true)
    by (intros p; apply elem_of_List_filter).
  assert (H2in : ∀ p, p ∈ type2 ↔ p ∈ win ∧ same p = false).
  { intros p. unfold type2. rewrite elem_of_List_filter, negb_true_iff. done. }
  assert (Hdisj : ∀ p, p ∈ type1 → p ∉ type2).
  { intros p [_ Ht]%H1in [_ Hf]%H2in. congruence. }
  (* the first group *)
  destruct (combineGroup_commands vec2 type1 i h h1 fb
              (Render.framebuffer (render (stepAt h vec i)))) as [Hg1 Hf1]; [| | |exact Hc1|].
  { by apply filter_NoDup. }
  { intros j Hj. rewrite Hins, (regroup_lookup_at _ vec i n) by (done || (rewrite length_app; lia)).
    by rewrite lookup_total_app_l. }
  { intros p [Hp Hs]%H1in. split; [by apply Hall, Hin|]. by apply N.eqb_eq. }
  (* the second group *)
  destruct (combineGroup_commands vec2 type2 (i + length type1) h1 h2 fb F2)
    as [Hg2 Hf2]; [| | |exact Hc2|].
  { by apply filter_NoDup. }
  { intros j Hj. rewrite Hins, <- Nat.add_assoc.
    rewrite (regroup_lookup_at _ vec i n) by (done || (rewrite length_app; lia)).
    rewrite lookup_total_app_r by lia. f_equal. lia. }
  { intros p Hp. rewrite Hf1 by (intros H1; by apply (Hdisj p)).
    apply H2in in Hp as [Hp Hs]. split; [by apply Hall, Hin|]. by apply Hscan. }
  (* putting the vector together *)
  assert (Hout : ∀ p, p ∉ win → h2 !!! p = h !!! p).
  { intros p Hp. rewrite Hf2, Hf1; [done| |].
    - intros [Hw _]%H1in. done.
    - intros [Hw _]%H2in. done. }
  rewrite Hvec2. rewrite Hvec at 3. rewrite !fbCommands_app.
  rewrite (fbCommands_ext fb h2 h (take i vec)) by (intros p Hp; by apply Hout, Hpre).
  rewrite (fbCommands_ext fb h2 h (drop n (drop i vec)))
    by (intros p Hp; by apply Hout, Hpost).
  do 2 f_equal.
  rewrite (fbCommands_ext fb h2 h1 type1) by (intros p Hp; by apply Hf2, Hdisj).
  rewrite Hg1, Hg2.
  rewrite (fbCommands_ext fb h1 h type2)
    by (intros p Hp; apply Hf1; intros H1; by apply (Hdisj p)).
  (* the window, split by framebuffer *)
  symmetry.
  destruct (N.eqb_spec (Render.framebuffer (render (stepAt h vec i))) fb) as [Hfb|Hfb].
  - rewrite (fbCommands_none fb h type2), app_nil_r.
    + apply fbCommands_filter_out. intros p Hp Hs. unfold rendersTo.
      apply andb_false_iff. right. rewrite <- Hfb. exact Hs.
    + intros p [Hp Hs]%H2in. unfold rendersTo.
      apply andb_false_iff. right. rewrite <- Hfb. exact Hs.
  - rewrite (fbCommands_none fb h type1). 2:{
      intros p [Hp Hs]%H1in. unfold rendersTo. apply andb_false_iff. right.
      apply N.eqb_neq. apply N.eqb_eq in Hs. congruence. }
    simpl. apply fbCommands_filter_out. intros p Hp Hs.
    apply negb_false_iff, N.eqb_eq in Hs.
    unfold rendersTo. apply andb_false_iff. right. apply N.eqb_neq. congruence.
Qed.

Lemma sonicLoop_commands n : ∀ i vec (h : gmap ptr VKRStep) vec' h',
  NoDup vec →
  (∀ p, p ∈ vec → stepType (h !!! p) = RENDER) →
  sonicLoop n i vec h = Done (vec', h') →
  ∀ fb, fbCommands fb h' vec' = fbCommands fb h vec.
Proof.
  induction n as [|n IH]; intros i vec h vec' h' Hnd Hall Hrun; simpl in Hrun.
  { by injection Hrun as <- <-. }
  destruct (sonicHead h vec i); [|by apply (IH (S i))].
  destruct (Z.eqb_spec (sonicFindLast h vec i (Z.of_nat i) (drop i vec)) (-1)) as [Hl|Hl];
    simpl in Hrun; [by apply (IH (S i))|].
  apply (sonicRewrite_commands h vec i (sonicFindLast h vec i (Z.of_nat i) (drop i vec))
           vec' h' (Render.framebuffer (render (stepAt h vec (i + 1)))));
    [done|done| |done].
  intros p Hp Hs. unfold window in Hp.
  apply elem_of_take in Hp as (k & Hk & Hlt).
  assert (Hkv : vec !! (i + k)%nat = Some p) by (by rewrite <- lookup_drop).
  destruct k as [|k].
  { rewrite Nat.add_0_r in Hkv. apply list_lookup_total_correct in Hkv.
    unfold stepAt in Hs. rewrite Hkv, N.eqb_refl in Hs. done. }
  destruct (sonicFindLast_window h vec i (drop i vec) (Z.of_nat i) (S k) p) as [Ha|Hb];
    [done|lia|lia| |by apply N.eqb_neq in Hs|done].
  apply Hall. by apply list_elem_of_lookup_2 in Hkv.
Qed.

(** X18.  On a vector of distinct steps that are all render passes,
    [ApplySonicHack] returns and keeps, for every framebuffer, the sequence
    of commands rendered to it: regrouping the passes of the two
    framebuffers and fusing each group changes which step carries a command,
    not which commands a framebuffer receives nor their order. *)
Theorem ApplySonicHack_preserves_commands vec (h : gmap ptr VKRStep) :
  NoDup vec →
  (∀ p, p ∈ vec → stepType (h !!! p) = RENDER) →
  ∃ vec' h', ApplySonicHack vec h = Done (vec', h')
             ∧ ∀ fb, fbCommands fb h' vec' = fbCommands fb h vec.
Proof.
  intros Hnd Hall.
  destruct (sonicLoop_spec (Z.to_nat (Z.of_nat (length vec) - 4)) 0 vec h Hnd)
    as (vec' & h' & Hrun & _).
  exists vec', h'. split; [exact Hrun|].
  by apply (sonicLoop_commands (Z.to_nat (Z.of_nat (length vec) - 4)) 0%nat vec h).
Qed.

(** ** What a render pass does to the other framebuffers *)

Lemma withColorLayout_same fb : withColorLayout (layout (fb_color fb)) fb = fb.
Proof. by destruct fb as [? ? ? [] ?]. Qed.

Lemma withColorLayout_twice l l' fb :
  withColorLayout l' (withColorLayout l fb) = withColorLayout l' fb.
Proof. reflexivity. Qed.

Lemma withColorLayout_layout l fb : layout (fb_color (withColorLayout l fb)) = l.
Proof. reflexivity. Qed.

Lemma fbAt_set_imageLayout_ne p q a l (w : World G) :
  p ≠ q → fbAt (set_imageLayout p a l w) q = fbAt w q.
Proof. intros Hne. unfold set_imageLayout. by apply fbAt_set_fb_ne. Qed.

Lemma preTransition_fbAt (w w1 : World G) r :
  preTransition w r = Done w1 →
  fbAt w1 (tr_fb r) = withColorLayout (tr_targetLayout r) (fbAt w (tr_fb r))
  ∧ (tr_targetLayout r = layout (fb_color (fbAt w (tr_fb r)))
     ∨ tr_targetLayout r = Vk.IMAGE_LAYOUT_SHADER_READ_ONLY_OPTIMAL)
  ∧ (∀ p, p ≠ tr_fb r → fbAt w1 p = fbAt w p).
Proof.
  unfold preTransition.
  destruct (Z.eqb_spec (layout (fb_color (fbAt w (tr_fb r)))) (tr_targetLayout r)) as [He|He];
    simpl; intros Hrun.
  - injection Hrun as <-. rewrite <- He. by rewrite withColorLayout_same; auto.
  - apply obind_Done in Hrun as (s & _ & Hrun).
    apply obind_Done in Hrun as (d & Hd & Hrun). injection Hrun as <-.
    split; [|split].
    + unfold set_imageLayout. rewrite fbAt_set_fb. by rewrite fbAt_emit.
    + right. unfold preTransitionDst in Hd.
      destruct (Z.eqb_spec (tr_targetLayout r) Vk.IMAGE_LAYOUT_SHADER_READ_ONLY_OPTIMAL);
        [done|discriminate].
    + intros p Hp. rewrite fbAt_set_imageLayout_ne by done. apply fbAt_emit.
Qed.

Lemma preTransitions_fbAt reqs : ∀ (w w1 : World G) p,
  ofoldl preTransition w reqs = Done w1 →
  match lastRequested p reqs with
  | Some l => fbAt w1 p = withColorLayout l (fbAt w p)
              ∧ (l = layout (fb_color (fbAt w p))
                 ∨ l = Vk.IMAGE_LAYOUT_SHADER_READ_ONLY_OPTIMAL)
  | None => fbAt w1 p = fbAt w p
  end.
Proof.
  induction reqs as [|r reqs IH]; intros w w1 p Hrun; simpl in Hrun.
  { by injection Hrun as <-. }
  apply obind_Done in Hrun as (w' & Hstep & Hrun).
  apply preTransition_fbAt in Hstep as (Hat & Hl & Hother).
  specialize (IH w' w1 p Hrun). unfold lastRequested in *.
  set (f := λ r0, if decide (tr_fb r0 = p) then Some (tr_targetLayout r0) else None) in *.
  assert (Hcons : omap f (r :: reqs)
                  = match f r with Some x => x :: omap f reqs | None => omap f reqs end)
    by reflexivity.
  rewrite Hcons. unfold f at 1.
  destruct (decide (tr_fb r = p)) as [<-|Hne].
  - rewrite last_cons.
    destruct (last (omap f reqs)) as [l|].
    + destruct IH as [IH Hl']. rewrite IH, Hat, withColorLayout_twice. split; [done|].
      rewrite Hat, withColorLayout_layout in Hl'. destruct Hl' as [-> | ->]; auto.
    + rewrite IH, Hat. done.
  - rewrite (Hother p) in IH by done. exact IH.
Qed.

Lemma GetRenderPass_fbs key (w w1 : World G) pass :
  GetRenderPass key w = Done (pass, w1) → fbs w1 = fbs w.
Proof.
  intros Hget.
  destruct (decide (DenseHashMap_Get (renderPasses_ (qr w)) key = VK_NULL_HANDLE)) as [Hm|Hc].
  - destruct (GetRenderPass_miss _ _ _ _ Hm Hget) as (rp & g & _ & _ & _ & ->). done.
  - rewrite GetRenderPass_cached in Hget by done. by injection Hget as _ <-.
Qed.

Lemma PerformBindFramebufferAsRenderTarget_fbAt (step : VKRStep) (w w1 : World G) p :
  PerformBindFramebufferAsRenderTarget step w = Done w1 →
  p ≠ Render.framebuffer (render step) → fbAt w1 p = fbAt w p.
Proof.
  unfold PerformBindFramebufferAsRenderTarget. intros Hrun Hp.
  destruct (N.eqb_spec (Render.framebuffer (render step)) nullptr) as [Hn|Hn];
    simpl in Hrun.
  { injection Hrun as <-. apply fbAt_emit. }
  apply obind_Done in Hrun as ([] & _ & Hrun).
  apply obind_Done in Hrun as ([pass w2] & Hget & Hrun).
  apply GetRenderPass_fbs in Hget. injection Hrun as <-.
  rewrite fbAt_emit, !fbAt_set_imageLayout_ne by done. simpl.
  unfold fbAt at 1. rewrite Hget.
  destruct (_ && _); [|done].
  change (fbs ?x !!! p) with (fbAt x p).
  rewrite fbAt_set_imageLayout_ne by done. apply fbAt_emit.
Qed.

Lemma replayCommand_fbs fb cw ch (st st' : ReplayState * World G) c :
  replayCommand fb cw ch st c = Done st' → fbs st'.2 = fbs st.2.
Proof.
  destruct st as [rs w]. destruct c; unfold replayCommand, check; simpl; intros Hrun;
    repeat match type of Hrun with
           | context [if ?b then _ else _] => destruct b; simpl in Hrun; try discriminate
           | context [match ?l ++ _ with _ => _ end] => destruct l; simpl in Hrun
           end;
    by injection Hrun as <-.
Qed.

Lemma replay_fbs fb cw ch cmds : ∀ (st st' : ReplayState * World G),
  ofoldl (replayCommand fb cw ch) st cmds = Done st' → fbs st'.2 = fbs st.2.
Proof.
  induction cmds as [|c cmds IH]; intros st st' Hrun; simpl in Hrun.
  - by injection Hrun as <-.
  - apply obind_Done in Hrun as (st1 & Hstep & Hrun).
    by rewrite (IH _ _ Hrun), (replayCommand_fbs _ _ _ _ _ _ Hstep).
Qed.

(** X19.  What [PerformRenderPass] does to the framebuffers it does not
    render to.  When it returns, a framebuffer other than the target of the
    pass (any framebuffer, for an empty pass that keeps everything and is not
    executed) is as it was, except that its color image is tagged with the
    target layout of the last pretransition request naming it; and that
    layout is SHADER_READ_ONLY_OPTIMAL unless the image was in the requested
    layout from the start. *)
Theorem PerformRenderPass_other_framebuffers (step : VKRStep) (w w1 : World G) :
  PerformRenderPass step w = Done w1 →
  ∀ p, p ≠ Render.framebuffer (render step) ∨ emptyKeepPass step = true →
    match lastRequested p (preTransitions step) with
    | Some l => fbAt w1 p = withColorLayout l (fbAt w p)
                ∧ (l = layout (fb_color (fbAt w p))
                   ∨ l = Vk.IMAGE_LAYOUT_SHADER_READ_ONLY_OPTIMAL)
    | None => fbAt w1 p = fbAt w p
    end.
Proof.
  unfold PerformRenderPass. intros Hrun p Hp.
  apply obind_Done in Hrun as (w' & Hpre & Hrun).
  assert (Hw' := preTransitions_fbAt _ _ _ p Hpre).
  assert (Hsame : fbAt w1 p = fbAt w' p); [|by rewrite Hsame].
  destruct (emptyKeepPass step) eqn:Hkeep; [by injection Hrun as <-|].
  destruct Hp as [Hp|Hp]; [|done].
  apply obind_Done in Hrun as (w3 & Hbind & Hrun).
  apply obind_Done in Hrun as (st & Hrep & Hrun). injection Hrun as <-.
  apply (PerformBindFramebufferAsRenderTarget_fbAt _ _ _ p) in Hbind; [|done].
  apply replay_fbs in Hrep. simpl in Hrep.
  assert (Hend : fbAt (emit vkCmdEndRenderPass st.2) p = fbAt w3 p).
  { rewrite fbAt_emit. unfold fbAt. by rewrite Hrep. }
  destruct (negb (Render.framebuffer (render step) =? nullptr)%N).
  - rewrite fbAt_set_imageLayout_ne by done. rewrite Hend, Hbind.
    destruct (_ && _); [apply fbAt_emit|done].
  - rewrite Hend, Hbind. simpl. done.
Qed.

End Properties.

(** * The theorems at concrete inputs *)

#[local] Existing Instance releaseEnv.

(** The three render passes onto one framebuffer become one pass with the
    six draws in recorded order, followed by two skipped steps. *)
Example merge_three_renders :
  let h := ApplyRenderPassMerge (heapOf frameThreeRenders) (ptrsOf frameThreeRenders) in
  commands (h !!! 1%N) = sampleDraw <$> [1; 2; 3; 4; 5; 6]
  ∧ (λ p, stepType (h !!! p)) <$> ptrsOf frameThreeRenders
    = [VKRStepType.RENDER; VKRStepType.RENDER_SKIP; VKRStepType.RENDER_SKIP].
Proof. vm_compute. done. Qed.




(** The clear of framebuffer 7 is folded over the pass onto framebuffer 8
    into the next pass onto framebuffer 7. *)
Lemma clearPass_folds_empty_clear_witness :
  let h := heapOf frameClearThenRenders in
  let vec := [] ++ 1%N :: [2%N] ++ 3%N :: [] in
  NoDup vec
  ∧ isEmptyClear (h !!! 1%N) = true
  ∧ (∀ q, q ∈ [2%N] → clearHit 7%N (h !!! q) = false)
  ∧ rendersTo 7%N (h !!! 3%N) = true
  ∧ clearPass h vec !!! 1%N = set_stepType VKRStepType.RENDER_SKIP (h !!! 1%N)
  ∧ render (clearPass h vec !!! 3%N) = foldedInto (h !!! 1%N) (h !!! 3%N)
  ∧ commands (clearPass h vec !!! 3%N) = commands (h !!! 3%N).
Proof.
  assert (Hnd : NoDup ([] ++ 1%N :: [2%N] ++ 3%N :: [])) by compute_done.
  assert (Hec : isEmptyClear (heapOf frameClearThenRenders !!! 1%N) = true)
    by (vm_compute; reflexivity).
  assert (Hmid : ∀ q, q ∈ [2%N] → clearHit 7%N (heapOf frameClearThenRenders !!! q) = false).
  { intros q Hq. apply list_elem_of_singleton in Hq as ->. vm_compute. reflexivity. }
  assert (Hr : rendersTo 7%N (heapOf frameClearThenRenders !!! 3%N) = true)
    by (vm_compute; reflexivity).
  split; [exact Hnd|]. split; [exact Hec|]. split; [exact Hmid|]. split; [exact Hr|].
  exact (proj1 (clearPass_folds_empty_clear (heapOf frameClearThenRenders)
                  [] 1%N [2%N] 3%N [] Hnd Hec Hmid) Hr).
Defined.

(** The folded pass clears with the values of the clear step. *)
Example clearPass_clear_then_renders :
  let h := clearPass (heapOf frameClearThenRenders) (ptrsOf frameClearThenRenders) in
  (λ p, stepType (h !!! p)) <$> ptrsOf frameClearThenRenders
    = [VKRStepType.RENDER_SKIP; VKRStepType.RENDER; VKRStepType.RENDER]
  ∧ render (h !!! 3%N)
    = Render.mk 7 VKRRenderPassAction.CLEAR VKRRenderPassAction.CLEAR VKRRenderPassAction.CLEAR
        0xFF102030 0x3F800000 5 1 0 Vk.IMAGE_LAYOUT_COLOR_ATTACHMENT_OPTIMAL
  ∧ h !!! 2%N = heapOf frameClearThenRenders !!! 2%N.
Proof. vm_compute. done. Qed.

(** With a copy out of framebuffer 7 after the clear, no step changes. *)
Example clearPass_clear_copy_render :
  ∀ p, clearPass (heapOf frameClearCopyRender) (ptrsOf frameClearCopyRender) !!! p
       = heapOf frameClearCopyRender !!! p.
Proof. intros p. vm_compute clearPass. reflexivity. Qed.

(** C7: the code departs from the claim.  With only the MGS bit enabled,
    [RunSteps] is given copy, render(1), copy, blit, render(1), render(2).
    The steps do not alternate copies and single-draw renders (there is a
    blit among them), yet the first loop of [ApplyMGSHack] rewrites the
    vector: the blit is no longer in it, the second render is in it twice,
    and [RunSteps] ends in the double delete of that step. *)
Lemma ApplyMGSHack_loses_blit :
  let vec := ptrsOf frameCopiesWithBlit in
  let h := heapOf frameCopiesWithBlit in
  stepType (h !!! 4%N) = VKRStepType.BLIT
  ∧ match ApplyMGSHack vec h with
    | Done (vec', h') =>
        vec' = [1%N; 3%N; 2%N; 5%N; 5%N; 6%N]
        ∧ (λ p, stepType (h' !!! p)) <$> vec'
          = [VKRStepType.COPY; VKRStepType.COPY; VKRStepType.RENDER;
             VKRStepType.RENDER_SKIP; VKRStepType.RENDER_SKIP; VKRStepType.RENDER]
        ∧ commands (h' !!! 2%N) = [sampleDraw 1; sampleDraw 2]
    | Stop _ => False
    end
  ∧ match RunSteps vec h (sampleWorld [] QUEUE_HACK_MGS2_ACID 0%N 0%N 0) with
    | Done _ => False
    | Stop why => why = DoubleDelete
    end.
Proof. vm_compute. repeat split; reflexivity. Qed.

(** The second loop of [ApplyMGSHack] on depal(1), target(1) and a
    single-draw render onto a third framebuffer: that render is marked
    skipped and its draw is appended to the first depal pass. *)
Example ApplyMGSHack_skips_unmatched_render :
  let vec := ptrsOf frameDepalThenOther in
  let h := heapOf frameDepalThenOther in
  match ApplyMGSHack vec h with
  | Done (vec', h') =>
      vec' = vec
      ∧ stepType (h' !!! 3%N) = VKRStepType.RENDER_SKIP
      ∧ commands (h' !!! 1%N) = [sampleDraw 1; sampleDraw 3]
  | Stop _ => False
  end.
Proof. vm_compute. repeat split; reflexivity. Qed.

Lemma GetRenderPass_idempotent_witness :
  ∃ pass w1,
    GetRenderPass sampleKey (sampleWorld [] 0 0%N 0%N 0) = Done (pass, w1)
    ∧ GetRenderPass sampleKey w1 = Done (pass, w1)
    ∧ (renderPassesCreated w1 ≤ renderPassesCreated (sampleWorld [] 0 0%N 0%N 0) + 1)%nat
    ∧ (DenseHashMap_Get (renderPasses_ (qr (sampleWorld [] 0 0%N 0%N 0))) sampleKey
       ≠ VK_NULL_HANDLE →
       w1 = sampleWorld [] 0 0%N 0%N 0
       ∧ pass = DenseHashMap_Get (renderPasses_ (qr (sampleWorld [] 0 0%N 0%N 0))) sampleKey).
Proof.
  destruct (GetRenderPass sampleKey (sampleWorld [] 0 0%N 0%N 0))
    as [[pass w1]|why] eqn:Hrun; [|vm_compute in Hrun; discriminate].
  exists pass, w1. split; [reflexivity|].
  exact (GetRenderPass_idempotent sampleKey _ _ _ Hrun).
Defined.

(** C4, as stated, fails: an image that already is in the target layout
    gets no barrier at all from two requests in a row. *)
Lemma requestTransition_twice_no_barrier :
  let w := worldWithColorLayout Vk.IMAGE_LAYOUT_TRANSFER_SRC_OPTIMAL in
  let s := ToTransferSrc 7%N ColorImage Vk.IMAGE_ASPECT_COLOR_BIT in
  layout (siteImage s w) = siteTarget s
  ∧ requestTransition s w = Done w
  ∧ (obind (requestTransition s w) (requestTransition s)) = Done w
  ∧ barriersEmitted w = O.
Proof. vm_compute. repeat split; reflexivity. Qed.

Lemma requestTransition_twice_witness :
  let w := worldWithColorLayout Vk.IMAGE_LAYOUT_COLOR_ATTACHMENT_OPTIMAL in
  let s := ToTransferSrc 7%N ColorImage Vk.IMAGE_ASPECT_COLOR_BIT in
  ∃ w1,
    requestTransition s w = Done w1
    ∧ layout (siteImage s w1) = siteTarget s
    ∧ barriersEmitted w1
      = (barriersEmitted w + if (layout (siteImage s w) =? siteTarget s)%Z then 0 else 1)%nat
    ∧ requestTransition s w1 = Done w1.
Proof.
  cbv zeta.
  destruct (requestTransition (ToTransferSrc 7%N ColorImage Vk.IMAGE_ASPECT_COLOR_BIT)
              (worldWithColorLayout Vk.IMAGE_LAYOUT_COLOR_ATTACHMENT_OPTIMAL))
    as [w1|why] eqn:Hrun; [|vm_compute in Hrun; discriminate].
  exists w1. split; [reflexivity|].
  exact (requestTransition_twice _ _ _ Hrun).
Defined.

(** C5, as stated, fails: an empty render pass that keeps color, depth and
    stencil returns before the layout tag is written; framebuffer 7 stays in
    the shader-read layout although the step declares COLOR_ATTACHMENT_OPTIMAL
    as its final layout. *)
Lemma PerformRenderPass_empty_keep_leaves_layout :
  let w := worldWithColorLayout Vk.IMAGE_LAYOUT_SHADER_READ_ONLY_OPTIMAL in
  stepType emptyKeepStep = VKRStepType.RENDER
  ∧ Render.framebuffer (render emptyKeepStep) = 7%N
  ∧ Render.finalColorLayout (render emptyKeepStep) = Vk.IMAGE_LAYOUT_COLOR_ATTACHMENT_OPTIMAL
  ∧ PerformRenderPass emptyKeepStep w = Done w
  ∧ layout (fb_color (fbAt w 7%N)) = Vk.IMAGE_LAYOUT_SHADER_READ_ONLY_OPTIMAL.
Proof. vm_compute. repeat split; reflexivity. Qed.

Lemma PerformRenderPass_final_layout_witness :
  let w := worldWithColorLayout Vk.IMAGE_LAYOUT_COLOR_ATTACHMENT_OPTIMAL in
  ∃ w1,
    PerformRenderPass drawStep w = Done w1
    ∧ Render.framebuffer (render drawStep) ≠ nullptr
    ∧ emptyKeepPass drawStep = false
    ∧ layout (fb_color (fbAt w1 (Render.framebuffer (render drawStep))))
      = Render.finalColorLayout (render drawStep).
Proof.
  cbv zeta.
  destruct (PerformRenderPass drawStep
              (worldWithColorLayout Vk.IMAGE_LAYOUT_COLOR_ATTACHMENT_OPTIMAL))
    as [w1|why] eqn:Hrun; [|vm_compute in Hrun; discriminate].
  assert (Hfb : Render.framebuffer (render drawStep) ≠ nullptr) by (vm_compute; discriminate).
  assert (Hkeep : emptyKeepPass drawStep = false) by (vm_compute; reflexivity).
  exists w1. split; [reflexivity|]. split; [exact Hfb|]. split; [exact Hkeep|].
  exact (PerformRenderPass_final_layout _ _ _ Hrun Hfb Hkeep).
Defined.

(** C8, as stated, fails: on a device whose memory allocation fails, a
    first request for 100 bytes leaves the capacity at 100 with no buffer;
    the following request for 40 bytes is not a no-op although the capacity
    is larger: a buffer is created again and the capacity becomes 40. *)
Lemma ResizeReadbackBuffer_not_noop_without_buffer :
  match ResizeReadbackBuffer (env := sampleEnvNoMemory) 100 (sampleWorld [] 0 0%N 0%N 0) with
  | Done w =>
      readbackBuffer_ (qr w) = VK_NULL_HANDLE
      ∧ readbackBufferSize_ (qr w) = 100
      ∧ match ResizeReadbackBuffer (env := sampleEnvNoMemory) 40 w with
        | Done w' =>
            readbackBufferSize_ (qr w') = 40
            ∧ createdBufferSizes w' = [100; 40]
        | Stop _ => False
        end
  | Stop _ => False
  end.
Proof. vm_compute. repeat split; reflexivity. Qed.

(** A readback of 100 by 100 pixels with no staging buffer yet creates one
    of 40000 bytes. *)
Example PerformReadback_100x100 :
  match PerformReadback readbackStep
          (worldWithColorLayout Vk.IMAGE_LAYOUT_COLOR_ATTACHMENT_OPTIMAL) with
  | Done w => readbackBufferSize_ (qr w) = 40000 ∧ createdBufferSizes w = [40000]
  | Stop _ => False
  end.
Proof. vm_compute. repeat split; reflexivity. Qed.

(** C9, as stated, fails: in a build with C [assert] compiled in, the call
    stops in [assert(false)] after logging; and when there is no readback
    memory the call returns without logging anything. *)
Lemma CopyReadbackBuffer_unsupported_stops :
  CopyReadbackBuffer (env := debugEnv) 1 1 5 6 1 (λ _, 0) (sampleWorld [] 0 1%N 1%N 4)
  = Stop (AssertFailed "false")
  ∧ supportedConversion (env := debugEnv) 5 6 = false
  ∧ CopyReadbackBuffer (env := releaseEnv) 1 1 5 6 1 (λ _, 0) (sampleWorld [] 0 0%N 0%N 0)
    = Done (λ _, 0, sampleWorld [] 0 0%N 0%N 0)
  ∧ loggedErrors (sampleWorld [] 0 0%N 0%N 0) = [].
Proof. vm_compute. repeat split; reflexivity. Qed.

Lemma CopyReadbackBuffer_unsupported_witness :
  let w := sampleWorld [] 0 1%N 1%N 4 in
  supportedConversion 5 6 = false
  ∧ readbackMemory_ (qr w) ≠ VK_NULL_HANDLE
  ∧ (vkMapMemory releaseEnv (gpu w) (readbackMemory_ (qr w))
       (mappedSize 1 1 (DataFormatSizeInBytes releaseEnv 5))).1 = Vk.SUCCESS
  ∧ ∃ w1, CopyReadbackBuffer 1 1 5 6 1 (λ _, 0) w = Done (λ _, 0, w1)
          ∧ loggedErrors w1 = loggedErrors w ++ ["CopyReadbackBuffer: Unknown format"].
Proof.
  cbv zeta.
  assert (H1 : supportedConversion (env := releaseEnv) 5 6 = false) by (vm_compute; reflexivity).
  assert (H2 : readbackMemory_ (qr (sampleWorld [] 0 1%N 1%N 4)) ≠ VK_NULL_HANDLE)
    by (vm_compute; discriminate).
  assert (H3 : (vkMapMemory releaseEnv (gpu (sampleWorld [] 0 1%N 1%N 4))
                  (readbackMemory_ (qr (sampleWorld [] 0 1%N 1%N 4)))
                  (mappedSize 1 1 (DataFormatSizeInBytes releaseEnv 5))).1
               = Vk.SUCCESS) by (vm_compute; reflexivity).
  split; [exact H1|]. split; [exact H2|]. split; [exact H3|].
  exact (CopyReadbackBuffer_unsupported (env := releaseEnv) 1 1 5 6 1 (λ _, 0)
           (sampleWorld [] 0 1%N 1%N 4) H1 H2 H3).
Defined.

(** A render pass recorded with the final color layout UNDEFINED is given
    COLOR_ATTACHMENT_OPTIMAL by the first loop of [RunSteps], and in a debug
    build [RunSteps] does not stop in the assertion on that layout. *)
Lemma RunSteps_final_layout_defined_witness :
  let h := heapOf [undefinedLayoutStep] in
  1%N ∈ [1%N]
  ∧ Render.finalColorLayout (render (h !!! 1%N)) = Vk.IMAGE_LAYOUT_UNDEFINED
  ∧ defaultFinalLayouts h [1%N] !!! 1%N
    = set_render (Render_set_finalColorLayout Vk.IMAGE_LAYOUT_COLOR_ATTACHMENT_OPTIMAL)
        (h !!! 1%N)
  ∧ passesFinalLayoutAssertion
      (RunSteps (env := debugEnv) [1%N] h (threeFramebufferWorld 0)).
Proof.
  cbv zeta.
  assert (Hin : 1%N ∈ [1%N]) by (apply list_elem_of_singleton; reflexivity).
  split; [exact Hin|]. split; [vm_compute; reflexivity|]. split.
  - exact (proj2 (proj1 (RunSteps_final_layout_defined (env := releaseEnv))
                    (heapOf [undefinedLayoutStep]) [1%N] 1%N Hin)).
  - exact (proj2 (proj2 (proj2 (RunSteps_final_layout_defined (env := debugEnv))))
             [1%N] (heapOf [undefinedLayoutStep]) (threeFramebufferWorld 0)).
Defined.

(** In a debug build that frame runs to the end, and leaves framebuffer 7
    tagged COLOR_ATTACHMENT_OPTIMAL. *)
Example RunSteps_defaults_undefined_layout :
  match RunSteps (env := debugEnv) [1%N] (heapOf [undefinedLayoutStep])
          (threeFramebufferWorld 0) with
  | Done (w1, _, _) =>
      layout (fb_color (fbAt w1 7%N)) = Vk.IMAGE_LAYOUT_COLOR_ATTACHMENT_OPTIMAL
  | Stop _ => False
  end.
Proof. vm_compute. reflexivity. Qed.

(** ** The further properties at concrete inputs *)

Lemma GetRenderPass_cache_grows_witness :
  let w := sampleWorld [] 0 0%N 0%N 0 in
  ∃ pass w1,
    GetRenderPass sampleKey w = Done (pass, w1)
    ∧ pass ≠ VK_NULL_HANDLE
    ∧ DenseHashMap_Get (renderPasses_ (qr w1)) sampleKey = pass
    ∧ (∀ k, k ≠ sampleKey →
         DenseHashMap_Get (renderPasses_ (qr w1)) k
         = DenseHashMap_Get (renderPasses_ (qr w)) k)
    ∧ set_renderPasses (renderPasses_ (qr w)) (qr w1) = qr w
    ∧ fbs w1 = fbs w.
Proof.
  cbv zeta.
  destruct (GetRenderPass sampleKey (sampleWorld [] 0 0%N 0%N 0))
    as [[pass w1]|why] eqn:Hrun; [|vm_compute in Hrun; discriminate].
  exists pass, w1. split; [reflexivity|].
  exact (GetRenderPass_cache_grows sampleKey _ _ _ Hrun).
Defined.

Lemma PerformRenderPass_records_draws_witness :
  let w := worldWithColorLayout Vk.IMAGE_LAYOUT_COLOR_ATTACHMENT_OPTIMAL in
  ∃ w1,
    PerformRenderPass drawStep w = Done w1
    ∧ drawCalls w1 = drawCalls w ++ omap drawCallOf (commands drawStep).
Proof.
  cbv zeta.
  destruct (PerformRenderPass drawStep
              (worldWithColorLayout Vk.IMAGE_LAYOUT_COLOR_ATTACHMENT_OPTIMAL))
    as [w1|why] eqn:Hrun; [|vm_compute in Hrun; discriminate].
  exists w1. split; [reflexivity|].
  exact (PerformRenderPass_records_draws _ _ _ Hrun).
Defined.

(** The draws of a pass reach the command buffer in recorded order. *)
Example PerformRenderPass_draws_of_sonic_pass :
  match PerformRenderPass (heapOf frameSonic !!! 3%N) (threeFramebufferWorld 0) with
  | Done w1 => drawCalls w1 = omap drawCallOf (sampleDraw <$> [5; 6; 7; 8; 9; 10])
  | Stop _ => False
  end.
Proof. vm_compute. reflexivity. Qed.

Lemma RunSteps_render_passes_bracketed_witness :
  let w := threeFramebufferWorld 0 in
  passState false (trace w) = Some false
  ∧ ∃ w1 vec' h1,
      RunSteps (ptrsOf frameRenderCopyReadback) (heapOf frameRenderCopyReadback) w
      = Done (w1, vec', h1)
      ∧ passState false (trace w1) = Some false.
Proof.
  cbv zeta.
  assert (H0 : passState false (trace (threeFramebufferWorld 0)) = Some false)
    by (vm_compute; reflexivity).
  split; [exact H0|].
  destruct (RunSteps (ptrsOf frameRenderCopyReadback) (heapOf frameRenderCopyReadback)
              (threeFramebufferWorld 0))
    as [[[w1 vec'] h1]|why] eqn:Hrun; [|vm_compute in Hrun; discriminate].
  exists w1, vec', h1. split; [reflexivity|].
  exact (RunSteps_render_passes_bracketed _ _ _ _ _ _ Hrun H0).
Defined.


(** A copy of color and depth between two framebuffers in the attachment
    layouts: both images of the source end in TRANSFER_SRC_OPTIMAL, both of
    the destination in TRANSFER_DST_OPTIMAL, and the two copies name them. *)
Example PerformCopy_color_and_depth :
  match PerformCopy copyColorDepth (threeFramebufferWorld 0) with
  | Done w1 =>
      omap copyLayouts (trace w1)
      = [(Vk.IMAGE_LAYOUT_TRANSFER_SRC_OPTIMAL, Vk.IMAGE_LAYOUT_TRANSFER_DST_OPTIMAL);
         (Vk.IMAGE_LAYOUT_TRANSFER_SRC_OPTIMAL, Vk.IMAGE_LAYOUT_TRANSFER_DST_OPTIMAL)]
      ∧ layout (fb_depth (fbAt w1 7%N)) = Vk.IMAGE_LAYOUT_TRANSFER_SRC_OPTIMAL
      ∧ layout (fb_depth (fbAt w1 9%N)) = Vk.IMAGE_LAYOUT_TRANSFER_DST_OPTIMAL
  | Stop _ => False
  end.
Proof. vm_compute. repeat split; reflexivity. Qed.


Lemma ResizeReadbackBuffer_defers_release_witness :
  let w := sampleWorld [] 0 1%N 1%N 4 in
  (readbackBuffer_ (qr w) = VK_NULL_HANDLE ∨ readbackBufferSize_ (qr w) < 100)
  ∧ ∃ w1,
      ResizeReadbackBuffer 100 w = Done w1
      ∧ ∃ buf size typeIndex res mem,
          appended w w1
            ((if decide (readbackMemory_ (qr w) = VK_NULL_HANDLE) then []
              else [QueueDeleteDeviceMemory (readbackMemory_ (qr w))])
             ++ (if decide (readbackBuffer_ (qr w) = VK_NULL_HANDLE) then []
                 else [QueueDeleteBuffer (readbackBuffer_ (qr w))])
             ++ [vkCreateBuffer_call 100 Vk.BUFFER_USAGE_TRANSFER_DST_BIT buf;
                 vkAllocateMemory_call size typeIndex res mem;
                 if decide (res = Vk.SUCCESS) then vkBindBufferMemory_call buf mem
                 else vkDestroyBuffer_call buf])
          ∧ (∃ coherent,
               qr w1 = set_readback (if decide (res = Vk.SUCCESS) then mem else VK_NULL_HANDLE)
                         (if decide (res = Vk.SUCCESS) then buf else VK_NULL_HANDLE)
                         100 coherent (qr w))
          ∧ fbs w1 = fbs w.
Proof.
  cbv zeta.
  assert (Hsmall : readbackBuffer_ (qr (sampleWorld [] 0 1%N 1%N 4)) = VK_NULL_HANDLE
                   ∨ readbackBufferSize_ (qr (sampleWorld [] 0 1%N 1%N 4)) < 100)
    by (right; vm_compute; reflexivity).
  split; [exact Hsmall|].
  destruct (ResizeReadbackBuffer 100 (sampleWorld [] 0 1%N 1%N 4))
    as [w1|why] eqn:Hrun; [|vm_compute in Hrun; discriminate].
  exists w1. split; [reflexivity|].
  exact (ResizeReadbackBuffer_defers_release _ _ _ Hrun Hsmall).
Defined.

(** Growing a 4-byte staging buffer: the old memory and buffer are queued
    for deletion before the new ones are created and bound. *)
Example ResizeReadbackBuffer_queues_old_buffer :
  match ResizeReadbackBuffer 100 (sampleWorld [] 0 1%N 1%N 4) with
  | Done w1 =>
      trace w1 = [QueueDeleteDeviceMemory 1%N; QueueDeleteBuffer 1%N;
                  vkCreateBuffer_call 100 Vk.BUFFER_USAGE_TRANSFER_DST_BIT 101%N;
                  vkAllocateMemory_call 0 0 Vk.SUCCESS 102%N;
                  vkBindBufferMemory_call 101%N 102%N]
      ∧ readbackBufferSize_ (qr w1) = 100
  | Stop _ => False
  end.
Proof. vm_compute. repeat split; reflexivity. Qed.

Lemma PerformReadback_copies_witness :
  let step := readbackStep in
  let w := worldWithColorLayout Vk.IMAGE_LAYOUT_COLOR_ATTACHMENT_OPTIMAL in
  ∃ w1,
    PerformReadback step w = Done w1
    ∧ let r := readback step in
      let src := Readback.src r in
      let picked :=
        if decide (src = nullptr) then None
        else if has_bits (Readback.aspectMask r) Vk.IMAGE_ASPECT_COLOR_BIT then Some ColorImage
        else if has_bits (Readback.aspectMask r) depthStencilBits then Some DepthImage
        else None in
      readbackBytes (extent (Readback.srcRect r)) ≤ readbackBufferSize_ (qr w1)
      ∧ (∃ cs, appended w w1 cs
               ∧ bufferCopies cs
                 = if decide (src = nullptr)
                   then [(backbufferImage_ (qr w), Vk.IMAGE_LAYOUT_TRANSFER_SRC_OPTIMAL,
                          readbackBuffer_ (qr w1))]
                   else match picked with
                        | Some a => [(image (imageOf a (fbAt w src)),
                                      Vk.IMAGE_LAYOUT_TRANSFER_SRC_OPTIMAL,
                                      readbackBuffer_ (qr w1))]
                        | None => []
                        end)
      ∧ match picked with
        | Some a => layout (imageOf a (fbAt w1 src)) = Vk.IMAGE_LAYOUT_TRANSFER_SRC_OPTIMAL
        | None => fbs w1 = fbs w
        end.
Proof.
  cbv zeta.
  destruct (PerformReadback readbackStep
              (worldWithColorLayout Vk.IMAGE_LAYOUT_COLOR_ATTACHMENT_OPTIMAL))
    as [w1|why] eqn:Hrun; [|vm_compute in Hrun; discriminate].
  exists w1. split; [reflexivity|].
  exact (PerformReadback_copies _ _ _ Hrun).
Defined.

Lemma CopyReadbackBuffer_same_format_witness :
  let w := sampleWorld [] 0 1%N 1%N 16 in
  let sz := DataFormatSizeInBytes releaseEnv 5 in
  let mapped := vkMapMemory releaseEnv (gpu w) (readbackMemory_ (qr w)) (2 * 2 * sz) in
  readbackMemory_ (qr w) ≠ VK_NULL_HANDLE
  ∧ mapped.1 = Vk.SUCCESS
  ∧ 5 ≠ R8G8B8A8_UNORM releaseEnv
  ∧ 5 ≠ B8G8R8A8_UNORM releaseEnv
  ∧ 0 ≤ 2 ≤ 4 ∧ 0 ≤ 2 ∧ 2 * 2 < 2 ^ 31 ∧ 0 ≤ sz ∧ 4 * sz < 2 ^ 64 ∧ 2 * 2 * sz < 2 ^ 64
  ∧ ∃ pixels' w1,
      CopyReadbackBuffer 2 2 5 5 4 (λ _, 9) w = Done (pixels', w1)
      ∧ (∀ y x, 0 ≤ y < 2 → 0 ≤ x < 2 * sz →
           pixels' (y * (4 * sz) + x) = mapped.2 (y * (2 * sz) + x))
      ∧ (∀ a, (∀ y, 0 ≤ y < 2 → ¬ (y * (4 * sz) ≤ a < y * (4 * sz) + 2 * sz)) →
              pixels' a = (λ _, 9) a).
Proof.
  cbv zeta.
  assert (H1 : readbackMemory_ (qr (sampleWorld [] 0 1%N 1%N 16)) ≠ VK_NULL_HANDLE)
    by (vm_compute; discriminate).
  assert (H2 : (vkMapMemory releaseEnv (gpu (sampleWorld [] 0 1%N 1%N 16))
                  (readbackMemory_ (qr (sampleWorld [] 0 1%N 1%N 16)))
                  (2 * 2 * DataFormatSizeInBytes releaseEnv 5)).1
               = Vk.SUCCESS) by (vm_compute; reflexivity).
  assert (H3 : 5 ≠ R8G8B8A8_UNORM releaseEnv) by (vm_compute; discriminate).
  assert (H4 : 5 ≠ B8G8R8A8_UNORM releaseEnv) by (vm_compute; discriminate).
  assert (H5 : 0 ≤ 2 ≤ 4) by lia.
  assert (H6 : 0 ≤ 2) by lia.
  assert (Hint : 2 * 2 < 2 ^ 31) by lia.
  assert (Hbytes : 2 * 2 * DataFormatSizeInBytes releaseEnv 5 < 2 ^ 64)
    by (vm_compute; reflexivity).
  assert (H7 : 0 ≤ DataFormatSizeInBytes releaseEnv 5) by (vm_compute; discriminate).
  assert (H8 : 4 * DataFormatSizeInBytes releaseEnv 5 < 2 ^ 64) by (vm_compute; reflexivity).
  split; [exact H1|]. split; [exact H2|]. split; [exact H3|]. split; [exact H4|].
  split; [exact H5|]. split; [exact H6|]. split; [exact Hint|]. split; [exact H7|].
  split; [exact H8|]. split; [exact Hbytes|].
  exact (CopyReadbackBuffer_same_format (env := releaseEnv) 2 2 5 4 (λ _, 9)
           (sampleWorld [] 0 1%N 1%N 16) H1 H2 H3 H4 H5 H6 Hint H7 H8 Hbytes).
Defined.

Lemma CopyReadbackBuffer_releases_mapping_witness :
  let w := sampleWorld [] 0 1%N 1%N 4 in
  ∃ pixels' w1,
    CopyReadbackBuffer 1 1 5 5 1 (λ _, 0) w = Done (pixels', w1)
    ∧ let mem := readbackMemory_ (qr w) in
      let size := mappedSize 1 1 (DataFormatSizeInBytes releaseEnv 5) in
      let res := (vkMapMemory releaseEnv (gpu w) mem size).1 in
      if decide (mem = VK_NULL_HANDLE) then w1 = w ∧ pixels' = (λ _, 0)
      else
        ∃ logged,
          appended w w1
            ([vkMapMemory_call mem size res]
             ++ (if readbackBufferIsCoherent_ (qr w) then []
                 else [vkInvalidateMappedMemoryRanges mem size])
             ++ logged
             ++ (if decide (res = Vk.SUCCESS) then [vkUnmapMemory mem] else []))
          ∧ (if decide (res = Vk.SUCCESS)
             then logged = [] ∨ logged = [ELOG "CopyReadbackBuffer: Unknown format"]
             else logged = [ELOG "CopyReadbackBuffer: vkMapMemory failed!"]
                  ∧ pixels' = (λ _, 0)).
Proof.
  cbv zeta.
  destruct (CopyReadbackBuffer 1 1 5 5 1 (λ _, 0) (sampleWorld [] 0 1%N 1%N 4))
    as [[pixels' w1]|why] eqn:Hrun; [|vm_compute in Hrun; discriminate].
  exists pixels', w1. split; [reflexivity|].
  exact (CopyReadbackBuffer_releases_mapping _ _ _ _ _ _ _ _ _ Hrun).
Defined.

Lemma ApplySonicHack_permutes_witness :
  let vec := ptrsOf frameSonic in
  let h := heapOf frameSonic in
  NoDup vec
  ∧ ∃ vec' h', ApplySonicHack vec h = Done (vec', h')
               ∧ vec' ≡ₚ vec
               ∧ ∀ p, fusedFrom (h !!! p) (h' !!! p).
Proof.
  cbv zeta.
  assert (Hnd : NoDup (ptrsOf frameSonic)) by compute_done.
  split; [exact Hnd|].
  exact (ApplySonicHack_permutes (ptrsOf frameSonic) (heapOf frameSonic) Hnd).
Defined.

(** On render(3), render(1), render(6), render(1) the passes onto the first
    framebuffer are moved to the front and fused, then those onto the
    second; the pass behind them stays where it is. *)
Example ApplySonicHack_regroups :
  match ApplySonicHack (ptrsOf frameSonic) (heapOf frameSonic) with
  | Done (vec', h') =>
      vec' = [1%N; 3%N; 2%N; 4%N; 5%N]
      ∧ (λ p, stepType (h' !!! p)) <$> vec'
        = [VKRStepType.RENDER; VKRStepType.RENDER_SKIP; VKRStepType.RENDER;
           VKRStepType.RENDER_SKIP; VKRStepType.RENDER]
      ∧ commands (h' !!! 1%N) = sampleDraw <$> [1; 2; 3; 5; 6; 7; 8; 9; 10]
      ∧ commands (h' !!! 2%N) = sampleDraw <$> [4; 11]
  | Stop _ => False
  end.
Proof. vm_compute. repeat split; reflexivity. Qed.

Lemma RunSteps_deletes_each_step_once_witness :
  let vec := ptrsOf frameSonic in
  let h := heapOf frameSonic in
  let w := threeFramebufferWorld QUEUE_HACK_SONIC in
  has_bits (hacksEnabled_ (qr w)) QUEUE_HACK_MGS2_ACID = false
  ∧ NoDup vec
  ∧ (∀ p, p ∈ vec → is_Some (h !! p))
  ∧ ∃ vec' h' h1,
      vec' ≡ₚ vec
      ∧ (∀ p, p ∈ vec → h1 !! p = None)
      ∧ (∀ p, p ∉ vec → is_Some (h !! p) → is_Some (h1 !! p))
      ∧ RunSteps vec h w = (w1 ←! ofoldl (performStep h') w vec'; Done (w1, vec', h1)).
Proof.
  cbv zeta.
  assert (Hh : has_bits (hacksEnabled_ (qr (threeFramebufferWorld QUEUE_HACK_SONIC)))
                 QUEUE_HACK_MGS2_ACID = false) by (vm_compute; reflexivity).
  assert (Hnd : NoDup (ptrsOf frameSonic)) by compute_done.
  assert (Hall : ∀ p, p ∈ ptrsOf frameSonic → is_Some (heapOf frameSonic !! p)).
  { intros p Hp. change (ptrsOf frameSonic) with [1%N; 2%N; 3%N; 4%N; 5%N] in Hp.
    repeat (apply elem_of_cons in Hp as [->|Hp]; [eexists; vm_compute; reflexivity|]).
    by apply elem_of_nil in Hp. }
  split; [exact Hh|]. split; [exact Hnd|]. split; [exact Hall|].
  exact (RunSteps_deletes_each_step_once (ptrsOf frameSonic) (heapOf frameSonic)
           (threeFramebufferWorld QUEUE_HACK_SONIC) Hh Hnd Hall).
Defined.

Lemma mergeScan_stops_at_touched_witness :
  let h := heapOf frameReadsTouched in
  NoDup (1%N :: [2%N] ++ 3%N :: [4%N])
  ∧ stepType (h !!! 3%N) = VKRStepType.RENDER
  ∧ 2%N ∈ [2%N]
  ∧ writesOther 7%N (h !!! 2%N) = Some 8%N
  ∧ TinySet.contains (dependencies (h !!! 3%N)) 8%N = true
  ∧ ∀ x, x ∈ 3%N :: [4%N] →
      mergeScan 7%N 1%N TinySet.empty h ([2%N] ++ 3%N :: [4%N]) !!! x = h !!! x.
Proof.
  cbv zeta.
  assert (Hnd : NoDup (1%N :: [2%N] ++ 3%N :: [4%N])) by compute_done.
  assert (Hty : stepType (heapOf frameReadsTouched !!! 3%N) = VKRStepType.RENDER)
    by (vm_compute; reflexivity).
  assert (Hq : 2%N ∈ [2%N]) by (apply list_elem_of_singleton; reflexivity).
  assert (Hw : writesOther 7%N (heapOf frameReadsTouched !!! 2%N) = Some 8%N)
    by (vm_compute; reflexivity).
  assert (Hc : TinySet.contains (dependencies (heapOf frameReadsTouched !!! 3%N)) 8%N = true)
    by (vm_compute; reflexivity).
  split; [exact Hnd|]. split; [exact Hty|]. split; [exact Hq|]. split; [exact Hw|].
  split; [exact Hc|].
  exact (mergeScan_stops_at_touched 7%N 1%N TinySet.empty (heapOf frameReadsTouched)
           [2%N] 3%N [4%N] 2%N 8%N Hnd Hty Hq Hw Hc).
Defined.

(** The whole merge pass on that frame: the pass that reads framebuffer 8
    and the pass behind it are fused with each other, not with the first. *)
Example merge_reads_touched :
  let h := ApplyRenderPassMerge (heapOf frameReadsTouched) (ptrsOf frameReadsTouched) in
  (λ p, stepType (h !!! p)) <$> ptrsOf frameReadsTouched
    = [VKRStepType.RENDER; VKRStepType.RENDER; VKRStepType.RENDER; VKRStepType.RENDER_SKIP]
  ∧ commands (h !!! 1%N) = [sampleDraw 1]
  ∧ commands (h !!! 3%N) = [sampleDraw 3; sampleDraw 4].
Proof. vm_compute. repeat split; reflexivity. Qed.

Lemma ApplySonicHack_preserves_commands_witness :
  let vec := ptrsOf frameSonic in
  let h := heapOf frameSonic in
  NoDup vec
  ∧ (∀ p, p ∈ vec → stepType (h !!! p) = VKRStepType.RENDER)
  ∧ ∃ vec' h', ApplySonicHack vec h = Done (vec', h')
               ∧ ∀ fb, fbCommands fb h' vec' = fbCommands fb h vec.
Proof.
  cbv zeta.
  assert (Hnd : NoDup (ptrsOf frameSonic)) by compute_done.
  assert (Hall : ∀ p, p ∈ ptrsOf frameSonic →
                      stepType (heapOf frameSonic !!! p) = VKRStepType.RENDER).
  { intros p Hp. change (ptrsOf frameSonic) with [1%N; 2%N; 3%N; 4%N; 5%N] in Hp.
    repeat (apply elem_of_cons in Hp as [->|Hp]; [vm_compute; reflexivity|]).
    by apply elem_of_nil in Hp. }
  split; [exact Hnd|]. split; [exact Hall|].
  exact (ApplySonicHack_preserves_commands (ptrsOf frameSonic) (heapOf frameSonic) Hnd Hall).
Defined.

Lemma PerformRenderPass_other_framebuffers_witness :
  let step := texturingStep in
  let w := threeFramebufferWorld 0 in
  ∃ w1,
    PerformRenderPass step w = Done w1
    ∧ ∀ p, p ≠ Render.framebuffer (render step) ∨ emptyKeepPass step = true →
        match lastRequested p (preTransitions step) with
        | Some l => fbAt w1 p = withColorLayout l (fbAt w p)
                    ∧ (l = layout (fb_color (fbAt w p))
                       ∨ l = Vk.IMAGE_LAYOUT_SHADER_READ_ONLY_OPTIMAL)
        | None => fbAt w1 p = fbAt w p
        end.
Proof.
  cbv zeta.
  destruct (PerformRenderPass texturingStep (threeFramebufferWorld 0))
    as [w1|why] eqn:Hrun; [|vm_compute in Hrun; discriminate].
  exists w1. split; [reflexivity|].
  exact (PerformRenderPass_other_framebuffers _ _ _ Hrun).
Defined.

(** The pass onto framebuffer 7 leaves framebuffer 8 readable by shaders
    and framebuffer 9 as it was. *)
Example PerformRenderPass_texturing :
  match PerformRenderPass texturingStep (threeFramebufferWorld 0) with
  | Done w1 =>
      layout (fb_color (fbAt w1 8%N)) = Vk.IMAGE_LAYOUT_SHADER_READ_ONLY_OPTIMAL
      ∧ fbAt w1 9%N = fbAt (threeFramebufferWorld 0) 9%N
  | Stop _ => False
  end.
Proof. vm_compute. repeat split; reflexivity. Qed.

(** An instance count of -1 reaches [vkCmdDrawIndexed] as 4294967295. *)
Example PerformRenderPass_negative_instances :
  match PerformRenderPass negativeInstancesStep (threeFramebufferWorld 0) with
  | Done w1 => drawCalls w1 = [vkCmdDrawIndexed 6 4294967295]
  | Stop _ => False
  end.
Proof. vm_compute. reflexivity. Qed.

(** The replay of pipeline 5, a stencil command, pipeline 5 again and the
    same stencil command binds the pipeline once and sets the stencil state
    once; what the command buffer holds last is what the commands ask for. *)
Example replay_elides_repeated_state :
  match ofoldl (replayCommand 7%N 480 272) (replayStart (threeFramebufferWorld 0))
          [RdBindPipeline 5%N; RdStencil (mkStencilArgs 255 255 1);
           RdBindPipeline 5%N; RdStencil (mkStencilArgs 255 255 1)] with
  | Done st =>
      trace st.2 = [vkCmdBindPipeline 5%N; vkCmdSetStencilWriteMask 255;
                    vkCmdSetStencilCompareMask 255; vkCmdSetStencilReference 1]
      ∧ boundPipeline (trace st.2) = Some 5%N
      ∧ stencilReferenceSet (trace st.2) = Some 1
  | Stop _ => False
  end.
Proof. vm_compute. repeat split; reflexivity. Qed.

(** On the backbuffer a debug build stops at a scissor rectangle whose
    rotated x is negative; a release build records it. *)
Example replay_scissor_assertion :
  ofoldl (replayCommand (env := debugEnv) nullptr 480 272)
    (replayStart (threeFramebufferWorld 0)) [scissorLeftOfDisplay]
  = Stop (AssertFailed rotatedXAssertion)
  ∧ match ofoldl (replayCommand (env := releaseEnv) nullptr 480 272)
            (replayStart (threeFramebufferWorld 0)) [scissorLeftOfDisplay] with
    | Done st =>
        trace st.2 = [vkCmdSetScissor (mkRect2D (mkOffset2D (-1) 0) (mkExtent2D 10 10))]
    | Stop _ => False
    end.
Proof. vm_compute. split; reflexivity. Qed.

(** The size mapped for a readback: the byte count of the region where the
    pixel count fits [int], and 0 for 65536 by 65536 pixels. *)
Example mappedSize_values :
  mappedSize 100 100 4 = 40000 ∧ mappedSize 65536 65536 4 = 0.
Proof. vm_compute. split; reflexivity. Qed.
